(** * A shallow embedding of the web scraper (main.py)

    The development follows the source file function by function:
    [fetch_page], [clean_text], [analyze_structure], [present_options],
    [scrape_page], [get_next_page] and [main].

    - Python [str] values are lists of Unicode code points.
    - A parsed document is a rose tree of tags and strings, each string
      with its class (text, comment, script, ...), with the search
      functions of the parser library ([find_all], [find], [.text],
      [.string]) written out over it.
    - Effects (HTTP requests, sleeping, console input and output, the log,
      the written file) are threaded through a small state-and-exception
      monad that also returns the events a computation emitted.
    - Library functions that are far too large to embed (Unicode case
      mapping, [int], [urljoin], [urlparse], the markup parser) are the
      fields of the class [Builtins].

    The command-line block under [if __name__ == "__main__"] (argument
    parsing and the handlers of the interrupt and of any other exception)
    is not part of the embedding. *)

From Stdlib Require Import List NArith ZArith Bool Lia String Ascii.
Import ListNotations.

(** ** Strings *)

Module Str.

Local Open Scope N_scope.

(** A Python string: the list of its code points. *)
Definition pystr := list N.

(** A literal. *)
Definition str (s : string) : pystr :=
  map N_of_ascii (list_ascii_of_string s).

Fixpoint eqb (a b : pystr) : bool :=
  match a, b with
  | [], [] => true
  | x :: a', y :: b' => N.eqb x y && eqb a' b'
  | _, _ => false
  end.

(** [Py_UNICODE_ISSPACE]: the predicate behind both [str.strip()] and the
    pattern [\s] on [str] subjects. *)
Definition isspace (c : N) : bool :=
  ((0x09 <=? c) && (c <=? 0x0D)) || ((0x1C <=? c) && (c <=? 0x20))
  || (c =? 0x85) || (c =? 0xA0) || (c =? 0x1680)
  || ((0x2000 <=? c) && (c <=? 0x200A))
  || (c =? 0x2028) || (c =? 0x2029) || (c =? 0x202F) || (c =? 0x205F)
  || (c =? 0x3000).

Fixpoint dropwhile (p : N -> bool) (s : pystr) : pystr :=
  match s with
  | [] => []
  | c :: s' => if p c then dropwhile p s' else s
  end.

Definition lstrip (s : pystr) : pystr := dropwhile isspace s.
Definition rstrip (s : pystr) : pystr := rev (dropwhile isspace (rev s)).

(** [s.strip()] *)
Definition strip (s : pystr) : pystr := rstrip (lstrip s).

(** [re.sub(r'\s+', ' ', s)]: every maximal run of white space becomes one
    space.  [in_run] tells that the previous character belonged to a run
    whose replacement was already written. *)
Fixpoint sub_ws_from (in_run : bool) (s : pystr) : pystr :=
  match s with
  | [] => []
  | c :: s' =>
      if isspace c
      then if in_run then sub_ws_from true s' else 0x20 :: sub_ws_from true s'
      else c :: sub_ws_from false s'
  end.

Definition sub_ws (s : pystr) : pystr := sub_ws_from false s.

(** [s.startswith(p)] *)
Fixpoint startswith (p s : pystr) : bool :=
  match p, s with
  | [], _ => true
  | x :: p', y :: s' => N.eqb x y && startswith p' s'
  | _ :: _, [] => false
  end.

(** [p in s] for strings. *)
Fixpoint contains (p s : pystr) : bool :=
  startswith p s ||
  match s with
  | [] => false
  | _ :: s' => contains p s'
  end.

(** [s.split(sep)] for a one-character separator: never empty. *)
Fixpoint split_on (sep : N) (s : pystr) : list pystr :=
  match s with
  | [] => [[]]
  | c :: s' =>
      if N.eqb c sep then [] :: split_on sep s'
      else match split_on sep s' with
           | [] => [[c]]
           | w :: ws => (c :: w) :: ws
           end
  end.

(** [s.replace(a, b)] for one-character [a] and [b]. *)
Definition replace_char (a b : N) (s : pystr) : pystr :=
  map (fun c => if N.eqb c a then b else c) s.

(** [s.upper()] on ASCII text; the source applies it to the literal tag
    names only. *)
Definition upper_ascii (s : pystr) : pystr :=
  map (fun c => if (0x61 <=? c) && (c <=? 0x7A) then c - 0x20 else c) s.

(** [sep.join(ws)] *)
Fixpoint join (sep : pystr) (ws : list pystr) : pystr :=
  match ws with
  | [] => []
  | [w] => w
  | w :: ws' => w ++ sep ++ join sep ws'
  end.

(** The maximal runs of characters that are not white space, in order
    (what [s.split()] returns).  [scan_words s] is the run that starts at
    the head of [s], empty when there is none, and the runs after it. *)
Definition push_word (w : pystr) (ws : list pystr) : list pystr :=
  match w with
  | [] => ws
  | _ => w :: ws
  end.

Fixpoint scan_words (s : pystr) : pystr * list pystr :=
  match s with
  | [] => ([], [])
  | c :: s' =>
      let (w, ws) := scan_words s' in
      if isspace c then ([], push_word w ws) else (c :: w, ws)
  end.

Definition words (s : pystr) : list pystr :=
  let (w, ws) := scan_words s in push_word w ws.

(** Every white-space character of [s] is one space that stands between
    two characters that are not white space. *)
Fixpoint collapsed_from (after_char : bool) (s : pystr) : bool :=
  match s with
  | [] => true
  | c :: s' =>
      if isspace c
      then after_char && (c =? 0x20)
           && match s' with
              | [] => false
              | d :: _ => negb (isspace d)
              end
           && collapsed_from false s'
      else collapsed_from true s'
  end.

Definition collapsed (s : pystr) : bool := collapsed_from false s.

(** A word: not empty, no white space in it. *)
Definition is_word (w : pystr) : Prop :=
  w <> [] /\ forallb (fun c => negb (isspace c)) w = true.

(** Each word with a space before it. *)
Definition spaced (ws : list pystr) : pystr :=
  flat_map (fun w => 0x20 :: w) ws.

End Str.
Import Str.

(** The sentinel. *)
Definition NA : pystr := str "N/A".

(** ** [clean_text] *)

(** [text] is a string or [None]. *)
Definition clean_text (text : option pystr) : pystr :=
  match text with
  | None => NA
  | Some [] => NA
  | Some t =>
      match sub_ws (strip t) with
      | [] => NA
      | t' => t'
      end
  end.

(** ** Documents, as the markup parser presents them *)

Module Dom.

(** The classes of the strings of a document.  Ordinary text is a
    [NavigableString]; the parser gives every other string a subclass of
    it: comments, declarations and the like, and the strings it finds
    inside [<style>], [<script>], [<template>], [<rt>] and [<rp>]. *)
Inductive string_class :=
| NavigableString
| CData
| Comment
| ProcessingInstruction
| Declaration
| Doctype
| Stylesheet
| Script
| TemplateString
| RubyTextString
| RubyParenthesisString.

Definition class_eqb (a b : string_class) : bool :=
  match a, b with
  | NavigableString, NavigableString | CData, CData | Comment, Comment
  | ProcessingInstruction, ProcessingInstruction
  | Declaration, Declaration | Doctype, Doctype
  | Stylesheet, Stylesheet | Script, Script
  | TemplateString, TemplateString
  | RubyTextString, RubyTextString
  | RubyParenthesisString, RubyParenthesisString => true
  | _, _ => false
  end.

(** A node is a string of some class or a tag; a tag carries its name, its
    attribute dictionary (each name once, the values as written in the
    markup) and its children, strings of every class among them. *)
#[warnings="-register-all"]
Inductive node :=
| Str (cls : string_class) (s : pystr)
| Tag (name : pystr) (attrs : list (pystr * pystr)) (children : list node).

(** A string of ordinary text. *)
Abbreviation Text := (Str NavigableString).

(** [d.get(k)] on the attribute dictionary. *)
Fixpoint lookup (k : pystr) (d : list (pystr * pystr)) : option pystr :=
  match d with
  | [] => None
  | (k', v) :: d' => if Str.eqb k' k then Some v else lookup k d'
  end.

Definition attrs_of (n : node) : list (pystr * pystr) :=
  match n with
  | Str _ _ => []
  | Tag _ a _ => a
  end.

(** [n.descendants]: every node below [n], in document order. *)
Fixpoint descendants (n : node) : list node :=
  match n with
  | Str _ _ => []
  | Tag _ _ cs => flat_map (fun c => c :: descendants c) cs
  end.

Definition is_tag (names : list pystr) (n : node) : bool :=
  match n with
  | Str _ _ => false
  | Tag nm _ _ => existsb (Str.eqb nm) names
  end.

(** [n.find_all(name)] and [n.find_all([name1, name2, ...])] *)
Definition find_all (names : list pystr) (n : node) : list node :=
  filter (is_tag names) (descendants n).

(** [n.find(name)]: the first match of [find_all], or [None]. *)
Definition find (name : pystr) (n : node) : option node :=
  hd_error (find_all [name] n).

(** [tag.interesting_string_types]: the classes of the strings that count
    as the text of a tag.  For the five tags whose strings the parser puts
    in a class of their own it is that class; for any other tag it is
    [NavigableString] and [CData], so that comments, scripts, style sheets
    and templates below the tag are no part of its text. *)
Definition interesting_string_types (name : pystr) : list string_class :=
  if Str.eqb name (str "rt") then [RubyTextString]
  else if Str.eqb name (str "rp") then [RubyParenthesisString]
  else if Str.eqb name (str "style") then [Stylesheet]
  else if Str.eqb name (str "script") then [Script]
  else if Str.eqb name (str "template") then [TemplateString]
  else [NavigableString; CData].

(** The strings at or below [n] whose class is one of [types],
    concatenated in document order.  The class is compared exactly: a
    subclass of a listed class does not count. *)
Fixpoint all_strings (types : list string_class) (n : node) : pystr :=
  match n with
  | Str cls s => if existsb (class_eqb cls) types then s else []
  | Tag _ _ cs => flat_map (all_strings types) cs
  end.

(** [n.text], that is [n.get_text()]: the interesting strings below a tag;
    for a string, the string itself when it is text or CDATA. *)
Definition text (n : node) : pystr :=
  match n with
  | Str _ _ => all_strings [NavigableString; CData] n
  | Tag name _ _ => all_strings (interesting_string_types name) n
  end.

(** [n.string]: a tag has a string only when it has exactly one child; the
    string is that child when the child is a string, of whatever class (a
    comment is one), and the [.string] of the child when it is a tag. *)
Fixpoint node_string (n : node) : option pystr :=
  match n with
  | Str _ s => Some s
  | Tag _ _ [c] => node_string c
  | Tag _ _ _ => None
  end.

(** The values of the multi-valued attribute [class]: the parser library
    splits the attribute on white space. *)
Definition class_values (n : node) : option (list pystr) :=
  option_map words (lookup (str "class") (attrs_of n)).

(** How the library matches an attribute filter given as a function
    against [class]: absent attribute, the function sees [None]; present,
    it sees each value and then all values joined by a space. *)
Definition class_matches (f : option pystr -> bool) (n : node) : bool :=
  match class_values n with
  | None => f None
  | Some vs => existsb (fun v => f (Some v)) vs || f (Some (join (str " ") vs))
  end.

(** [n.find(name, class_=f)] *)
Definition find_class (name : pystr) (f : option pystr -> bool) (n : node)
  : option node :=
  hd_error (filter (fun d => is_tag [name] d && class_matches f d)
                   (descendants n)).

(** [n.find(name, text=p)], [p] standing for [pattern.search]: a tag with
    no [.string] never matches. *)
Definition find_text (name : pystr) (p : pystr -> bool) (n : node)
  : option node :=
  hd_error (filter (fun d => is_tag [name] d &&
                             match node_string d with
                             | Some s => p s
                             | None => false
                             end)
                   (descendants n)).

End Dom.
Import Dom.

(** ** Regular expressions (the fragment the source uses) *)

Module Re.

Inductive regex :=
| Empty
| Eps
| Chr (p : N -> bool)
| Cat (r1 r2 : regex)
| Alt (r1 r2 : regex)
| Star (r : regex).

Definition Plus (r : regex) : regex := Cat r (Star r).

Fixpoint nullable (r : regex) : bool :=
  match r with
  | Empty => false
  | Eps => true
  | Chr _ => false
  | Cat r1 r2 => nullable r1 && nullable r2
  | Alt r1 r2 => nullable r1 || nullable r2
  | Star _ => true
  end.

(** Brzozowski derivative. *)
Fixpoint deriv (c : N) (r : regex) : regex :=
  match r with
  | Empty => Empty
  | Eps => Empty
  | Chr p => if p c then Eps else Empty
  | Cat r1 r2 =>
      if nullable r1 then Alt (Cat (deriv c r1) r2) (deriv c r2)
      else Cat (deriv c r1) r2
  | Alt r1 r2 => Alt (deriv c r1) (deriv c r2)
  | Star r1 => Cat (deriv c r1) (Star r1)
  end.

(** Some prefix of [s] matches [r]. *)
Fixpoint match_prefix (r : regex) (s : pystr) : bool :=
  nullable r ||
  match s with
  | [] => false
  | c :: s' => match_prefix (deriv c r) s'
  end.

(** [pattern.search(s)] as a truth value: a match starts somewhere. *)
Fixpoint search (r : regex) (s : pystr) : bool :=
  match_prefix r s ||
  match s with
  | [] => false
  | _ :: s' => search r s'
  end.

(** A literal under [re.I]: each character matches what has the same
    lower-case form ([lower] is the per-character mapping of the engine). *)
Fixpoint literal_i (lower : N -> N) (p : pystr) : regex :=
  match p with
  | [] => Eps
  | c :: p' => Cat (Chr (fun x => N.eqb (lower x) (lower c))) (literal_i lower p')
  end.

End Re.

(** ** Library functions taken as given *)

(** The parts of the Python runtime and of the libraries that the source
    calls and that are not written out here.  [py_int], [urljoin] and
    [urlparse] return [None] where [int], [urljoin] and [urlparse] raise
    [ValueError] (a number that does not parse; a URL whose host opens a
    bracket it does not close, or the like). *)
Class Builtins := {
  (** [str.lower] *)
  str_lower : pystr -> pystr;
  (** the lower-case form of one character, as [re.I] compares them *)
  chr_lower : N -> N;
  (** the characters [\d] matches *)
  is_decimal : N -> bool;
  (** [int(s)] *)
  py_int : pystr -> option Z;
  (** [urljoin(base, url)] *)
  urljoin : pystr -> pystr -> option pystr;
  (** the [scheme] and [netloc] fields of [urlparse(url)] *)
  urlparse : pystr -> option (pystr * pystr);
  (** [BeautifulSoup(html, 'html.parser')] *)
  parse_html : pystr -> node;
  (** lower-casing changes cased characters only: a string of commas and
      white space is left as it is *)
  str_lower_uncased :
    forall s, forallb (fun c => isspace c || N.eqb c 0x2C) s = true ->
              str_lower s = s
}.

(** ** Effects *)

(** The exceptions the program can meet.  [OtherError] stands for the
    errors the embedding does not tell apart: what a request raises that
    is no [RequestException], and what the timer raises on a pause it
    does not take. *)
Inductive exn :=
| RequestException
| ValueError
| IndexError
| AttributeError
| EOFError
| OtherError.

Inductive result (A : Type) :=
| Ret (a : A)
| Raise (e : exn).
Arguments Ret {A} a.
Arguments Raise {A} e.

(** What one [requests.get] followed by [raise_for_status] does: a body, a
    [RequestException], or some other error. *)
Inductive http_outcome :=
| HttpOk (body : pystr)
| HttpRequestException
| HttpOtherError.

Inductive level := INFO | WARNING | ERROR.

(** The log lines of the program, by their format string. *)
Inductive log_msg :=
| LFetched (url : pystr)
| LAttemptFailed (attempt : Z) (url : pystr)
| LFetchFailed (url : pystr) (retries : Z)
| LDetected (n : nat) (types : list pystr)
| LNoContentTypes
| LSkipping
| LScraped (n : nat)
| LScrapingPage (page : Z) (url : pystr)
| LNoMorePages
| LNoContainers
| LSaved (n : nat) (file : pystr)
| LNoData.

(** The console lines of the program. *)
Inductive console_msg :=
| PFetchFailed
| PNoContainers
| PNoContentTypes
| PFound
| POption (i : Z) (type : pystr) (count : nat) (sample : pystr)
| PInvalidSelection
| PInvalidNumbers
| PNoDataSelected
| PSaved (n : nat) (file : pystr)
| PNoData.

(** A table: column labels and rows of cells; an absent cell ([NaN]) is
    [None]. *)
Record dataframe := {
  columns : list pystr;
  cells : list (list (option pystr))
}.

Inductive event :=
| EGet (url : pystr)
| ESleep (secs : Z)
| ELog (lvl : level) (m : log_msg)
| EPrint (m : console_msg)
| EInput
| ECsv (file : pystr) (df : dataframe).

(** The world a run acts on: what the network answers to the [k]-th
    request when it is for [url], how many requests were made, the lines
    still waiting on standard input, and the longest pause, in seconds,
    that the timer of the platform takes when that is more than the
    pause every platform takes (see [takes_pause]). *)
Record world := {
  www : nat -> pystr -> http_outcome;
  clock : nat;
  stdin : list pystr;
  timer_max : Z
}.

(** A computation returns a value or raises, leaves a world, and emits
    events. *)
Definition M (A : Type) : Type := world -> result A * world * list event.

Definition ret {A} (a : A) : M A := fun w => (Ret a, w, []).

Definition bind {A B} (m : M A) (f : A -> M B) : M B :=
  fun w =>
    match m w with
    | (Ret a, w1, ev1) =>
        match f a w1 with
        | (r, w2, ev2) => (r, w2, ev1 ++ ev2)
        end
    | (Raise e, w1, ev1) => (Raise e, w1, ev1)
    end.

(** [try: m  except E: h], for the exception class [handles]. *)
Definition try_except {A} (m : M A) (handles : exn -> bool) (h : M A) : M A :=
  fun w =>
    match m w with
    | (Raise e, w1, ev1) =>
        if handles e
        then match h w1 with
             | (r, w2, ev2) => (r, w2, ev1 ++ ev2)
             end
        else (Raise e, w1, ev1)
    | done => done
    end.

Definition lift {A} (r : result A) : M A := fun w => (r, w, []).

(** The outcome of a library call that the model writes as an option:
    [None] stands for the exception [e]. *)
Definition or_raise {A} (e : exn) (o : option A) : result A :=
  match o with
  | Some a => Ret a
  | None => Raise e
  end.

Definition emit (e : event) : M unit := fun w => (Ret tt, w, [e]).

Definition log (lvl : level) (m : log_msg) : M unit := emit (ELog lvl m).
Definition print (m : console_msg) : M unit := emit (EPrint m).

(** Whether the timer takes a pause of [secs] seconds.  Every platform
    takes 4294967 seconds (the milliseconds that fit an unsigned long);
    how much more depends on the platform. *)
Definition takes_pause (w : world) (secs : Z) : bool :=
  ((secs <=? 4294967) || (secs <=? timer_max w))%Z.

(** [time.sleep(secs)]: a negative length raises [ValueError]; a length
    the timer does not take raises an error of the platform
    ([OverflowError], or [OSError]). *)
Definition sleep (secs : Z) : M unit :=
  fun w =>
    if (secs <? 0)%Z then (Raise ValueError, w, [])
    else if takes_pause w secs then (Ret tt, w, [ESleep secs])
    else (Raise OtherError, w, []).

(** [requests.get(url, ...)], [raise_for_status()] and [.text]. *)
Definition http_get (url : pystr) : M pystr :=
  fun w =>
    let w' := {| www := www w; clock := S (clock w); stdin := stdin w;
                 timer_max := timer_max w |} in
    match www w (clock w) url with
    | HttpOk body => (Ret body, w', [EGet url])
    | HttpRequestException => (Raise RequestException, w', [EGet url])
    | HttpOtherError => (Raise OtherError, w', [EGet url])
    end.

Declare Scope monad_scope.
Delimit Scope monad_scope with monad.
Notation "x <- m ;; k" := (bind m (fun x => k))
  (at level 61, m at next level, right associativity) : monad_scope.
Notation "' pat <- m ;; k" := (bind m (fun x => match x with pat => k end))
  (at level 61, pat pattern, m at next level, right associativity)
  : monad_scope.
Notation "m ;; k" := (bind m (fun _ => k))
  (at level 61, right associativity) : monad_scope.
Open Scope monad_scope.

(** The error monad for the pure parts. *)
Definition rbind {A B} (r : result A) (f : A -> result B) : result B :=
  match r with
  | Ret a => f a
  | Raise e => Raise e
  end.

Fixpoint rmap {A B} (f : A -> result B) (l : list A) : result (list B) :=
  match l with
  | [] => Ret []
  | a :: l' => rbind (f a) (fun b => rbind (rmap f l') (fun bs => Ret (b :: bs)))
  end.

Open Scope Z_scope.

(** [range(n)] *)
Definition range (n : Z) : list Z := map Z.of_nat (seq 0 (Z.to_nat n)).

(** [l[i]], with negative indices counting from the end. *)
Definition py_index {A} (l : list A) (i : Z) : result A :=
  let n := Z.of_nat (List.length l) in
  let j := if i <? 0 then i + n else i in
  if (0 <=? j) && (j <? n)
  then match nth_error l (Z.to_nat j) with
       | Some x => Ret x
       | None => Raise IndexError
       end
  else Raise IndexError.

(** Truth value of a string or [None]. *)
Definition truthy (s : option pystr) : bool :=
  match s with
  | None | Some [] => false
  | Some _ => true
  end.

(** ** [fetch_page] *)

Definition is_request_exception (e : exn) : bool :=
  match e with
  | RequestException => true
  | _ => false
  end.

(** The iterations of [for attempt in range(retries)] that remain. *)
Fixpoint fetch_attempts (url : pystr) (retries delay : Z) (attempts : list Z)
  : M (option pystr) :=
  match attempts with
  | [] => ret None
  | attempt :: rest =>
      try_except
        (body <- http_get url ;;
         log INFO (LFetched url) ;;
         ret (Some body))
        is_request_exception
        (log WARNING (LAttemptFailed (attempt + 1) url) ;;
         if attempt + 1 =? retries
         then log ERROR (LFetchFailed url retries) ;; ret None
         else sleep delay ;; fetch_attempts url retries delay rest)
  end.

Definition fetch_page (url : pystr) (retries delay : Z) : M (option pystr) :=
  fetch_attempts url retries delay (range retries).

(** ** [analyze_structure] *)

Definition container_tags : list pystr :=
  [str "article"; str "div"; str "section"; str "li"].

Definition content_tags : list pystr :=
  [str "h1"; str "h2"; str "h3"; str "p"; str "time"].

(** An entry of [tag_info]. *)
Record content_type := {
  ti_type : pystr;
  ti_tag : pystr;
  ti_count : nat;
  ti_sample : pystr
}.

(** [len(element.find_all([...])) > 0] *)
Definition has_content (element : node) : bool :=
  (0 <? List.length (find_all content_tags element))%nat.

(** The first loop: the list [containers]. *)
Definition containers_of (soup : node) : list (pystr * node) :=
  flat_map
    (fun tag =>
       flat_map (fun element =>
                   if has_content element then [(tag, element)] else [])
                (find_all [tag] soup))
    container_tags.

(** The second loop and the filter after it: the list [tag_info]. *)
Definition tag_info_of (soup : node) : list content_type :=
  let tag_info :=
    flat_map
      (fun tag =>
         let elements := find_all [tag] soup in
         match elements with
         | [] => []
         | first :: _ =>
             [ {| ti_type := upper_ascii tag;
                  ti_tag := tag;
                  ti_count := List.length elements;
                  ti_sample := firstn 50 (clean_text (Some (text first))) |} ]
         end)
      content_tags in
  filter (fun info => (0 <? ti_count info)%nat) tag_info.

Definition analyze_structure (soup : node)
  : M (list (pystr * node) * list content_type) :=
  let containers := containers_of soup in
  let tag_info := tag_info_of soup in
  log INFO (LDetected (List.length tag_info) (map ti_type tag_info)) ;;
  ret (containers, tag_info).

(** ** [scrape_page] *)

(** A Python [dict] from strings to strings, in insertion order. *)
Definition pydict := list (pystr * pystr).

(** [d[k] = v] *)
Fixpoint dict_set (k v : pystr) (d : pydict) : pydict :=
  match d with
  | [] => [(k, v)]
  | (k', v') :: d' =>
      if Str.eqb k' k then (k', v) :: d' else (k', v') :: dict_set k v d'
  end.

(** [d.get(k)] *)
Definition dict_get (k : pystr) (d : pydict) : option pystr := lookup k d.

(** [containers[0][0] if containers else 'article'] *)
Definition container_tag_of (containers : list (pystr * node)) : pystr :=
  match containers with
  | (tag, _) :: _ => tag
  | [] => str "article"
  end.

(** The list [selected_tags]; an index outside [tag_info] raises. *)
Definition selected_tags_of (tag_info : list content_type)
  (selected_indices : list Z) : result (list (pystr * pystr)) :=
  rmap (fun i =>
          rbind (py_index tag_info (i - 1)) (fun a =>
          rbind (py_index tag_info (i - 1)) (fun b =>
          Ret (ti_tag a, ti_type b))))
       selected_indices.

(** Reading the attribute [.text] of what [find] returned: [None] has no
    such attribute. *)
Definition dot_text (element : option node) : result pystr :=
  match element with
  | Some e => Ret (text e)
  | None => Raise AttributeError
  end.

(** Truth value of what [find] returned: a tag is always true. *)
Definition truthy_node (element : option node) : bool :=
  match element with
  | Some _ => true
  | None => false
  end.

(** The inner loop, filling [row]. *)
Fixpoint fill_row (article : node) (selected_tags : list (pystr * pystr))
  (row : pydict) : result pydict :=
  match selected_tags with
  | [] => Ret row
  | (tag, col_name) :: rest =>
      let element := find tag article in
      rbind (if truthy_node element
             then rbind (dot_text element) (fun t => Ret (Some t))
             else Ret None)
            (fun arg =>
               fill_row article rest (dict_set col_name (clean_text arg) row))
  end.

Definition is_attribute_error (e : exn) : bool :=
  match e with
  | AttributeError => true
  | _ => false
  end.

(** The outer loop over [articles], extending [data]. *)
Fixpoint scrape_articles (articles : list node)
  (selected_tags : list (pystr * pystr)) (data : list pydict)
  : M (list pydict) :=
  match articles with
  | [] => ret data
  | article :: rest =>
      data' <- try_except
                 (row <- lift (fill_row article selected_tags []) ;;
                  ret (data ++ [row]))
                 is_attribute_error
                 (log WARNING LSkipping ;; ret data) ;;
      scrape_articles rest selected_tags data'
  end.

Definition scrape_page (soup : node) (containers : list (pystr * node))
  (tag_info : list content_type) (selected_indices : list Z)
  : M (list pydict) :=
  let container_tag := container_tag_of containers in
  let articles := find_all [container_tag] soup in
  selected_tags <- lift (selected_tags_of tag_info selected_indices) ;;
  data <- scrape_articles articles selected_tags [] ;;
  log INFO (LScraped (List.length data)) ;;
  ret data.

(** ** The row extractor and the tie-break, as the specification words them *)

(** [extract(document, containerTag, selected)]: the rows of the elements
    of one given container tag. *)
Definition extract (soup : node) (container_tag : pystr)
  (tag_info : list content_type) (selected_indices : list Z)
  : M (list pydict) :=
  selected_tags <- lift (selected_tags_of tag_info selected_indices) ;;
  data <- scrape_articles (find_all [container_tag] soup) selected_tags [] ;;
  log INFO (LScraped (List.length data)) ;;
  ret data.

(** A container tag qualifies on a page when some element of that tag
    holds a content tag. *)
Definition qualifies (soup : node) (tag : pystr) : bool :=
  existsb has_content (find_all [tag] soup).

(** The first tag of the whitelist, in its order, that qualifies. *)
Definition first_qualifying_tag (soup : node) : option pystr :=
  List.find (qualifies soup) container_tags.

(** What one selected field of one container holds. *)
Definition field_of (article : node) (tag : pystr) : pystr :=
  clean_text (option_map text (find tag article)).

(** The record of one container: the fields, written in selection order. *)
Definition row_of (selected_tags : list (pystr * pystr)) (article : node)
  : pydict :=
  fold_left (fun row tc => dict_set (snd tc) (field_of article (fst tc)) row)
            selected_tags [].

(** ** The table library *)

Module Pandas.

Definition cell_eqb (a b : option pystr) : bool :=
  match a, b with
  | None, None => true
  | Some x, Some y => Str.eqb x y
  | _, _ => false
  end.

Fixpoint row_eqb (r1 r2 : list (option pystr)) : bool :=
  match r1, r2 with
  | [], [] => true
  | a :: r1', b :: r2' => cell_eqb a b && row_eqb r1' r2'
  | _, _ => false
  end.

(** The labels of a list of records: every key, by first appearance. *)
Definition add_keys (cols : list pystr) (r : pydict) : list pystr :=
  fold_left (fun cs kv => if existsb (Str.eqb (fst kv)) cs then cs
                          else cs ++ [fst kv])
            r cols.

(** [pd.DataFrame(data)] for a list of records. *)
Definition DataFrame (data : list pydict) : dataframe :=
  let cols := fold_left add_keys data [] in
  {| columns := cols;
     cells := map (fun r => map (fun c => dict_get c r) cols) data |}.

(** The rows of [l] that equal none of [seen] nor an earlier row of [l]. *)
Fixpoint keep_first (seen l : list (list (option pystr)))
  : list (list (option pystr)) :=
  match l with
  | [] => []
  | r :: l' =>
      if existsb (row_eqb r) seen then keep_first seen l'
      else r :: keep_first (r :: seen) l'
  end.

(** [df.drop_duplicates()] *)
Definition drop_duplicates (df : dataframe) : dataframe :=
  {| columns := columns df; cells := keep_first [] (cells df) |}.

Definition map_cells (f : option pystr -> option pystr) (df : dataframe)
  : dataframe :=
  {| columns := columns df; cells := map (map f) (cells df) |}.

(** [df.replace(a, b)] *)
Definition replace (a b : pystr) : dataframe -> dataframe :=
  map_cells (fun c => match c with
                      | Some v => if Str.eqb v a then Some b else Some v
                      | None => None
                      end).

(** [df.fillna(v)] *)
Definition fillna (v : pystr) : dataframe -> dataframe :=
  map_cells (fun c => match c with
                      | Some x => Some x
                      | None => Some v
                      end).

End Pandas.

Section Program.

Context {B : Builtins}.

(** ** [present_options] *)

(** [[int(x) for x in choices.split(',') if x.strip()]]; [None] where
    [int] raises [ValueError]. *)
Fixpoint ints_of (pieces : list pystr) : option (list Z) :=
  match pieces with
  | [] => Some []
  | x :: rest =>
      match py_int x with
      | None => None
      | Some z => option_map (cons z) (ints_of rest)
      end
  end.

Definition parse_selection (choices : pystr) : option (list Z) :=
  ints_of (filter (fun x => truthy (Some (strip x))) (split_on 0x2C choices)).

(** [list(range(1, n + 1))] *)
Definition one_to (n : nat) : list Z := map Z.of_nat (seq 1 n).

(** The [while True] loop, over the lines standard input still holds; [n]
    is [len(tag_info)].  Returns the outcome, the lines left and the events.
    Reading at the end of input raises [EOFError]. *)
Fixpoint prompt_loop (n : nat) (lines : list pystr)
  : result (list Z) * list pystr * list event :=
  match lines with
  | [] => (Raise EOFError, [], [EInput])
  | choices :: rest =>
      if Str.eqb (str_lower choices) (str "all")
      then (Ret (one_to n), rest, [EInput])
      else
        match parse_selection choices with
        | Some selected =>
            if forallb (fun x => (1 <=? x) && (x <=? Z.of_nat n)) selected
            then (Ret selected, rest, [EInput])
            else
              let '(r, rest', evs) := prompt_loop n rest in
              (r, rest', EInput :: EPrint PInvalidSelection :: evs)
        | None =>
            let '(r, rest', evs) := prompt_loop n rest in
            (r, rest', EInput :: EPrint PInvalidNumbers :: evs)
        end
  end.

Definition prompt (n : nat) : M (list Z) :=
  fun w =>
    let '(r, rest, evs) := prompt_loop n (stdin w) in
    (r, {| www := www w; clock := clock w; stdin := rest;
           timer_max := timer_max w |}, evs).

(** The lines printed by [for i, info in enumerate(tag_info, 1)]. *)
Fixpoint option_lines (i : Z) (tag_info : list content_type)
  : list event :=
  match tag_info with
  | [] => []
  | info :: rest =>
      EPrint (POption i (ti_type info) (ti_count info) (ti_sample info))
      :: option_lines (i + 1) rest
  end.

Definition present_options (tag_info : list content_type) : M (list Z) :=
  match tag_info with
  | [] =>
      print PNoContentTypes ;;
      log ERROR LNoContentTypes ;;
      ret []
  | _ =>
      print PFound ;;
      (fun w => (Ret tt, w, option_lines 1 tag_info)) ;;
      prompt (List.length tag_info)
  end.

(** ** [get_next_page] *)

(** [lambda x: x and 'next' in x.lower()], as a truth value. *)
Definition next_in_class (x : option pystr) : bool :=
  match x with
  | None => false
  | Some [] => false
  | Some s => contains (str "next") (str_lower s)
  end.

(** [re.compile(r'next|page \d+', re.I)] *)
Definition next_re : Re.regex :=
  Re.Alt (Re.literal_i chr_lower (str "next"))
         (Re.Cat (Re.literal_i chr_lower (str "page "))
                 (Re.Plus (Re.Chr is_decimal))).

(** [a or b] on what [find] returns. *)
Definition or_node (a b : option node) : option node :=
  if truthy_node a then a else b.

(** Returns the next URL or [None]; raises what [urljoin] raises. *)
Definition get_next_page (soup : node) (base_url : pystr)
  : result (option pystr) :=
  let next_button :=
    or_node (find_class (str "a") next_in_class soup)
            (find_text (str "a") (Re.search next_re) soup) in
  match next_button with
  | Some button =>
      match lookup (str "href") (attrs_of button) with
      | Some href =>
          rbind (or_raise ValueError (urljoin base_url href))
                (fun next_url => Ret (Some next_url))
      | None => Ret None
      end
  | None => Ret None
  end.

(** ** [main] *)

(** The URL with a scheme put before it when it has none. *)
Definition with_scheme (url : pystr) : pystr :=
  if startswith (str "http://") url || startswith (str "https://") url
  then url
  else str "https://" ++ url.

(** The [for page_num in range(max_pages)] loop: [pages] holds the values
    of [page_num] still to come; returns [all_data]. *)
Fixpoint page_loop (base_url : pystr) (containers : list (pystr * node))
  (tag_info : list content_type) (selected_indices : list Z)
  (pages : list Z) (current_url : pystr) (all_data : list pydict)
  : M (list pydict) :=
  match pages with
  | [] => ret all_data
  | page_num :: rest =>
      log INFO (LScrapingPage (page_num + 1) current_url) ;;
      html <- fetch_page current_url 3 2 ;;
      match html with
      | None | Some [] => ret all_data
      | Some markup =>
          let soup := parse_html markup in
          page_data <- scrape_page soup containers tag_info selected_indices ;;
          let all_data := all_data ++ page_data in
          next <- lift (get_next_page soup base_url) ;;
          match next with
          | None | Some [] =>
              log INFO LNoMorePages ;;
              ret all_data
          | Some next_url =>
              sleep 1 ;;
              page_loop base_url containers tag_info selected_indices
                        rest next_url all_data
          end
      end
  end.

(** The lines after the loop. *)
Definition save (netloc : pystr) (all_data : list pydict) : M unit :=
  match all_data with
  | [] =>
      print PNoData ;;
      log WARNING LNoData
  | _ =>
      let df := Pandas.DataFrame all_data in
      let df := Pandas.fillna NA
                  (Pandas.replace [] NA (Pandas.drop_duplicates df)) in
      let output_file := replace_char 0x2E 0x5F netloc ++ str "_data.csv" in
      emit (ECsv output_file df) ;;
      log INFO (LSaved (List.length (cells df)) output_file) ;;
      print (PSaved (List.length (cells df)) output_file)
  end.

Definition main (url : pystr) (max_pages : Z) : M unit :=
  let url := with_scheme url in
  '(scheme, netloc) <- lift (or_raise ValueError (urlparse url)) ;;
  let base_url := scheme ++ str "://" ++ netloc in
  html <- fetch_page url 3 2 ;;
  match html with
  | None | Some [] => print PFetchFailed
  | Some markup =>
      let soup := parse_html markup in
      '(containers, tag_info) <- analyze_structure soup ;;
      match containers with
      | [] =>
          print PNoContainers ;;
          log ERROR LNoContainers
      | _ =>
          selected_indices <- present_options tag_info ;;
          match selected_indices with
          | [] => print PNoDataSelected
          | _ =>
              all_data <- page_loop base_url containers tag_info
                                    selected_indices (range max_pages)
                                    url [] ;;
              save netloc all_data
          end
      end
  end.

(** ** The orchestrator with the container tag fixed at page 1 *)

(** The page loop, extracting every page with the one tag it is given. *)
Fixpoint spec_page_loop (base_url container_tag : pystr)
  (tag_info : list content_type) (selected_indices : list Z)
  (pages : list Z) (current_url : pystr) (all_data : list pydict)
  : M (list pydict) :=
  match pages with
  | [] => ret all_data
  | page_num :: rest =>
      log INFO (LScrapingPage (page_num + 1) current_url) ;;
      html <- fetch_page current_url 3 2 ;;
      match html with
      | None | Some [] => ret all_data
      | Some markup =>
          let soup := parse_html markup in
          page_data <- extract soup container_tag tag_info selected_indices ;;
          let all_data := all_data ++ page_data in
          next <- lift (get_next_page soup base_url) ;;
          match next with
          | None | Some [] =>
              log INFO LNoMorePages ;;
              ret all_data
          | Some next_url =>
              sleep 1 ;;
              spec_page_loop base_url container_tag tag_info
                             selected_indices rest next_url all_data
          end
      end
  end.

(** The run: the tag is the first qualifying tag of page 1, chosen once,
    before the loop. *)
Definition spec_main (url : pystr) (max_pages : Z) : M unit :=
  let url := with_scheme url in
  '(scheme, netloc) <- lift (or_raise ValueError (urlparse url)) ;;
  let base_url := scheme ++ str "://" ++ netloc in
  html <- fetch_page url 3 2 ;;
  match html with
  | None | Some [] => print PFetchFailed
  | Some markup =>
      let soup := parse_html markup in
      let tag_info := tag_info_of soup in
      log INFO (LDetected (List.length tag_info) (map ti_type tag_info)) ;;
      match first_qualifying_tag soup with
      | None =>
          print PNoContainers ;;
          log ERROR LNoContainers
      | Some container_tag =>
          selected_indices <- present_options tag_info ;;
          match selected_indices with
          | [] => print PNoDataSelected
          | _ =>
              all_data <- spec_page_loop base_url container_tag tag_info
                                         selected_indices (range max_pages)
                                         url [] ;;
              save netloc all_data
          end
      end
  end.

End Program.

(** ** The pagination heuristics, as the specification words them *)

Section Pagination.

Context {B : Builtins}.







End Pagination.

(** ** Reading the table written *)

(** A cell that is neither absent nor blank. *)
Definition filled (c : option pystr) : Prop :=
  exists v, c = Some v /\ v <> [].

(** What [replace('', 'N/A')] followed by [fillna('N/A')] makes of a cell. *)
Definition normalize_cell (c : option pystr) : option pystr :=
  match c with
  | None | Some [] => Some NA
  | Some v => Some v
  end.

(** A record the row extractor builds under a selection. *)
Definition built_from (tag_info : list content_type) (sel : list Z)
  (r : pydict) : Prop :=
  exists tags article,
    selected_tags_of tag_info sel = Ret tags /\ r = row_of tags article.

(** The table [save] writes for rows built under one selection: the table
    of the rows, each kept once. *)
Definition deduplicated (data : list pydict) : dataframe :=
  {| columns := columns (Pandas.DataFrame data);
     cells := Pandas.keep_first [] (cells (Pandas.DataFrame data)) |}.

(** ** Reading a run's events *)

(** The URLs of the HTTP requests made, in order. *)
Definition requests_in (events : list event) : list pystr :=
  flat_map (fun e => match e with EGet url => [url] | _ => [] end) events.

(** The URLs the page loop set out to fetch, in order: one log line
    [Scraping page k: url] opens each iteration. *)
Definition pages_in (events : list event) : list pystr :=
  flat_map (fun e => match e with
                     | ELog INFO (LScrapingPage _ url) => [url]
                     | _ => []
                     end) events.

(** The tables written. *)
Definition tables_in (events : list event) : list dataframe :=
  flat_map (fun e => match e with ECsv _ df => [df] | _ => [] end) events.

(** An event that is neither the opening line of a loop iteration nor a
    written table. *)
Definition plain (e : event) : Prop :=
  match e with
  | ECsv _ _ => False
  | ELog _ (LScrapingPage _ _) => False
  | _ => True
  end.

(** A comma or white space. *)
Definition separator (c : N) : bool := isspace c || N.eqb c 0x2C.

(** The world with other lines waiting on standard input. *)
Definition with_stdin (lines : list pystr) (w : world) : world :=
  {| www := www w; clock := clock w; stdin := lines;
     timer_max := timer_max w |}.

(** The world after [n] more requests. *)
Definition tick (n : nat) (w : world) : world :=
  {| www := www w; clock := (n + clock w)%nat; stdin := stdin w;
     timer_max := timer_max w |}.

(** ** Sample inputs *)

(** An instance of [Builtins] to run the program on ASCII samples. *)
Module Sample.

Definition lower_char (c : N) : N :=
  if (0x41 <=? c)%N && (c <=? 0x5A)%N then (c + 0x20)%N else c.

Definition lower (s : pystr) : pystr := map lower_char s.

Definition digit (c : N) : bool := (0x30 <=? c)%N && (c <=? 0x39)%N.

Fixpoint digits_value (acc : Z) (s : pystr) : option Z :=
  match s with
  | [] => Some acc
  | c :: s' =>
      if digit c then digits_value (10 * acc + Z.of_N (c - 0x30)) s'
      else None
  end.

Definition int_of (s : pystr) : option Z :=
  match strip s with
  | [] => None
  | c :: ds =>
      if (c =? 0x2D)%N
      then match ds with
           | [] => None
           | _ => option_map Z.opp (digits_value 0 ds)
           end
      else digits_value 0 (c :: ds)
  end.

(** A bracket that is opened and not closed, or closed and not opened:
    what the sample functions refuse, in the host of the URL to parse and
    in the URL to join. *)
Definition unbalanced (s : pystr) : bool :=
  xorb (existsb (N.eqb 0x5B) s) (existsb (N.eqb 0x5D) s).

Definition join_url (base url : pystr) : option pystr :=
  if unbalanced url then None
  else if startswith (str "http://") url || startswith (str "https://") url
  then Some url
  else if startswith (str "/") url then Some (base ++ url)
       else Some (base ++ str "/" ++ url).

(** [s] up to the first occurrence of [sep], and what follows it. *)
Fixpoint cut (sep s : pystr) : pystr * pystr :=
  match s with
  | [] => ([], [])
  | c :: s' =>
      if startswith sep s then ([], skipn (List.length sep) s)
      else let (a, b) := cut sep s' in (c :: a, b)
  end.

Definition parse_url (url : pystr) : option (pystr * pystr) :=
  let (scheme, rest) := cut (str "://") url in
  let netloc := fst (cut (str "/") rest) in
  if unbalanced netloc then None else Some (scheme, netloc).

Definition builtins (parse : pystr -> node) : Builtins.
Proof.
  refine {| str_lower := lower;
            chr_lower := lower_char;
            is_decimal := digit;
            py_int := int_of;
            urljoin := join_url;
            urlparse := parse_url;
            parse_html := parse;
            str_lower_uncased := _ |}.
  induction s as [|c s IH]; intro H; [reflexivity|].
  simpl in H. apply andb_true_iff in H. destruct H as [Hc Hs].
  simpl. rewrite (IH Hs). f_equal. unfold lower_char.
  destruct ((0x41 <=? c)%N && (c <=? 0x5A)%N) eqn:E; [|reflexivity].
  exfalso. apply andb_true_iff in E. destruct E as [E1 E2].
  apply N.leb_le in E1. apply N.leb_le in E2.
  assert (Hk : exists k, (k < 26)%nat /\ c = (0x41 + N.of_nat k)%N).
  { exists (N.to_nat (c - 0x41)). split; lia. }
  destruct Hk as [k [Hk Ek]]. subst c.
  do 26 (destruct k as [|k]; [discriminate Hc|]). lia.
Defined.

End Sample.


Definition demo_world : world :=
  {| www := fun _ _ => HttpRequestException; clock := 0; stdin := [];
     timer_max := 0 |}.

(** Two articles; the second has no paragraph. *)
Definition demo_listing : node :=
  Tag (str "[document]") []
    [Tag (str "article") []
       [Tag (str "h2") [] [Text (str "First")];
        Tag (str "p") [] [Text (str "Body")]];
     Tag (str "article") []
       [Tag (str "h2") [] [Text (str "Second")]]].

Definition page_with (links : list node) : node :=
  Tag (str "[document]") [] [Tag (str "div") [] links].

Definition anchor (attrs : list (pystr * pystr)) (label : string) : node :=
  Tag (str "a") attrs [Text (str label)].

Definition B0 := Sample.builtins (fun _ => Text []).



Definition B1 : Builtins := Sample.builtins (fun _ => demo_listing).

(** Every request is answered; one line of input: [" , ,"]. *)
Definition blank_world : world :=
  {| www := fun _ _ => HttpOk (str "<html>");
     clock := 0;
     stdin := [str " , ,"];
     timer_max := 0 |}.

(** A listing page with a link to a next page. *)
Definition paged_listing : node :=
  Tag (str "[document]") []
    [Tag (str "article") []
       [Tag (str "h2") [] [Text (str "Title")];
        Tag (str "p") [] [Text (str "Body")]];
     Tag (str "a") [(str "class", str "next"); (str "href", str "/page/2")]
       [Text (str "older")]].

Definition B2 : Builtins := Sample.builtins (fun _ => paged_listing).

(** Every request is answered; the operator types "ALL". *)
Definition paged_world : world :=
  {| www := fun _ _ => HttpOk (str "<html>");
     clock := 0;
     stdin := [str "ALL"];
     timer_max := 0 |}.

(** Two equal articles, a third without a paragraph, and a next link. *)
Definition repeated_listing : node :=
  Tag (str "[document]") []
    [Tag (str "article") []
       [Tag (str "h2") [] [Text (str "Same")];
        Tag (str "p") [] [Text (str "  Body
  text ")]];
     Tag (str "article") []
       [Tag (str "h2") [] [Text (str "Same")];
        Tag (str "p") [] [Text (str "Body text")]];
     Tag (str "article") []
       [Tag (str "h2") [] [Text (str "Other")]];
     Tag (str "a") [(str "class", str "next"); (str "href", str "/page/2")]
       [Text (str "older")]].

Definition B3 : Builtins := Sample.builtins (fun _ => repeated_listing).

Definition repeated_rows : list pydict :=
  map (row_of [(str "h2", str "H2"); (str "p", str "P")])
      (find_all [str "article"] repeated_listing).

(** ** Further readings of a run's events *)

(** The pauses taken, in order. *)
Definition sleeps_in (events : list event) : list Z :=
  flat_map (fun e => match e with ESleep secs => [secs] | _ => [] end) events.

(** The number of lines read from standard input. *)
Definition inputs_in (events : list event) : nat :=
  List.length (filter (fun e => match e with EInput => true | _ => false end)
                      events).

(** The console lines printed, in order. *)
Definition prints_in (events : list event) : list console_msg :=
  flat_map (fun e => match e with EPrint m => [m] | _ => [] end) events.

(** The number of complaints of the selection prompt. *)
Definition complaints_in (events : list event) : nat :=
  List.length (filter (fun e => match e with
                                | EPrint PInvalidSelection => true
                                | EPrint PInvalidNumbers => true
                                | _ => false
                                end) events).

(** An event of the console: a line read or a line printed. *)
Definition console_event (e : event) : Prop :=
  e = EInput \/ exists m, e = EPrint m.

(** An event of the network and the log: no line read, no line printed,
    no table written. *)
Definition background_event (e : event) : Prop :=
  match e with
  | EGet _ | ESleep _ | ELog _ _ => True
  | _ => False
  end.

(** A complaint of the selection prompt. *)
Definition complaint (m : console_msg) : Prop :=
  m = PInvalidSelection \/ m = PInvalidNumbers.

(** The last console line of a run that reached the prompt, if any. *)
Definition closing_line (l : list console_msg) : Prop :=
  l = [] \/ l = [PNoDataSelected] \/ l = [PNoData]
  \/ exists n file, l = [PSaved n file].

(** The strings a regular expression matches in full. *)
Inductive matches : Re.regex -> pystr -> Prop :=
| MEps : matches Re.Eps []
| MChr : forall p c, p c = true -> matches (Re.Chr p) [c]
| MCat : forall r1 r2 s1 s2,
    matches r1 s1 -> matches r2 s2 -> matches (Re.Cat r1 r2) (s1 ++ s2)
| MAltL : forall r1 r2 s, matches r1 s -> matches (Re.Alt r1 r2) s
| MAltR : forall r1 r2 s, matches r2 s -> matches (Re.Alt r1 r2) s
| MStarNil : forall r, matches (Re.Star r) []
| MStarApp : forall r s1 s2,
    matches r s1 -> matches (Re.Star r) s2 -> matches (Re.Star r) (s1 ++ s2).

(** [m] reads "next" in any letter case, or "page ", in any letter case,
    followed by one or more decimal digits. *)
Definition next_wording {B : Builtins} (m : pystr) : Prop :=
  map chr_lower m = map chr_lower (str "next") \/
  exists word digits,
    m = word ++ digits /\
    map chr_lower word = map chr_lower (str "page ") /\
    digits <> [] /\ forallb is_decimal digits = true.

(** The labels of selected tags, each once, in the order of their first
    selection. *)
Definition add_label (labels : list pystr) (label : pystr) : list pystr :=
  if existsb (Str.eqb label) labels then labels else labels ++ [label].

Definition labels_of (selected_tags : list (pystr * pystr)) : list pystr :=
  fold_left add_label (map snd selected_tags) [].

(** The strings that make the text of a heading, a paragraph or a
    [<time>]: the strings below it that are ordinary text or CDATA, in
    document order.  Comments, declarations, scripts, style sheets,
    templates and ruby annotations are no part of it. *)
Definition visible (d : node) : list pystr :=
  match d with
  | Str NavigableString s | Str CData s => [s]
  | _ => []
  end.

Definition visible_strings (n : node) : list pystr :=
  flat_map visible (descendants n).

(** The entry [analyze_structure] makes for a content tag with elements. *)
Definition entry_of (soup : node) (tag : pystr) : list content_type :=
  match find_all [tag] soup with
  | [] => []
  | first :: _ =>
      [ {| ti_type := upper_ascii tag;
           ti_tag := tag;
           ti_count := List.length (find_all [tag] soup);
           ti_sample := firstn 50 (clean_text (Some (text first))) |} ]
  end.

Section RunParts.

Context {B : Builtins}.

(** The file [save] writes for a host. *)
Definition written_file (netloc : pystr) : pystr :=
  replace_char 0x2E 0x5F netloc ++ str "_data.csv".

(** The base URL and the host of a run, for a URL that parses. *)
Definition base_of (url : pystr) : pystr :=
  match urlparse (with_scheme url) with
  | Some (scheme, netloc) => scheme ++ str "://" ++ netloc
  | None => []
  end.

Definition netloc_of (url : pystr) : pystr :=
  match urlparse (with_scheme url) with
  | Some (_, netloc) => netloc
  | None => []
  end.

(** The line that reports the content types of a page. *)
Definition detected (soup : node) : event :=
  ELog INFO (LDetected (List.length (tag_info_of soup))
                       (map ti_type (tag_info_of soup))).

End RunParts.

(** * Further sample inputs *)

(** The first request fails, the second is answered. *)
Definition flaky_world : world :=
  {| www := fun k _ => match k with
                       | O => HttpRequestException
                       | _ => HttpOk (str "<html>")
                       end;
     clock := 0;
     stdin := [];
     timer_max := 0 |}.

(** The first request meets an error that is no [RequestException]. *)
Definition broken_world : world :=
  {| www := fun _ _ => HttpOtherError; clock := 0; stdin := [];
     timer_max := 0 |}.

(** A page of links and headings-free text. *)
Definition bare_page : node :=
  Tag (str "[document]") []
    [Tag (str "div") [] [Tag (str "span") [] [Text (str "x")]];
     Tag (str "a") [(str "href", str "/next")] [Text (str "next")]].

(** A parser that reads every body as [bare_page]. *)
Definition B4 : Builtins := Sample.builtins (fun _ => bare_page).

(** Two refused lines, then a selection. *)
Definition picky_world : world :=
  {| www := fun _ _ => HttpOk (str "<html>");
     clock := 0;
     stdin := [str "9"; str "x"; str "2, 1"; str "left"];
     timer_max := 0 |}.

(** One refused line and nothing after it. *)
Definition short_world : world :=
  {| www := fun _ _ => HttpOk (str "<html>");
     clock := 0;
     stdin := [str "0"];
     timer_max := 0 |}.

(** Every request is answered with an empty body. *)
Definition empty_world : world :=
  {| www := fun _ _ => HttpOk []; clock := 0; stdin := [];
     timer_max := 0 |}.

(** A listing whose next link has a target the URL library refuses. *)
Definition refused_listing : node :=
  Tag (str "[document]") []
    [Tag (str "article") []
       [Tag (str "h2") [] [Text (str "Title")]];
     Tag (str "a") [(str "class", str "next"); (str "href", str "//[")]
       [Text (str "older")]].

Definition B5 : Builtins := Sample.builtins (fun _ => refused_listing).

(** * Properties *)

(** ** Strings and [clean_text] *)

Lemma str_eqb_eq : forall a b, Str.eqb a b = true <-> a = b.
Proof.
  induction a as [|x a IH]; destruct b as [|y b]; simpl; split; intro H;
    try congruence; try reflexivity.
  - apply andb_true_iff in H. destruct H as [H1 H2].
    apply N.eqb_eq in H1. apply IH in H2. congruence.
  - inversion H; subst. rewrite N.eqb_refl. simpl. apply IH. reflexivity.
Qed.

Lemma str_eqb_refl : forall a, Str.eqb a a = true.
Proof. intro a. apply str_eqb_eq. reflexivity. Qed.

Lemma str_eqb_neq : forall a b, Str.eqb a b = false <-> a <> b.
Proof.
  intros a b. split; intro H.
  - intro E. apply str_eqb_eq in E. congruence.
  - destruct (Str.eqb a b) eqn:E; [apply str_eqb_eq in E; contradiction | reflexivity].
Qed.

Lemma join_cons : forall w ws, join (str " ") (w :: ws) = w ++ spaced ws.
Proof.
  intros w ws. revert w. induction ws as [|x ws IH]; intro w.
  - simpl. rewrite app_nil_r. reflexivity.
  - change (join (str " ") (w :: x :: ws)) with (w ++ str " " ++ join (str " ") (x :: ws)).
    rewrite IH. reflexivity.
Qed.

Lemma dropwhile_snoc : forall p l c,
  dropwhile p (l ++ [c]) =
  if forallb p l then (if p c then [] else [c]) else dropwhile p l ++ [c].
Proof.
  induction l as [|x l IH]; intro c; simpl.
  - destruct (p c); reflexivity.
  - destruct (p x); simpl; [apply IH | reflexivity].
Qed.

Lemma dropwhile_nil_iff : forall p l, dropwhile p l = [] <-> forallb p l = true.
Proof.
  induction l as [|x l IH]; simpl.
  - tauto.
  - destruct (p x); simpl; [exact IH | split; discriminate].
Qed.

Lemma rstrip_cons : forall c s,
  rstrip (c :: s) =
  match rstrip s with
  | [] => if isspace c then [] else [c]
  | r => c :: r
  end.
Proof.
  intros c s. unfold rstrip. simpl rev. rewrite dropwhile_snoc.
  destruct (forallb isspace (rev s)) eqn:E.
  - apply dropwhile_nil_iff in E. rewrite E. simpl. destruct (isspace c); reflexivity.
  - rewrite rev_app_distr. simpl.
    destruct (rev (dropwhile isspace (rev s))) eqn:R; [|reflexivity].
    apply (f_equal (@rev N)) in R. rewrite rev_involutive in R. simpl in R.
    apply dropwhile_nil_iff in R. congruence.
Qed.

Lemma sub_ws_from_char : forall b c r,
  isspace c = false -> sub_ws_from b (c :: r) = c :: sub_ws_from false r.
Proof. intros b c r H. simpl. rewrite H. reflexivity. Qed.

Lemma sub_ws_from_space : forall b c r,
  isspace c = true ->
  sub_ws_from b (c :: r) =
  if b then sub_ws_from true r else 0x20%N :: sub_ws_from true r.
Proof. intros b c r H. simpl. rewrite H. reflexivity. Qed.

Lemma scan_words_rstrip : forall s,
  let (w, ws) := scan_words s in
  (rstrip s = [] <-> w = [] /\ ws = []) /\
  sub_ws_from false (rstrip s) = w ++ spaced ws /\
  sub_ws_from true (rstrip s) =
    match w with [] => join (str " ") ws | _ => w ++ spaced ws end.
Proof.
  induction s as [|c s IH].
  - simpl. repeat split; reflexivity.
  - simpl scan_words. destruct (scan_words s) as [w ws].
    destruct IH as [Hnil [Hf Ht]]. rewrite rstrip_cons.
    destruct (isspace c) eqn:Ec.
    + destruct (rstrip s) as [|r0 r] eqn:Er.
      * destruct (proj1 Hnil eq_refl) as [-> ->]. simpl.
        repeat split; reflexivity.
      * assert (Hne : ~ (w = [] /\ ws = [])).
        { intro H. apply Hnil in H. discriminate. }
        split; [|split].
        -- split; [discriminate|]. intros [_ H].
           destruct w; simpl in H; [tauto | discriminate].
        -- rewrite sub_ws_from_space by exact Ec.
           rewrite Ht. destruct w as [|x w]; simpl.
           ++ destruct ws as [|y ws]; [tauto|]. rewrite join_cons. reflexivity.
           ++ reflexivity.
        -- rewrite sub_ws_from_space by exact Ec.
           rewrite Ht. destruct w as [|x w]; simpl push_word.
           ++ reflexivity.
           ++ rewrite join_cons. reflexivity.
    + destruct (rstrip s) as [|r0 r] eqn:Er;
        (split; [|split];
         [ split; [discriminate | intros [H _]; discriminate]
         | rewrite sub_ws_from_char by exact Ec; rewrite Hf; reflexivity
         | rewrite sub_ws_from_char by exact Ec; rewrite Hf; reflexivity ]).
Qed.

Lemma scan_words_lstrip : forall s, words (lstrip s) = words s.
Proof.
  unfold words, lstrip. induction s as [|c s IH]; [reflexivity|].
  simpl. destruct (isspace c) eqn:Ec.
  - rewrite IH. destruct (scan_words s) as [w ws]. reflexivity.
  - simpl. rewrite Ec. reflexivity.
Qed.

Lemma lstrip_head : forall s,
  match lstrip s with
  | [] => True
  | c :: _ => isspace c = false
  end.
Proof.
  unfold lstrip. induction s as [|c s IH]; simpl; [exact I|].
  destruct (isspace c) eqn:Ec; [exact IH | simpl; exact Ec].
Qed.

(** [clean_text] before the sentinel: the words of the input, one space
    between them. *)
Lemma sub_ws_strip : forall s, sub_ws (strip s) = join (str " ") (words s).
Proof.
  intro s. rewrite <- scan_words_lstrip. unfold strip, sub_ws.
  pose proof (lstrip_head s) as Hh.
  pose proof (scan_words_rstrip (lstrip s)) as Hs.
  unfold words. destruct (lstrip s) as [|c t].
  - reflexivity.
  - simpl scan_words in *. rewrite Hh in *.
    destruct (scan_words t) as [w ws]. destruct Hs as [_ [Hf _]].
    rewrite Hf. simpl push_word. rewrite join_cons. reflexivity.
Qed.

Lemma scan_words_wf : forall s,
  let (w, ws) := scan_words s in
  forallb (fun c => negb (isspace c)) w = true /\ Forall is_word ws.
Proof.
  induction s as [|c s IH]; simpl.
  - split; [reflexivity | constructor].
  - destruct (scan_words s) as [w ws]. destruct IH as [Hw Hws].
    destruct (isspace c) eqn:Ec.
    + split; [reflexivity|]. destruct w; simpl; [exact Hws|].
      constructor; [split; [discriminate | exact Hw] | exact Hws].
    + split; [simpl; rewrite Ec; exact Hw | exact Hws].
Qed.

Lemma words_wf : forall s, Forall is_word (words s).
Proof.
  intro s. unfold words. pose proof (scan_words_wf s) as H.
  destruct (scan_words s) as [w ws]. destruct H as [Hw Hws].
  destruct w; simpl; [exact Hws|].
  constructor; [split; [discriminate | exact Hw] | exact Hws].
Qed.

Lemma words_nil_iff : forall s, words s = [] <-> forallb isspace s = true.
Proof.
  intro s. unfold words.
  assert (H : let (w, ws) := scan_words s in
              (w = [] /\ ws = [] <-> forallb isspace s = true)).
  { induction s as [|c s IH]; simpl.
    - tauto.
    - destruct (scan_words s) as [w ws].
      destruct (isspace c) eqn:Ec; simpl.
      + rewrite <- IH. destruct w; simpl; split; intros [H1 H2];
          try discriminate; auto.
      + split; [intros [H _]; discriminate | discriminate]. }
  destruct (scan_words s) as [w ws].
  rewrite <- H. destruct w; simpl; split; try tauto; try discriminate.
  intros [H1 _]. discriminate.
Qed.

Lemma isspace_space : isspace 0x20 = true.
Proof. reflexivity. Qed.

Lemma scan_words_app_word : forall w rest,
  forallb (fun c => negb (isspace c)) w = true ->
  scan_words (w ++ rest) = let (w', ws') := scan_words rest in (w ++ w', ws').
Proof.
  induction w as [|c w IH]; intros rest H; simpl.
  - destruct (scan_words rest); reflexivity.
  - simpl in H. apply andb_true_iff in H. destruct H as [Hc Hw].
    rewrite (IH rest Hw). destruct (scan_words rest) as [w' ws'].
    apply negb_true_iff in Hc. rewrite Hc. reflexivity.
Qed.

Lemma scan_words_spaced : forall ws,
  Forall is_word ws -> scan_words (spaced ws) = ([], ws).
Proof.
  induction 1 as [|w ws [Hne Hw] _ IH]; [reflexivity|].
  change (spaced (w :: ws)) with (0x20%N :: (w ++ spaced ws)).
  simpl scan_words. rewrite (scan_words_app_word _ _ Hw), IH.
  rewrite app_nil_r. destruct w; [congruence | reflexivity].
Qed.

Lemma words_join : forall ws,
  Forall is_word ws -> words (join (str " ") ws) = ws.
Proof.
  intros ws H. destruct H as [|w ws [Hne Hw] Hws]; [reflexivity|].
  rewrite join_cons. unfold words.
  rewrite (scan_words_app_word _ _ Hw), (scan_words_spaced _ Hws), app_nil_r.
  destruct w; [congruence | reflexivity].
Qed.

Lemma collapsed_from_word : forall w rest b,
  w <> [] -> forallb (fun c => negb (isspace c)) w = true ->
  collapsed_from b (w ++ rest) = collapsed_from true rest.
Proof.
  induction w as [|c w IH]; intros rest b Hne H; [congruence|].
  simpl in H. apply andb_true_iff in H. destruct H as [Hc Hw].
  apply negb_true_iff in Hc. simpl. rewrite Hc.
  destruct w as [|d w]; [reflexivity|]. apply IH; [discriminate | exact Hw].
Qed.

Lemma collapsed_spaced : forall ws,
  Forall is_word ws -> collapsed_from true (spaced ws) = true.
Proof.
  induction 1 as [|w ws [Hne Hw] _ IH]; [reflexivity|].
  change (spaced (w :: ws)) with (0x20%N :: (w ++ spaced ws)).
  change (collapsed_from true (0x20%N :: (w ++ spaced ws)))
    with (true && true
          && match w ++ spaced ws with
             | [] => false
             | d :: _ => negb (isspace d)
             end
          && collapsed_from false (w ++ spaced ws)).
  rewrite (collapsed_from_word _ _ _ Hne Hw), IH.
  destruct w as [|d w]; [congruence|]. simpl in Hw.
  apply andb_true_iff in Hw. destruct Hw as [Hd _]. simpl. rewrite Hd.
  reflexivity.
Qed.

Lemma collapsed_join : forall ws,
  Forall is_word ws -> collapsed (join (str " ") ws) = true.
Proof.
  intros ws H. destruct H as [|w ws [Hne Hw] Hws]; [reflexivity|].
  rewrite join_cons. unfold collapsed.
  rewrite (collapsed_from_word _ _ _ Hne Hw). apply collapsed_spaced, Hws.
Qed.

Lemma join_nil_iff : forall ws,
  Forall is_word ws -> (join (str " ") ws = [] <-> ws = []).
Proof.
  intros ws H. destruct H as [|w ws [Hne Hw] Hws]; [tauto|].
  rewrite join_cons. split; [|discriminate].
  intro E. destruct w; [congruence | discriminate].
Qed.

Lemma clean_text_some : forall s,
  clean_text (Some s) =
  match join (str " ") (words s) with
  | [] => NA
  | t => t
  end.
Proof.
  intro s. unfold clean_text. rewrite sub_ws_strip.
  destruct s; reflexivity.
Qed.

(** C2.  [clean_text] never returns the empty string; a missing, empty or
    all-white-space input gives the sentinel; any other input gives its
    words with one space between them: every white-space character of the
    result is a single space between two other characters, and the words
    are those of the input. *)
Theorem clean_text_collapses : forall text : option pystr,
  clean_text text <> [] /\
  match text with
  | None => clean_text text = NA
  | Some s =>
      if forallb isspace s
      then clean_text text = NA
      else clean_text text = join (str " ") (words s)
           /\ collapsed (clean_text text) = true
           /\ words (clean_text text) = words s
  end.
Proof.
  intros [s|]; [|split; [discriminate | reflexivity]].
  rewrite clean_text_some. pose proof (words_wf s) as Hwf.
  destruct (forallb isspace s) eqn:Es.
  - apply words_nil_iff in Es. rewrite Es. split; [discriminate | reflexivity].
  - assert (Hne : join (str " ") (words s) <> []).
    { intro E. apply (join_nil_iff _ Hwf) in E. apply words_nil_iff in E.
      congruence. }
    destruct (join (str " ") (words s)) as [|c t] eqn:Ej; [congruence|].
    split; [discriminate|]. rewrite <- Ej. split; [reflexivity|].
    split; [apply collapsed_join, Hwf | apply words_join, Hwf].
Qed.

(** ** Documents *)

(** Induction over a document, with the property known of every child. *)
Lemma node_forall_ind (P : node -> Prop) :
  (forall cls s, P (Str cls s)) ->
  (forall nm a cs, Forall P cs -> P (Tag nm a cs)) ->
  forall n, P n.
Proof.
  intros HStr HTag. fix IH 1. intros [cls s|nm a cs].
  - apply HStr.
  - apply HTag. induction cs as [|c cs IHcs]; constructor.
    + apply IH.
    + exact IHcs.
Qed.

(** The text of a heading leaves out the script and the comment below
    it; the text of the script itself is its source. *)
Example text_leaves_out_scripts :
  text (Tag (str "h1") []
          [Text (str "Hi");
           Tag (str "script") [] [Str Script (str "var x")];
           Str Comment (str "note");
           Str CData (str "!")])
  = str "Hi!" /\
  text (Tag (str "script") [] [Str Script (str "var x")]) = str "var x" /\
  node_string (Tag (str "h1") [] [Str Comment (str "note")])
  = Some (str "note").
Proof. repeat split; reflexivity. Qed.

Lemma descendants_tag : forall nm a cs d,
  In d (descendants (Tag nm a cs)) <->
  exists c, In c cs /\ (d = c \/ In d (descendants c)).
Proof.
  intros nm a cs d. simpl. rewrite in_flat_map. split.
  - intros [c [Hc [E|Hd]]]; exists c; auto.
  - intros [c [Hc [E|Hd]]]; exists c; simpl; auto.
Qed.

(** What lies below a descendant lies below the node. *)
Lemma descendants_trans : forall n e d,
  In e (descendants n) -> In d (descendants e) -> In d (descendants n).
Proof.
  induction n as [s|nm a cs IH] using node_forall_ind; intros e d He Hd.
  - destruct He.
  - apply descendants_tag in He. destruct He as [c [Hc [E|He]]].
    + subst e. apply descendants_tag. exists c. auto.
    + apply descendants_tag. exists c. split; [exact Hc|]. right.
      rewrite Forall_forall in IH. exact (IH c Hc e d He Hd).
Qed.

Lemma find_all_descendant : forall names n e,
  In e (find_all names n) <-> In e (descendants n) /\ is_tag names e = true.
Proof. intros. unfold find_all. apply filter_In. Qed.

Lemma is_tag_one : forall names e,
  is_tag names e = true ->
  exists t, In t names /\ is_tag [t] e = true.
Proof.
  intros names [s|nm a cs] H; simpl in H; [discriminate|].
  apply existsb_exists in H. destruct H as [t [Ht E]].
  exists t. split; [exact Ht|]. simpl. rewrite E. reflexivity.
Qed.

(** ** [analyze_structure] *)

Lemma has_content_spec : forall e,
  has_content e = true <-> find_all content_tags e <> [].
Proof.
  intro e. unfold has_content. destruct (find_all content_tags e); simpl.
  - split; [discriminate | congruence].
  - split; [discriminate | reflexivity].
Qed.

Lemma containers_of_In : forall soup tag e,
  In (tag, e) (containers_of soup) <->
  In tag container_tags /\ In e (find_all [tag] soup) /\ has_content e = true.
Proof.
  intros soup tag e. unfold containers_of. rewrite in_flat_map. split.
  - intros [t [Ht H]]. apply in_flat_map in H. destruct H as [x [Hx H]].
    destruct (has_content x) eqn:E; [|destruct H].
    destruct H as [H|[]]. inversion H; subst. auto.
  - intros [Ht [He Hc]]. exists tag. split; [exact Ht|].
    apply in_flat_map. exists e. split; [exact He|]. rewrite Hc. left.
    reflexivity.
Qed.

Lemma tag_info_of_found : forall soup t,
  In t content_tags -> find_all [t] soup <> [] ->
  exists info, In info (tag_info_of soup) /\ ti_tag info = t.
Proof.
  intros soup t Ht Hne. unfold tag_info_of.
  destruct (find_all [t] soup) as [|first elements] eqn:E; [congruence|].
  eexists. split.
  - apply filter_In. split.
    + apply in_flat_map. exists t. split; [exact Ht|]. rewrite E. left.
      reflexivity.
    + reflexivity.
  - reflexivity.
Qed.

(** The content tag found below a container is found by the scan of the
    whole document. *)
Lemma containers_need_content_types : forall soup,
  containers_of soup <> [] -> tag_info_of soup <> [].
Proof.
  intros soup H.
  destruct (containers_of soup) as [|[tag e] rest] eqn:E; [congruence|].
  assert (Hin : In (tag, e) (containers_of soup)) by (rewrite E; left; reflexivity).
  apply containers_of_In in Hin. destruct Hin as [_ [He Hc]].
  apply has_content_spec in Hc.
  destruct (find_all content_tags e) as [|d ds] eqn:Ed; [congruence|].
  assert (Hd : In d (find_all content_tags e)) by (rewrite Ed; left; reflexivity).
  apply find_all_descendant in Hd. destruct Hd as [Hd Htag].
  apply find_all_descendant in He. destruct He as [He _].
  destruct (is_tag_one _ _ Htag) as [t [Ht Hone]].
  destruct (tag_info_of_found soup t Ht) as [info [Hinfo _]].
  - intro Hnil.
    assert (Hx : In d (find_all [t] soup)).
    { apply find_all_descendant. split; [|exact Hone].
      exact (descendants_trans soup e d He Hd). }
    rewrite Hnil in Hx. destruct Hx.
  - intro Hnil. rewrite Hnil in Hinfo. destruct Hinfo.
Qed.

(** C9.  When [analyze_structure] returns a container list that is not
    empty, the content-type list it returns is not empty either. *)
Theorem containers_imply_content_types :
  forall soup w containers tag_info w' events,
    analyze_structure soup w = (Ret (containers, tag_info), w', events) ->
    containers <> [] -> tag_info <> [].
Proof.
  intros soup w containers tag_info w' events H Hne.
  unfold analyze_structure, bind, log, emit, ret in H. inversion H; subst.
  exact (containers_need_content_types soup Hne).
Qed.

Lemma containers_witness_doc :
  containers_of demo_listing <> [] /\ tag_info_of demo_listing <> [].
Proof.
  assert (H : containers_of demo_listing <> [])
    by (vm_compute; discriminate).
  split; [exact H|].
  exact (containers_imply_content_types demo_listing demo_world
           (containers_of demo_listing) (tag_info_of demo_listing)
           demo_world _ eq_refl H).
Defined.

(** ** The tie-break *)

Lemma qualifies_spec : forall soup tag,
  flat_map (fun element => if has_content element then [(tag, element)] else [])
           (find_all [tag] soup) = [] <->
  qualifies soup tag = false.
Proof.
  intros soup tag. unfold qualifies.
  induction (find_all [tag] soup) as [|e l IH]; simpl.
  - tauto.
  - destruct (has_content e); simpl; [split; discriminate | exact IH].
Qed.

Lemma qualifying_head : forall soup tag x l,
  flat_map (fun element => if has_content element then [(tag, element)] else [])
           (find_all [tag] soup) = x :: l ->
  fst x = tag.
Proof.
  intros soup tag x l. induction (find_all [tag] soup) as [|e es IH]; simpl.
  - discriminate.
  - destruct (has_content e); simpl; [|exact IH].
    intro H. inversion H. reflexivity.
Qed.

(** The head of [containers] carries the first qualifying tag; the list is
    empty exactly when no tag qualifies. *)
Lemma containers_head : forall soup,
  match containers_of soup with
  | [] => first_qualifying_tag soup = None
  | (tag, _) :: _ => first_qualifying_tag soup = Some tag
  end.
Proof.
  intro soup. unfold containers_of, first_qualifying_tag.
  induction container_tags as [|t ts IH]; simpl; [reflexivity|].
  pose proof (qualifies_spec soup t) as Hq.
  pose proof (qualifying_head soup t) as Hh.
  destruct (flat_map _ (find_all [t] soup)) as [|x l] eqn:E.
  - rewrite (proj1 Hq eq_refl). simpl. exact IH.
  - destruct (qualifies soup t) eqn:Eq.
    + simpl. destruct x as [tag e]. specialize (Hh _ _ eq_refl). simpl in Hh.
      congruence.
    + destruct Hq as [_ Hq]. discriminate (Hq eq_refl).
Qed.

Section Refinement.

Context {B : Builtins}.

Lemma bind_ext : forall A C (m : M A) (f g : A -> M C) w,
  (forall a w', f a w' = g a w') -> bind m f w = bind m g w.
Proof.
  intros A C m f g w H. unfold bind. destruct (m w) as [[[a|e] w1] ev1].
  - rewrite H. reflexivity.
  - reflexivity.
Qed.

Lemma bind_assoc : forall A C D (m : M A) (f : A -> M C) (g : C -> M D) w,
  bind (bind m f) g w = bind m (fun a => bind (f a) g) w.
Proof.
  intros A C D m f g w. unfold bind.
  destruct (m w) as [[[a|e] w1] ev1]; [|reflexivity].
  destruct (f a w1) as [[[c|e] w2] ev2]; [|reflexivity].
  destruct (g c w2) as [[r w3] ev3]. rewrite app_assoc. reflexivity.
Qed.

Lemma bind_ret : forall A C (a : A) (f : A -> M C) w,
  bind (ret a) f w = f a w.
Proof.
  intros A C a f w. unfold bind, ret. destruct (f a w) as [[r w1] ev1].
  reflexivity.
Qed.

Lemma bind_lift_ret : forall A C (a : A) (f : A -> M C) w,
  bind (lift (Ret a)) f w = f a w.
Proof. intros. apply bind_ret. Qed.

Lemma bind_lift_raise : forall A C e (f : A -> M C) w,
  bind (lift (Raise e)) f w = (Raise e, w, []).
Proof. reflexivity. Qed.

Lemma scrape_page_extract : forall soup containers tag_info sel,
  scrape_page soup containers tag_info sel =
  extract soup (container_tag_of containers) tag_info sel.
Proof. reflexivity. Qed.

Lemma page_loop_fixed_tag : forall base containers tag_info sel pages url acc w,
  page_loop base containers tag_info sel pages url acc w =
  spec_page_loop base (container_tag_of containers) tag_info sel pages url acc w.
Proof.
  intros base containers tag_info sel pages.
  induction pages as [|p pages IH]; intros url acc w; [reflexivity|].
  simpl. apply bind_ext. intros _ w1. apply bind_ext. intros html w2.
  destruct html as [[|c markup]|]; try reflexivity.
  rewrite scrape_page_extract. apply bind_ext. intros data w3.
  apply bind_ext. intros next w4.
  destruct next as [[|d next]|]; try reflexivity.
  apply bind_ext. intros _ w5. apply IH.
Qed.

(** C1.  Every run is the run in which the container tag is chosen once,
    at page 1, as the first tag of the whitelist with a qualifying element,
    and every page of the loop is extracted with that tag. *)
Theorem main_fixes_container_tag : forall url max_pages w,
  main url max_pages w = spec_main url max_pages w.
Proof.
  intros url max_pages w. unfold main, spec_main.
  apply bind_ext. intros [scheme netloc] w0.
  apply bind_ext. intros html w1.
  destruct html as [[|c markup]|]; try reflexivity.
  set (soup := parse_html (c :: markup)).
  pose proof (containers_head soup) as Hh.
  unfold analyze_structure.
  destruct (containers_of soup) as [|[tag e] rest] eqn:Ec.
  - rewrite Hh. reflexivity.
  - rewrite Hh, bind_assoc. apply bind_ext. intros _ w2. rewrite bind_ret.
    apply bind_ext. intros sel w3. destruct sel as [|i sel]; [reflexivity|].
    unfold bind. rewrite page_loop_fixed_tag. reflexivity.
Qed.

End Refinement.

(** ** The row extractor *)

Lemma dict_get_set_same : forall k v d, dict_get k (dict_set k v d) = Some v.
Proof.
  intros k v d. unfold dict_get. induction d as [|[k' v'] d IH]; simpl.
  - rewrite str_eqb_refl. reflexivity.
  - destruct (Str.eqb k' k) eqn:E; simpl; rewrite E; [reflexivity | exact IH].
Qed.

Lemma dict_get_set_other : forall k k' v d,
  k' <> k -> dict_get k (dict_set k' v d) = dict_get k d.
Proof.
  intros k k' v d Hne. unfold dict_get.
  induction d as [|[k0 v0] d IH]; simpl.
  - apply str_eqb_neq in Hne. rewrite Hne. reflexivity.
  - destruct (Str.eqb k0 k') eqn:E; simpl.
    + apply str_eqb_eq in E. subst k0. apply str_eqb_neq in Hne. rewrite Hne.
      reflexivity.
    + destruct (Str.eqb k0 k); [reflexivity | exact IH].
Qed.

(** Filling a row never raises: the result is the fold that [row_of]
    names. *)
Lemma fill_row_ret : forall article selected_tags row,
  fill_row article selected_tags row =
  Ret (fold_left (fun r tc => dict_set (snd tc) (field_of article (fst tc)) r)
                 selected_tags row).
Proof.
  intros article selected_tags.
  induction selected_tags as [|[tag col] rest IH]; intro row; [reflexivity|].
  simpl. unfold field_of at 2. destruct (find tag article); simpl; apply IH.
Qed.

Lemma scrape_articles_rows : forall articles selected_tags data w,
  scrape_articles articles selected_tags data w =
  (Ret (data ++ map (row_of selected_tags) articles), w, []).
Proof.
  induction articles as [|a articles IH]; intros tags data w; simpl.
  - unfold ret. rewrite app_nil_r. reflexivity.
  - unfold bind at 1. unfold try_except, bind, lift, ret.
    rewrite fill_row_ret. simpl. rewrite IH. rewrite <- app_assoc. reflexivity.
Qed.

Lemma extract_run : forall soup tag tag_info sel w,
  extract soup tag tag_info sel w =
  match selected_tags_of tag_info sel with
  | Ret selected_tags =>
      let data := map (row_of selected_tags) (find_all [tag] soup) in
      (Ret data, w, [ELog INFO (LScraped (List.length data))])
  | Raise e => (Raise e, w, [])
  end.
Proof.
  intros soup tag tag_info sel w. unfold extract, bind at 1, lift.
  destruct (selected_tags_of tag_info sel) as [tags|e]; [|reflexivity].
  unfold bind at 1. rewrite scrape_articles_rows. reflexivity.
Qed.

Lemma py_index_raises : forall A (l : list A) i e,
  py_index l i = Raise e -> e = IndexError.
Proof.
  intros A l i e. unfold py_index.
  destruct (_ && _); [destruct (nth_error _ _)|]; congruence.
Qed.

Lemma selected_tags_of_raises : forall tag_info sel e,
  selected_tags_of tag_info sel = Raise e -> e = IndexError.
Proof.
  intros tag_info sel e. unfold selected_tags_of.
  induction sel as [|i sel IH]; simpl; [discriminate|].
  destruct (py_index tag_info (i - 1)) as [a|e'] eqn:E; simpl.
  - destruct (rmap _ sel) as [tags|e'']; simpl; [discriminate|].
    intro H. inversion H; subst. apply IH. reflexivity.
  - intro H. inversion H; subst. exact (py_index_raises _ _ _ _ E).
Qed.

Lemma py_index_in_range : forall A (l : list A) i,
  0 <= i < Z.of_nat (List.length l) ->
  exists a, py_index l i = Ret a /\ nth_error l (Z.to_nat i) = Some a.
Proof.
  intros A l i H. unfold py_index.
  destruct (i <? 0) eqn:E; [apply Z.ltb_lt in E; lia|].
  replace ((0 <=? i) && (i <? Z.of_nat (List.length l))) with true
    by (symmetry; apply andb_true_iff; split;
        [apply Z.leb_le | apply Z.ltb_lt]; lia).
  destruct (nth_error l (Z.to_nat i)) as [a|] eqn:En.
  - exists a. auto.
  - apply nth_error_None in En. lia.
Qed.

(** A selection the prompt accepts maps to its tags and labels. *)
Lemma selected_tags_of_valid : forall tag_info sel,
  Forall (fun i => 1 <= i <= Z.of_nat (List.length tag_info)) sel ->
  exists tags,
    selected_tags_of tag_info sel = Ret tags /\
    Forall2 (fun i tc => exists info,
                 nth_error tag_info (Z.to_nat (i - 1)) = Some info /\
                 tc = (ti_tag info, ti_type info))
            sel tags.
Proof.
  intros tag_info sel H. unfold selected_tags_of.
  induction H as [|i sel Hi _ [tags [E F]]].
  - exists []. split; [reflexivity | constructor].
  - destruct (py_index_in_range _ tag_info (i - 1)) as [a [Ea Na]]; [lia|].
    exists ((ti_tag a, ti_type a) :: tags). split.
    + simpl. rewrite Ea. simpl. rewrite E. reflexivity.
    + constructor; [exists a; auto | exact F].
Qed.

(** C10.  Filling a row never raises, for any container and any selected
    tags; so a page that returns records returns one per element of the
    container tag and logs no skipped container, and the only exception
    [scrape_page] can raise is the [IndexError] of a selection that points
    outside [tag_info], which a selection accepted by the prompt never
    does. *)
Theorem scrape_page_one_row_per_container :
  forall soup containers tag_info sel w,
    (forall article selected_tags row,
        exists row', fill_row article selected_tags row = Ret row') /\
    (Forall (fun i => 1 <= i <= Z.of_nat (List.length tag_info)) sel ->
     exists data, fst (fst (scrape_page soup containers tag_info sel w)) = Ret data) /\
    match scrape_page soup containers tag_info sel w with
    | (Ret data, _, events) =>
        List.length data
        = List.length (find_all [container_tag_of containers] soup)
        /\ ~ In (ELog WARNING LSkipping) events
    | (Raise e, _, _) =>
        e = IndexError /\ selected_tags_of tag_info sel = Raise IndexError
    end.
Proof.
  intros soup containers tag_info sel w. split; [|split].
  - intros article tags row. eexists. apply fill_row_ret.
  - intro H. destruct (selected_tags_of_valid tag_info sel H) as [tags [E _]].
    rewrite scrape_page_extract, extract_run, E. eexists. reflexivity.
  - rewrite scrape_page_extract, extract_run.
    destruct (selected_tags_of tag_info sel) as [tags|e] eqn:E.
    + simpl. split; [apply length_map|].
      intros [H|[]]. discriminate.
    + pose proof (selected_tags_of_raises _ _ _ E). subst e. auto.
Qed.

Lemma fold_set_untouched : forall article col tags row,
  (forall tc, In tc tags -> snd tc <> col) ->
  dict_get col
    (fold_left (fun r tc => dict_set (snd tc) (field_of article (fst tc)) r)
               tags row)
  = dict_get col row.
Proof.
  intros article col tags. induction tags as [|tc tags IH]; intros row H.
  - reflexivity.
  - simpl. rewrite IH by (intros x Hx; apply H; right; exact Hx).
    apply dict_get_set_other. apply H. left. reflexivity.
Qed.

(** A label that every selected tag writing it fills with the same value
    holds that value. *)
Lemma fold_set_agree : forall article col v tags row,
  (exists tag, In (tag, col) tags) ->
  (forall tag, In (tag, col) tags -> field_of article tag = v) ->
  dict_get col
    (fold_left (fun r tc => dict_set (snd tc) (field_of article (fst tc)) r)
               tags row)
  = Some v.
Proof.
  intros article col v tags. induction tags as [|[t c] tags IH];
    intros row [tag Hin] Hall.
  - destruct Hin.
  - simpl.
    destruct (existsb (fun tc => Str.eqb (snd tc) col) tags) eqn:Ex.
    + apply existsb_exists in Ex. destruct Ex as [[t' c'] [Hin' E]].
      simpl in E. apply str_eqb_eq in E. subst c'. apply IH.
      * exists t'. exact Hin'.
      * intros x Hx. apply Hall. right. exact Hx.
    + assert (Hno : forall tc, In tc tags -> snd tc <> col).
      { intros tc Htc E. 
        assert (existsb (fun tc => Str.eqb (snd tc) col) tags = true).
        { apply existsb_exists. exists tc. split; [exact Htc|].
          apply str_eqb_eq. exact E. }
        congruence. }
      rewrite fold_set_untouched by exact Hno.
      destruct Hin as [E|Hin].
      * inversion E; subst. rewrite dict_get_set_same. f_equal.
        apply Hall. left. reflexivity.
      * exfalso. exact (Hno _ Hin eq_refl).
Qed.

Lemma NoDup_map_inj : forall A C (f : A -> C) l a b,
  NoDup (map f l) -> In a l -> In b l -> f a = f b -> a = b.
Proof.
  intros A C f l a b. induction l as [|x l IH]; simpl; intros Hnd Ha Hb E.
  - destruct Ha.
  - inversion Hnd as [|? ? Hnot Hnd']; subst.
    destruct Ha as [Ha|Ha], Hb as [Hb|Hb]; subst.
    + reflexivity.
    + exfalso. apply Hnot. rewrite E. apply in_map. exact Hb.
    + exfalso. apply Hnot. rewrite <- E. apply in_map. exact Ha.
    + exact (IH Hnd' Ha Hb E).
Qed.

Lemma Forall2_In_l : forall A C (R : A -> C -> Prop) l1 l2 a,
  Forall2 R l1 l2 -> In a l1 -> exists b, In b l2 /\ R a b.
Proof.
  intros A C R l1 l2 a H. induction H as [|x y l1 l2 Hxy _ IH]; intro Ha.
  - destruct Ha.
  - destruct Ha as [Ha|Ha].
    + subst. exists y. split; [left; reflexivity | exact Hxy].
    + destruct (IH Ha) as [b [Hb Hr]]. exists b. split; [right|]; assumption.
Qed.

Lemma Forall2_In_r : forall A C (R : A -> C -> Prop) l1 l2 b,
  Forall2 R l1 l2 -> In b l2 -> exists a, In a l1 /\ R a b.
Proof.
  intros A C R l1 l2 b H. induction H as [|x y l1 l2 Hxy _ IH]; intro Hb.
  - destruct Hb.
  - destruct Hb as [Hb|Hb].
    + subst. exists x. split; [left; reflexivity | exact Hxy].
    + destruct (IH Hb) as [a [Ha Hr]]. exists a. split; [right|]; assumption.
Qed.

Lemma Forall2_map_r : forall A C (f : A -> C) (R : A -> C -> Prop) l,
  (forall a, In a l -> R a (f a)) -> Forall2 R l (map f l).
Proof.
  intros A C f R l. induction l as [|x l IH]; intro H; simpl; constructor.
  - apply H. left. reflexivity.
  - apply IH. intros a Ha. apply H. right. exact Ha.
Qed.

(** With labels that name one content type each and a selection the
    prompt accepts, [scrape_page] returns one row per container, in
    document order, and the row of a container that lacks a selected
    content tag holds the sentinel under that tag's label. *)
Lemma missing_field_under_distinct_labels :
  forall soup containers tag_info sel w,
    NoDup (map ti_type tag_info) ->
    Forall (fun i => 1 <= i <= Z.of_nat (List.length tag_info)) sel ->
    exists data,
      scrape_page soup containers tag_info sel w
      = (Ret data, w, [ELog INFO (LScraped (List.length data))]) /\
      Forall2
        (fun article row =>
           forall i info,
             In i sel ->
             nth_error tag_info (Z.to_nat (i - 1)) = Some info ->
             find (ti_tag info) article = None ->
             dict_get (ti_type info) row = Some NA)
        (find_all [container_tag_of containers] soup) data.
Proof.
  intros soup containers tag_info sel w Hnd Hsel.
  destruct (selected_tags_of_valid tag_info sel Hsel) as [tags [E F]].
  exists (map (row_of tags) (find_all [container_tag_of containers] soup)).
  split.
  - rewrite scrape_page_extract, extract_run, E. reflexivity.
  - apply Forall2_map_r. intros article _ i info Hi Hnth Hfind.
    destruct (Forall2_In_l _ _ _ _ _ _ F Hi) as [tc [Htc [info' [Hn' Etc]]]].
    assert (info' = info) by congruence. subst info' tc.
    unfold row_of. apply fold_set_agree.
    + exists (ti_tag info). exact Htc.
    + intros tag Htag.
      destruct (Forall2_In_r _ _ _ _ _ _ F Htag) as [j [_ [info2 [Hn2 E2]]]].
      inversion E2; subst.
      assert (info2 = info).
      { apply (NoDup_map_inj _ _ ti_type tag_info); auto.
        - exact (nth_error_In _ _ Hn2).
        - exact (nth_error_In _ _ Hnth). }
      subst info2. unfold field_of. rewrite Hfind. reflexivity.
Qed.

(** The labels [analyze_structure] produces name one content type each. *)
Lemma tag_info_types_NoDup : forall soup,
  NoDup (map ti_type (tag_info_of soup)).
Proof.
  intro soup. unfold tag_info_of.
  assert (Hnd : NoDup (map upper_ascii content_tags)).
  { vm_compute. repeat constructor; simpl; intuition discriminate. }
  induction content_tags as [|t ts IH]; [constructor|].
  simpl in Hnd. inversion Hnd as [|? ? Hnot Hnd']; subst.
  simpl flat_map. rewrite filter_app, map_app.
  assert (Hsub : forall x,
             In x (map ti_type
                     (filter (fun info => (0 <? ti_count info)%nat)
                        (flat_map
                           (fun tag =>
                              match find_all [tag] soup with
                              | [] => []
                              | first :: _ =>
                                  [ {| ti_type := upper_ascii tag;
                                       ti_tag := tag;
                                       ti_count := List.length (find_all [tag] soup);
                                       ti_sample := firstn 50 (clean_text (Some (text first))) |} ]
                              end) ts))) ->
             In x (map upper_ascii ts)).
  { intros x Hx. apply in_map_iff in Hx. destruct Hx as [info [E Hin]].
    apply filter_In in Hin. destruct Hin as [Hin _].
    apply in_flat_map in Hin. destruct Hin as [tag [Htag Hin]].
    destruct (find_all [tag] soup); [destruct Hin|].
    destruct Hin as [Hin|[]]. subst info. simpl in E. subst x.
    apply in_map. exact Htag. }
  destruct (find_all [t] soup) as [|first rest] eqn:Ef.
  - simpl. apply IH. exact Hnd'.
  - simpl. constructor; [|apply IH; exact Hnd'].
    intro Hin. apply Hnot. apply Hsub. exact Hin.
Qed.

(** C4.  With the content types of page 1's analysis and a selection the
    prompt accepts, [scrape_page] returns, on any page, one row per
    container, in document order, and the row of a container that lacks a
    selected content tag holds the sentinel under that tag's label. *)
Theorem missing_field_is_sentinel :
  forall page1 soup containers sel w,
    let tag_info := tag_info_of page1 in
    Forall (fun i => 1 <= i <= Z.of_nat (List.length tag_info)) sel ->
    exists data,
      scrape_page soup containers tag_info sel w
      = (Ret data, w, [ELog INFO (LScraped (List.length data))]) /\
      Forall2
        (fun article row =>
           forall i info,
             In i sel ->
             nth_error tag_info (Z.to_nat (i - 1)) = Some info ->
             find (ti_tag info) article = None ->
             dict_get (ti_type info) row = Some NA)
        (find_all [container_tag_of containers] soup) data.
Proof.
  intros page1 soup containers sel w tag_info Hsel.
  apply missing_field_under_distinct_labels;
    [apply tag_info_types_NoDup | exact Hsel].
Qed.

Lemma missing_field_witness :
  exists data,
    scrape_page demo_listing (containers_of demo_listing)
                (tag_info_of demo_listing) [1; 2] demo_world
    = (Ret data, demo_world, [ELog INFO (LScraped (List.length data))]) /\
    Forall2
      (fun article row =>
         forall i info,
           In i [1; 2] ->
           nth_error (tag_info_of demo_listing) (Z.to_nat (i - 1)) = Some info ->
           find (ti_tag info) article = None ->
           dict_get (ti_type info) row = Some NA)
      (find_all [container_tag_of (containers_of demo_listing)] demo_listing)
      data.
Proof.
  apply (missing_field_is_sentinel demo_listing).
  repeat constructor; vm_compute; discriminate.
Defined.

Example demo_listing_rows :
  fst (fst (scrape_page demo_listing (containers_of demo_listing)
                        (tag_info_of demo_listing) [1; 2] demo_world))
  = Ret [[(str "H2", str "First"); (str "P", str "Body")];
         [(str "H2", str "Second"); (str "P", str "N/A")]].
Proof. reflexivity. Qed.

Lemma one_row_per_container_witness :
  exists data,
    fst (fst (scrape_page demo_listing (containers_of demo_listing)
                          (tag_info_of demo_listing) [1; 2] demo_world))
    = Ret data.
Proof.
  apply (proj1 (proj2 (scrape_page_one_row_per_container
                         demo_listing (containers_of demo_listing)
                         (tag_info_of demo_listing) [1; 2] demo_world))).
  repeat constructor; vm_compute; discriminate.
Defined.

(** ** The page fetcher *)

Lemma tick_0 : forall w, tick 0 w = w.
Proof. intros [f c i t]. reflexivity. Qed.

Lemma sleep_ok : forall secs w,
  0 <= secs -> takes_pause w secs = true ->
  sleep secs w = (Ret tt, w, [ESleep secs]).
Proof.
  intros secs w H Ht. unfold sleep.
  replace (secs <? 0) with false by (symmetry; apply Z.ltb_ge; exact H).
  rewrite Ht. reflexivity.
Qed.

Lemma sleep_negative : forall secs w,
  secs < 0 -> sleep secs w = (Raise ValueError, w, []).
Proof.
  intros secs w H. unfold sleep.
  replace (secs <? 0) with true by (symmetry; apply Z.ltb_lt; exact H).
  reflexivity.
Qed.

(** A pause is taken, or raises and leaves no event. *)
Lemma sleep_outcome : forall secs w,
  (0 <= secs /\ takes_pause w secs = true /\
   sleep secs w = (Ret tt, w, [ESleep secs])) \/
  ((secs < 0 \/ takes_pause w secs = false) /\
   exists e, sleep secs w = (Raise e, w, [])).
Proof.
  intros secs w. unfold sleep.
  destruct (secs <? 0) eqn:E.
  - apply Z.ltb_lt in E. right. split; [left; exact E|]. eexists. reflexivity.
  - apply Z.ltb_ge in E. destruct (takes_pause w secs) eqn:Et.
    + left. auto.
    + right. split; [right; reflexivity|]. eexists. reflexivity.
Qed.

Lemma bind_sleep_ok : forall A secs (f : unit -> M A) w,
  0 <= secs -> takes_pause w secs = true ->
  bind (sleep secs) f w
  = let '(r, w', ev) := f tt w in (r, w', ESleep secs :: ev).
Proof.
  intros A secs f w H Ht. unfold bind. rewrite (sleep_ok secs w H Ht).
  destruct (f tt w) as [[r w'] ev]. reflexivity.
Qed.

Lemma bind_sleep_raise : forall A secs (f : unit -> M A) w e,
  sleep secs w = (Raise e, w, []) ->
  bind (sleep secs) f w = (Raise e, w, []).
Proof. intros A secs f w e H. unfold bind. rewrite H. reflexivity. Qed.

Lemma requests_in_app : forall a b,
  requests_in (a ++ b) = requests_in a ++ requests_in b.
Proof. intros. unfold requests_in. apply flat_map_app. Qed.

(** The attempts [a, a+1, ..., a+n-1] of a fetch bounded by [a+n], on a
    URL that fails every time: [n] requests, then [None]. *)
Lemma fetch_attempts_all_fail : forall url retries delay n a w,
  0 <= delay ->
  takes_pause w delay = true ->
  Z.of_nat (a + n) = retries ->
  (forall k, www w k url = HttpRequestException) ->
  exists events,
    fetch_attempts url retries delay (map Z.of_nat (seq a n)) w
    = (Ret None, tick n w, events) /\
    requests_in events = repeat url n.
Proof.
  intros url retries delay n. induction n as [|n IH]; intros a w Hd Ht Hr Hfail.
  - exists []. rewrite tick_0. split; reflexivity.
  - simpl seq. simpl map. cbn [fetch_attempts].
    unfold try_except, bind at 1, http_get. rewrite Hfail.
    cbn [is_request_exception]. unfold bind at 1, log at 1, emit at 1.
    destruct (Z.of_nat a + 1 =? retries) eqn:Elast.
    + apply Z.eqb_eq in Elast. assert (n = 0%nat) by lia. subst n.
      unfold bind, log, emit, ret. simpl.
      eexists. split; [reflexivity | reflexivity].
    + apply Z.eqb_neq in Elast.
      set (w1 := {| www := www w; clock := S (clock w); stdin := stdin w;
                    timer_max := timer_max w |}).
      rewrite (bind_sleep_ok _ delay _ w1 Hd Ht).
      destruct (IH (S a) w1) as [events [E R]];
        [exact Hd | exact Ht | lia | exact Hfail |].
      rewrite E.
      eexists. split.
      * f_equal. f_equal. unfold tick, w1. simpl. f_equal. lia.
      * simpl. rewrite R. reflexivity.
Qed.

(** C3.  On a URL whose every request raises [RequestException], a fetch
    bounded by [retries], with a pause [delay] that is not negative and
    that the timer takes, makes exactly [retries] requests and returns
    [None]; it does not raise. *)
Theorem fetch_page_exhausts_attempts : forall url retries delay w,
  0 <= retries ->
  0 <= delay ->
  takes_pause w delay = true ->
  (forall k, www w k url = HttpRequestException) ->
  exists w' events,
    fetch_page url retries delay w = (Ret None, w', events) /\
    requests_in events = repeat url (Z.to_nat retries) /\
    Z.of_nat (List.length (requests_in events)) = retries.
Proof.
  intros url retries delay w Hr Hd Ht Hfail. unfold fetch_page, range.
  destruct (fetch_attempts_all_fail url retries delay (Z.to_nat retries) 0 w)
    as [events [E R]]; [exact Hd | exact Ht | simpl; lia | exact Hfail |].
  exists (tick (Z.to_nat retries) w), events. split; [exact E|].
  split; [exact R|]. rewrite R, repeat_length. lia.
Qed.

Lemma fetch_page_exhausts_witness :
  exists w' events,
    fetch_page (str "http://down.example") 3 2 demo_world
    = (Ret None, w', events) /\
    requests_in events = repeat (str "http://down.example") (Z.to_nat 3) /\
    Z.of_nat (List.length (requests_in events)) = 3.
Proof.
  apply fetch_page_exhausts_attempts; [lia | lia | reflexivity | reflexivity].
Defined.

Example fetch_page_down_events :
  snd (fetch_page (str "u") 2 5 demo_world)
  = [EGet (str "u"); ELog WARNING (LAttemptFailed 1 (str "u")); ESleep 5;
     EGet (str "u"); ELog WARNING (LAttemptFailed 2 (str "u"));
     ELog ERROR (LFetchFailed (str "u") 2)].
Proof. reflexivity. Qed.

(** ** The pagination locator *)


Section Locator.

Context {B : Builtins}.









End Locator.

Example next_by_class_first :
  @get_next_page B0
    (page_with [anchor [(str "href", str "/p/9")] "Next";
                anchor [(str "class", str "btn NEXT-link");
                        (str "href", str "/p/2")] "more"])
    (str "https://x.org")
  = Ret (Some (str "https://x.org/p/2")).
Proof. reflexivity. Qed.

Example next_by_text :
  @get_next_page B0
    (page_with [anchor [(str "href", str "/about")] "About";
                anchor [(str "href", str "/p/3")] "go to Page 3"])
    (str "https://x.org")
  = Ret (Some (str "https://x.org/p/3")).
Proof. reflexivity. Qed.

Example next_class_without_target :
  @get_next_page B0
    (page_with [anchor [(str "class", str "next")] "x";
                anchor [(str "href", str "/p/3")] "next"])
    (str "https://x.org")
  = Ret None.
Proof. reflexivity. Qed.

Example next_absent :
  @get_next_page B0
    (page_with [anchor [(str "href", str "/about")] "About"; 
                anchor [(str "href", str "/p")] "page two"])
    (str "https://x.org")
  = Ret None.
Proof. reflexivity. Qed.

(** A comment is a child node like any other: alone in an anchor it is
    the string of the anchor; beside a text it leaves the anchor without
    a string. *)
Example next_by_comment :
  @get_next_page B0
    (page_with [Tag (str "a") [(str "href", str "/p/4")]
                    [Str Comment (str " next ")]])
    (str "https://x.org")
  = Ret (Some (str "https://x.org/p/4")).
Proof. reflexivity. Qed.

Example next_text_beside_comment :
  @get_next_page B0
    (page_with [Tag (str "a") [(str "href", str "/p/4")]
                    [Text (str "Next"); Str Comment (str "x")]])
    (str "https://x.org")
  = Ret None.
Proof. reflexivity. Qed.

(** A link target the URL library refuses. *)
Example next_target_refused :
  @get_next_page B0
    (page_with [anchor [(str "class", str "next"); (str "href", str "//[")]
                       "older"])
    (str "https://x.org")
  = Raise ValueError.
Proof. reflexivity. Qed.


(** ** Runs: what each step leaves of the world and of the log *)

Lemma pages_in_app : forall a b, pages_in (a ++ b) = pages_in a ++ pages_in b.
Proof. intros. apply flat_map_app. Qed.

Lemma tables_in_app : forall a b,
  tables_in (a ++ b) = tables_in a ++ tables_in b.
Proof. intros. apply flat_map_app. Qed.

Lemma plain_pages : forall ev, Forall plain ev -> pages_in ev = [].
Proof.
  induction 1 as [|e ev He _ IH]; [reflexivity|].
  unfold pages_in in *. simpl. rewrite IH, app_nil_r.
  destruct e as [| |l m| | |]; try reflexivity.
  destruct m; try reflexivity; destruct l; try reflexivity; destruct He.
Qed.

Lemma plain_tables : forall ev, Forall plain ev -> tables_in ev = [].
Proof.
  induction 1 as [|e ev He _ IH]; [reflexivity|].
  unfold tables_in in *. simpl. rewrite IH, app_nil_r.
  destruct e; try reflexivity. destruct He.
Qed.

Lemma fetch_attempts_frame : forall url retries delay attempts w r w' ev,
  fetch_attempts url retries delay attempts w = (r, w', ev) ->
  www w' = www w /\ stdin w' = stdin w /\ Forall plain ev.
Proof.
  intros url retries delay attempts.
  induction attempts as [|a attempts IH]; intros w r w' ev H.
  - inversion H; subst. repeat split. constructor.
  - simpl in H. unfold try_except, bind at 1, http_get in H.
    destruct (www w (clock w) url) eqn:Eo; simpl in H.
    + inversion H; subst. repeat split. repeat constructor.
    + unfold bind at 1, log, emit in H. simpl in H.
      destruct (a + 1 =? retries).
      * inversion H; subst. repeat split. repeat constructor.
      * unfold bind at 1, sleep in H. destruct (delay <? 0).
        { inversion H; subst. repeat split. repeat constructor. }
        destruct (takes_pause _ delay).
        2: { inversion H; subst. repeat split. repeat constructor. }
        destruct (fetch_attempts url retries delay attempts _)
          as [[r1 w1] ev1] eqn:E1.
        apply IH in E1. destruct E1 as [Hw [Hs Hp]]. simpl in *.
        inversion H; subst. repeat split; try assumption.
        repeat constructor. exact Hp.
    + inversion H; subst. repeat split. repeat constructor.
Qed.

Lemma fetch_page_frame : forall url retries delay w r w' ev,
  fetch_page url retries delay w = (r, w', ev) ->
  www w' = www w /\ stdin w' = stdin w /\ Forall plain ev.
Proof. intros. eapply fetch_attempts_frame. eassumption. Qed.

(** A request that is answered is the only one of its fetch. *)
Lemma fetch_page_ok : forall url body w,
  www w (clock w) url = HttpOk body ->
  fetch_page url 3 2 w
  = (Ret (Some body), tick 1 w, [EGet url; ELog INFO (LFetched url)]).
Proof.
  intros url body w H. unfold fetch_page. simpl.
  unfold try_except, bind, http_get. rewrite H. reflexivity.
Qed.

(** ** The selection prompt *)

Lemma split_on_blank_pieces : forall s,
  forallb separator s = true ->
  Forall (fun piece => forallb isspace piece = true) (split_on 0x2C s).
Proof.
  induction s as [|c s IH]; intro H; simpl.
  - repeat constructor.
  - simpl in H. apply andb_true_iff in H. destruct H as [Hc Hs].
    specialize (IH Hs). destruct (N.eqb c 0x2C) eqn:Ec.
    + constructor; [reflexivity | exact IH].
    + unfold separator in Hc. rewrite Ec, orb_false_r in Hc.
      destruct (split_on 0x2C s) as [|p ps].
      * repeat constructor. simpl. rewrite Hc. reflexivity.
      * inversion IH; subst. constructor; [|assumption].
        simpl. rewrite Hc. assumption.
Qed.

Lemma strip_blank : forall s, forallb isspace s = true -> strip s = [].
Proof.
  intros s H. unfold strip, lstrip.
  rewrite (proj2 (dropwhile_nil_iff isspace s) H). reflexivity.
Qed.

Lemma filter_blank_pieces : forall ps,
  Forall (fun piece => forallb isspace piece = true) ps ->
  filter (fun x => truthy (Some (strip x))) ps = [].
Proof.
  induction 1 as [|p ps Hp _ IH]; [reflexivity|].
  simpl. rewrite (strip_blank p Hp). simpl. exact IH.
Qed.

Lemma separators_not_all : forall s,
  forallb separator s = true -> Str.eqb s (str "all") = false.
Proof.
  intros s H. apply str_eqb_neq. intro E. subst s. discriminate H.
Qed.

Section Prompt.

Context {B : Builtins}.

Lemma parse_selection_blank : forall line,
  forallb separator line = true -> parse_selection line = Some [].
Proof.
  intros line H. unfold parse_selection.
  rewrite (filter_blank_pieces _ (split_on_blank_pieces line H)). reflexivity.
Qed.

(** A line of commas and white space is accepted at once, as the empty
    selection. *)
Lemma prompt_loop_blank : forall n line rest,
  forallb separator line = true ->
  prompt_loop n (line :: rest) = (Ret [], rest, [EInput]).
Proof.
  intros n line rest H. simpl.
  rewrite (str_lower_uncased line H), (separators_not_all line H).
  rewrite (parse_selection_blank line H). reflexivity.
Qed.

Lemma prompt_loop_plain : forall n lines,
  Forall plain (snd (prompt_loop n lines)).
Proof.
  intros n lines. induction lines as [|line rest IH]; simpl.
  - repeat constructor.
  - destruct (Str.eqb _ _); [repeat constructor|].
    destruct (parse_selection line) as [sel|].
    + destruct (forallb _ sel); [repeat constructor|].
      destruct (prompt_loop n rest) as [[r rest'] evs]. simpl in *.
      repeat constructor. exact IH.
    + destruct (prompt_loop n rest) as [[r rest'] evs]. simpl in *.
      repeat constructor. exact IH.
Qed.

Lemma option_lines_plain : forall tag_info i,
  Forall plain (option_lines i tag_info).
Proof.
  induction tag_info as [|info rest IH]; intro i; simpl; constructor.
  - exact I.
  - apply IH.
Qed.

Lemma present_options_frame : forall tag_info w r w' ev,
  present_options tag_info w = (r, w', ev) ->
  www w' = www w /\ clock w' = clock w /\ Forall plain ev.
Proof.
  intros tag_info w r w' ev H. destruct tag_info as [|info rest].
  - inversion H; subst. repeat split. repeat constructor.
  - unfold present_options, bind, print, emit, prompt in H.
    pose proof (prompt_loop_plain (List.length (info :: rest)) (stdin w)) as Hp.
    destruct (prompt_loop _ (stdin w)) as [[r1 rest1] ev1].
    inversion H; subst. repeat split. simpl.
    constructor; [exact I|]. constructor; [exact I|].
    apply Forall_app. split; [apply option_lines_plain | exact Hp].
Qed.

End Prompt.

Section Selection.

Context {B : Builtins}.

Lemma present_options_blank : forall tag_info w line rest,
  tag_info <> [] -> stdin w = line :: rest ->
  forallb separator line = true ->
  present_options tag_info w
  = (Ret [], with_stdin rest w,
     EPrint PFound :: option_lines 1 tag_info ++ [EInput]).
Proof.
  intros tag_info w line rest Hne Hin Hsep.
  destruct tag_info as [|info infos]; [congruence|].
  unfold present_options, bind, print, emit, prompt.
  rewrite Hin, (prompt_loop_blank _ line rest Hsep). reflexivity.
Qed.

(** C8.  A line that holds only commas and white space is accepted as the
    empty selection: the prompt reads that one line, prints no complaint
    and returns the empty list; the run then prints that no data was
    selected and ends, with no page of the loop fetched and no table
    written.  (A run whose URL [urlparse] refuses never reaches the
    prompt: it raises [ValueError] before its first request.) *)
Theorem blank_selection_ends_run : forall line,
  forallb separator line = true ->
  (forall tag_info w rest,
      tag_info <> [] -> stdin w = line :: rest ->
      present_options tag_info w
      = (Ret [], with_stdin rest w,
         EPrint PFound :: option_lines 1 tag_info ++ [EInput])) /\
  (forall url max_pages w markup w1 ev1 rest,
      fetch_page (with_scheme url) 3 2 w = (Ret (Some markup), w1, ev1) ->
      markup <> [] ->
      containers_of (parse_html markup) <> [] ->
      stdin w = line :: rest ->
      let tag_info := tag_info_of (parse_html markup) in
      match urlparse (with_scheme url) with
      | Some _ =>
          main url max_pages w
          = (Ret tt, with_stdin rest w1,
             ev1 ++ ELog INFO (LDetected (List.length tag_info)
                                         (map ti_type tag_info))
                 :: EPrint PFound
                 :: option_lines 1 tag_info
                 ++ [EInput; EPrint PNoDataSelected])
      | None => main url max_pages w = (Raise ValueError, w, [])
      end).
Proof.
  intros line Hsep. split.
  - intros tag_info w rest Hne Hin.
    exact (present_options_blank tag_info w line rest Hne Hin Hsep).
  - intros url max_pages w markup w1 ev1 rest Hfetch Hmarkup Hcont Hin tag_info.
    pose proof (fetch_page_frame _ _ _ _ _ _ _ Hfetch) as [_ [Hs _]].
    assert (Hti : tag_info <> []) by exact (containers_need_content_types _ Hcont).
    assert (Hp := present_options_blank tag_info w1 line rest Hti
                    (eq_trans Hs Hin) Hsep).
    unfold main. unfold bind at 1, lift, or_raise.
    destruct (urlparse (with_scheme url)) as [[scheme netloc]|];
      [|reflexivity].
    unfold bind at 1. rewrite Hfetch.
    destruct markup as [|c markup]; [congruence|].
    fold tag_info.
    destruct (containers_of (parse_html (c :: markup))) as [|ct cts] eqn:Ec;
      [congruence|].
    unfold analyze_structure. rewrite Ec. fold tag_info.
    unfold bind, log, emit, ret, print. simpl. rewrite Hp. simpl.
    rewrite <- app_assoc. reflexivity.
Qed.

End Selection.

Lemma blank_selection_witness :
  @present_options B1 (tag_info_of demo_listing) blank_world
  = (Ret [], with_stdin [] blank_world,
     EPrint PFound :: option_lines 1 (tag_info_of demo_listing) ++ [EInput])
  /\
  @main B1 (str "x.org") 3 blank_world
  = (Ret tt, with_stdin [] (tick 1 blank_world),
     [EGet (str "https://x.org"); ELog INFO (LFetched (str "https://x.org"))]
     ++ ELog INFO (LDetected (List.length (tag_info_of demo_listing))
                             (map ti_type (tag_info_of demo_listing)))
        :: EPrint PFound
        :: option_lines 1 (tag_info_of demo_listing)
        ++ [EInput; EPrint PNoDataSelected]).
Proof.
  destruct (@blank_selection_ends_run B1 (str " , ,") eq_refl) as [H1 H2].
  split.
  - apply H1; [vm_compute; discriminate | reflexivity].
  - apply (H2 (str "x.org") 3 blank_world (str "<html>")).
    + reflexivity.
    + discriminate.
    + vm_compute; discriminate.
    + reflexivity.
Defined.

(** ** The page loop *)

Lemma bind_inv : forall A C (m : M A) (f : A -> M C) w r w' ev,
  bind m f w = (r, w', ev) ->
  (exists a w1 ev1 ev2,
      m w = (Ret a, w1, ev1) /\ f a w1 = (r, w', ev2) /\ ev = ev1 ++ ev2)
  \/ (exists e, m w = (Raise e, w', ev) /\ r = Raise e).
Proof.
  intros A C m f w r w' ev H. unfold bind in H.
  destruct (m w) as [[[a|e] w1] ev1].
  - destruct (f a w1) as [[r2 w2] ev2] eqn:E. inversion H; subst.
    left. exists a, w1, ev1, ev2. auto.
  - inversion H; subst. right. exists e. auto.
Qed.

Lemma lift_inv : forall A (r r' : result A) w w' ev,
  lift r w = (r', w', ev) -> r' = r /\ w' = w /\ ev = [].
Proof. intros A r r' w w' ev H. inversion H; subst. auto. Qed.

Lemma scrape_page_frame : forall soup containers tag_info sel w r w' ev,
  scrape_page soup containers tag_info sel w = (r, w', ev) ->
  w' = w /\ Forall plain ev /\ requests_in ev = [].
Proof.
  intros soup containers tag_info sel w r w' ev H.
  rewrite scrape_page_extract, extract_run in H.
  destruct (selected_tags_of tag_info sel); inversion H; subst;
    repeat split; repeat constructor.
Qed.

Section Loop.

Context {B : Builtins}.

(** Each iteration opens with one line of the log; the loop writes no
    table and leaves the network as it was. *)
Lemma page_loop_bound :
  forall base containers tag_info sel pages url acc w r w' ev,
    page_loop base containers tag_info sel pages url acc w = (r, w', ev) ->
    (List.length (pages_in ev) <= List.length pages)%nat /\
    tables_in ev = [] /\ www w' = www w.
Proof.
  intros base containers tag_info sel pages.
  induction pages as [|p pages IH]; intros url acc w r w' ev H.
  - inversion H; subst. repeat split. simpl. lia.
  - simpl in H.
    apply bind_inv in H.
    destruct H as [[[] [w1 [ev1 [ev2 [H1 [H2 ->]]]]]] | [e [H1 _]]];
      [|discriminate H1].
    inversion H1; subst w1 ev1. clear H1.
    rewrite pages_in_app, tables_in_app, length_app. simpl.
    cut ((List.length (pages_in ev2) <= List.length pages)%nat /\
         tables_in ev2 = [] /\ www w' = www w); [intuition lia|].
    apply bind_inv in H2.
    destruct H2 as [[html [w2 [ev3 [ev4 [H2 [H3 ->]]]]]] | [e [H2 _]]].
    + apply fetch_page_frame in H2. destruct H2 as [Hw2 [_ Hp3]].
      rewrite pages_in_app, tables_in_app, (plain_pages _ Hp3),
        (plain_tables _ Hp3). simpl. rewrite <- Hw2.
      destruct html as [[|c markup]|];
        try (inversion H3; subst; repeat split; simpl; lia).
      apply bind_inv in H3.
      destruct H3 as [[data [w3 [ev5 [ev6 [H3 [H4 ->]]]]]] | [e [H3 _]]].
      * apply scrape_page_frame in H3. destruct H3 as [-> [Hp5 _]].
        rewrite pages_in_app, tables_in_app, (plain_pages _ Hp5),
          (plain_tables _ Hp5). simpl.
        apply bind_inv in H4.
        destruct H4 as [[next [wn [evn [ev9 [Hn [H4 ->]]]]]] | [e [Hn _]]];
          apply lift_inv in Hn; destruct Hn as [_ [-> ->]];
          [|repeat split; simpl; lia].
        simpl.
        destruct next as [[|d next]|];
          try (unfold bind, log, emit, ret in H4; inversion H4; subst;
               repeat split; simpl; lia).
        apply bind_inv in H4.
        destruct H4 as [[[] [w4 [ev7 [ev8 [H4 [H5 ->]]]]]] | [e [H4 _]]];
          [|discriminate H4].
        inversion H4; subst w4 ev7. apply IH in H5. simpl.
        intuition lia.
      * apply scrape_page_frame in H3. destruct H3 as [-> [Hp5 _]].
        rewrite (plain_pages _ Hp5), (plain_tables _ Hp5).
        repeat split; simpl; lia.
    + apply fetch_page_frame in H2. destruct H2 as [Hw2 [_ Hp3]].
      rewrite (plain_pages _ Hp3), (plain_tables _ Hp3).
      repeat split; simpl; try lia. exact Hw2.
Qed.

End Loop.

Lemma range_length : forall n, List.length (range n) = Z.to_nat n.
Proof. intro n. unfold range. rewrite length_map, length_seq. reflexivity. Qed.

Section Budget.

Context {B : Builtins}.

Lemma save_run : forall netloc all_data w,
  exists ev,
    save netloc all_data w = (Ret tt, w, ev) /\
    pages_in ev = [] /\ requests_in ev = [].
Proof.
  intros netloc all_data w. destruct all_data as [|row rows].
  - eexists. split; [reflexivity | split; reflexivity].
  - eexists. split; [reflexivity | split; reflexivity].
Qed.

Lemma main_pages : forall url max_pages w r w' ev,
  main url max_pages w = (r, w', ev) ->
  (List.length (pages_in ev) <= Z.to_nat max_pages)%nat.
Proof.
  intros url max_pages w r w' ev H. unfold main in H.
  destruct (urlparse (with_scheme url)) as [[scheme netloc]|];
    unfold or_raise in H;
    [rewrite bind_lift_ret in H
    | rewrite bind_lift_raise in H; inversion H; subst; simpl; lia].
  apply bind_inv in H.
  destruct H as [[html [w1 [ev1 [ev2 [H1 [H2 ->]]]]]] | [e [H1 _]]].
  - apply fetch_page_frame in H1. destruct H1 as [_ [_ Hp1]].
    rewrite pages_in_app, (plain_pages _ Hp1). simpl.
    destruct html as [[|c markup]|];
      try (inversion H2; subst; simpl; lia).
    unfold analyze_structure in H2. rewrite bind_assoc in H2.
    apply bind_inv in H2.
    destruct H2 as [[[] [w2 [ev3 [ev4 [H2 [H3 ->]]]]]] | [e [H2 _]]];
      [|discriminate H2].
    inversion H2; subst w2 ev3. clear H2. rewrite bind_ret in H3.
    rewrite pages_in_app. simpl.
    destruct (containers_of (parse_html (c :: markup))) as [|ct cts].
    + inversion H3; subst. simpl. lia.
    + apply bind_inv in H3.
      destruct H3 as [[sel [w3 [ev5 [ev6 [H3 [H4 ->]]]]]] | [e [H3 _]]].
      * apply present_options_frame in H3. destruct H3 as [_ [_ Hp5]].
        rewrite pages_in_app, (plain_pages _ Hp5). simpl.
        destruct sel as [|i sel]; [inversion H4; subst; simpl; lia|].
        apply bind_inv in H4.
        destruct H4 as [[data [w4 [ev7 [ev8 [H4 [H5 ->]]]]]] | [e [H4 _]]].
        -- apply page_loop_bound in H4. destruct H4 as [Hb _].
           rewrite range_length in Hb.
           destruct (save_run netloc data w4) as [evs [Es [Ps _]]].
           rewrite Es in H5. inversion H5; subst.
           rewrite pages_in_app, Ps, app_nil_r. exact Hb.
        -- apply page_loop_bound in H4. destruct H4 as [Hb _].
           rewrite range_length in Hb. exact Hb.
      * apply present_options_frame in H3. destruct H3 as [_ [_ Hp5]].
        rewrite (plain_pages _ Hp5). simpl. lia.
  - apply fetch_page_frame in H1. destruct H1 as [_ [_ Hp1]].
    rewrite (plain_pages _ Hp1). simpl. lia.
Qed.

End Budget.

Section Scenario.

Context {B : Builtins}.

(** One iteration whose fetch is answered, whose page is scraped and which
    finds a next link. *)
Lemma page_loop_step :
  forall base containers tag_info sel tags p rest url acc w body next,
    www w (clock w) url = HttpOk body ->
    body <> [] ->
    selected_tags_of tag_info sel = Ret tags ->
    get_next_page (parse_html body) base = Ret (Some next) ->
    next <> [] ->
    let rows := map (row_of tags)
                    (find_all [container_tag_of containers] (parse_html body)) in
    page_loop base containers tag_info sel (p :: rest) url acc w =
    let '(r, w', ev) :=
      page_loop base containers tag_info sel rest next (acc ++ rows)
                (tick 1 w) in
    (r, w',
     [ELog INFO (LScrapingPage (p + 1) url); EGet url;
      ELog INFO (LFetched url); ELog INFO (LScraped (List.length rows));
      ESleep 1] ++ ev).
Proof.
  intros base containers tag_info sel tags p rest url acc w body next
         Hget Hbody Hsel Hnext Hne rows.
  simpl page_loop. unfold bind at 1. unfold log at 1, emit at 1.
  unfold bind at 1. rewrite (fetch_page_ok url body w Hget).
  destruct body as [|c body]; [congruence|].
  unfold bind at 1. rewrite scrape_page_extract, extract_run, Hsel.
  cbv zeta. rewrite Hnext, bind_lift_ret.
  destruct next as [|d next]; [congruence|].
  change (sleep 1) with (emit (ESleep 1)).
  unfold bind at 1, emit at 1. fold rows.
  destruct (page_loop base containers tag_info sel rest (d :: next)
                      (acc ++ rows) (tick 1 w)) as [[r w'] ev].
  reflexivity.
Qed.

Variable site : pystr -> pystr.
Hypothesis site_not_empty : forall u, site u <> [].
Hypothesis site_has_next :
  forall u base, exists next,
    get_next_page (parse_html (site u)) base = Ret (Some next) /\ next <> [].

(** With every request answered and a next link on every page, the loop
    runs through its whole budget, one request per page. *)
Lemma page_loop_all_answered :
  forall base containers tag_info sel tags,
    selected_tags_of tag_info sel = Ret tags ->
    forall pages url acc w,
      (forall k u, www w k u = HttpOk (site u)) ->
      exists data w' ev,
        page_loop base containers tag_info sel pages url acc w
        = (Ret data, w', ev) /\
        List.length (pages_in ev) = List.length pages /\
        requests_in ev = pages_in ev /\
        hd_error (pages_in ev) = hd_error (map (fun _ => url) pages).
Proof.
  intros base containers tag_info sel tags Hsel pages.
  induction pages as [|p pages IH]; intros url acc w Hnet.
  - exists acc, w, []. repeat split.
  - destruct (site_has_next url base) as [next [Hnext Hne]].
    rewrite (page_loop_step base containers tag_info sel tags p pages url acc w
               (site url) next (Hnet _ _) (site_not_empty url) Hsel Hnext Hne).
    cbv zeta.
    destruct (IH next
                (acc ++ map (row_of tags)
                   (find_all [container_tag_of containers]
                      (parse_html (site url))))
                (tick 1 w) Hnet)
      as [data [w' [ev [E [Hl [Hr _]]]]]].
    rewrite E. exists data, w'. eexists. split; [reflexivity|].
    rewrite pages_in_app, requests_in_app, length_app, Hl, Hr.
    repeat split.
Qed.

End Scenario.

Lemma one_to_valid : forall n,
  Forall (fun i => 1 <= i <= Z.of_nat n) (one_to n).
Proof.
  intro n. apply Forall_forall. intros i Hi. unfold one_to in Hi.
  apply in_map_iff in Hi. destruct Hi as [k [<- Hk]]. apply in_seq in Hk. lia.
Qed.

Lemma requests_in_option_lines : forall tag_info i,
  requests_in (option_lines i tag_info) = [].
Proof.
  induction tag_info as [|info rest IH]; intro i; [reflexivity|].
  simpl. apply IH.
Qed.

Lemma pages_in_option_lines : forall tag_info i,
  pages_in (option_lines i tag_info) = [].
Proof.
  induction tag_info as [|info rest IH]; intro i; [reflexivity|].
  simpl. apply IH.
Qed.

Section Answered.

Context {B : Builtins}.

(** The answer "all" selects every content type. *)
Lemma present_options_all : forall tag_info w line rest,
  tag_info <> [] -> stdin w = line :: rest ->
  str_lower line = str "all" ->
  present_options tag_info w
  = (Ret (one_to (List.length tag_info)), with_stdin rest w,
     EPrint PFound :: option_lines 1 tag_info ++ [EInput]).
Proof.
  intros tag_info w line rest Hne Hin Hall.
  destruct tag_info as [|info infos]; [congruence|].
  unfold present_options, bind, print, emit, prompt.
  rewrite Hin. cbn [prompt_loop]. rewrite Hall. reflexivity.
Qed.

Variable site : pystr -> pystr.
Hypothesis site_not_empty : forall u, site u <> [].
Hypothesis site_has_next :
  forall u base, exists next,
    get_next_page (parse_html (site u)) base = Ret (Some next) /\ next <> [].

Lemma main_all_answered : forall url max_pages w line rest parsed,
  urlparse (with_scheme url) = Some parsed ->
  (forall k u, www w k u = HttpOk (site u)) ->
  containers_of (parse_html (site (with_scheme url))) <> [] ->
  stdin w = line :: rest ->
  str_lower line = str "all" ->
  exists w' ev,
    main url max_pages w = (Ret tt, w', ev) /\
    List.length (pages_in ev) = Z.to_nat max_pages /\
    requests_in ev = with_scheme url :: pages_in ev /\
    hd_error (pages_in ev)
    = hd_error (map (fun _ => with_scheme url) (range max_pages)).
Proof.
  intros url max_pages w line rest [scheme netloc] Hparse Hnet Hcont Hin Hall.
  set (url' := with_scheme url) in *.
  set (soup := parse_html (site url')) in *.
  assert (Hti : tag_info_of soup <> [])
    by exact (containers_need_content_types _ Hcont).
  destruct (selected_tags_of_valid (tag_info_of soup)
              (one_to (List.length (tag_info_of soup))) (one_to_valid _))
    as [tags [Hsel _]].
  unfold main. fold url'. rewrite Hparse. unfold or_raise.
  rewrite bind_lift_ret.
  unfold bind at 1. rewrite (fetch_page_ok url' (site url') w (Hnet _ _)).
  pose proof (site_not_empty url') as Hs. cbv iota beta.
  assert (Esoup : parse_html (site url') = soup) by reflexivity.
  clearbody soup.
  destruct (site url') as [|c markup] eqn:Esite; [congruence|].
  rewrite Esoup. unfold analyze_structure.
  rewrite bind_assoc. unfold bind at 1, log at 1, emit at 1.
  rewrite bind_ret.
  destruct (containers_of soup) as [|ct cts] eqn:Ec; [congruence|].
  unfold bind at 1.
  rewrite (present_options_all (tag_info_of soup) (tick 1 w) line rest Hti Hin Hall).
  destruct (one_to (List.length (tag_info_of soup))) as [|i sel] eqn:Eone.
  { destruct (tag_info_of soup); [congruence | discriminate Eone]. }
  destruct (page_loop_all_answered site site_not_empty site_has_next
              (scheme ++ str "://" ++ netloc) (ct :: cts) (tag_info_of soup)
              (i :: sel) tags Hsel (range max_pages) url' []
              (with_stdin rest (tick 1 w)) Hnet)
    as [data [w' [ev [E [Hl [Hr Hh]]]]]].
  unfold bind at 1. rewrite E.
  destruct (save_run netloc data w') as [evs [Es [Ps Rs]]]. rewrite Es.
  exists w'. eexists. split; [reflexivity|].
  rewrite range_length in Hl.
  repeat rewrite ?pages_in_app, ?requests_in_app.
  change (EPrint PFound :: option_lines 1 (tag_info_of soup) ++ [EInput])
    with ([EPrint PFound] ++ option_lines 1 (tag_info_of soup) ++ [EInput]).
  repeat rewrite ?pages_in_app, ?requests_in_app.
  rewrite pages_in_option_lines, requests_in_option_lines, Ps, Rs, Hr.
  simpl. rewrite !app_nil_r. repeat split; assumption.
Qed.

End Answered.

(** C6.  With a budget of [max_pages], the page loop sets out to fetch at
    most [max_pages] pages; when every request is answered and every page
    carries a next link, it fetches exactly [max_pages] pages, starting at
    the given URL, each with one request, after the one request made for
    the analysis of page 1.  (A run whose URL [urlparse] refuses raises
    [ValueError] before its first request, whatever the network would
    answer.) *)
Theorem page_loop_within_budget :
  forall (B : Builtins) url max_pages w,
    0 <= max_pages ->
    let events := snd (main url max_pages w) in
    Z.of_nat (List.length (pages_in events)) <= max_pages /\
    (forall site line rest,
        (forall u, site u <> []) ->
        (forall u base, exists next,
            get_next_page (parse_html (site u)) base = Ret (Some next)
            /\ next <> []) ->
        (forall k u, www w k u = HttpOk (site u)) ->
        containers_of (parse_html (site (with_scheme url))) <> [] ->
        stdin w = line :: rest ->
        str_lower line = str "all" ->
        match urlparse (with_scheme url) with
        | Some _ =>
            Z.of_nat (List.length (pages_in events)) = max_pages /\
            requests_in events = with_scheme url :: pages_in events /\
            hd_error (pages_in events)
            = hd_error (map (fun _ => with_scheme url) (range max_pages))
        | None => main url max_pages w = (Raise ValueError, w, [])
        end).
Proof.
  intros B url max_pages w Hn events. split.
  - unfold events. destruct (main url max_pages w) as [[r w'] ev] eqn:E.
    apply main_pages in E. simpl. lia.
  - intros site line rest Hsite Hnext Hnet Hcont Hin Hall.
    destruct (urlparse (with_scheme url)) as [parsed|] eqn:Hparse.
    + destruct (main_all_answered site Hsite Hnext url max_pages w line rest
                  parsed Hparse Hnet Hcont Hin Hall)
        as [w' [ev [E [Hl [Hr Hh]]]]].
      unfold events. rewrite E. simpl. repeat split; try assumption. lia.
    + unfold main. rewrite Hparse. reflexivity.
Qed.

Lemma budget_two_witness :
  let events := snd (@main B2 (str "x.org") 2 paged_world) in
  Z.of_nat (List.length (pages_in events)) <= 2 /\
  Z.of_nat (List.length (pages_in events)) = 2 /\
  requests_in events = with_scheme (str "x.org") :: pages_in events /\
  hd_error (pages_in events)
  = hd_error (map (fun _ => with_scheme (str "x.org")) (range 2)).
Proof.
  destruct (page_loop_within_budget B2 (str "x.org") 2 paged_world
              ltac:(lia)) as [H1 H2].
  split; [exact H1|].
  apply (H2 (fun _ => str "<html>") (str "ALL") []).
  - intros u. discriminate.
  - intros u base. eexists. split; [vm_compute; reflexivity|].
    destruct base; discriminate.
  - reflexivity.
  - vm_compute. discriminate.
  - reflexivity.
  - reflexivity.
Defined.

Example budget_two_pages :
  let events := snd (@main B2 (str "x.org") 2 paged_world) in
  pages_in events = [str "https://x.org"; str "https://x.org/page/2"] /\
  requests_in events
  = [str "https://x.org"; str "https://x.org"; str "https://x.org/page/2"].
Proof. vm_compute. split; reflexivity. Qed.

(** ** The table written at the end *)

Lemma cell_eqb_eq : forall a b, Pandas.cell_eqb a b = true <-> a = b.
Proof.
  intros [x|] [y|]; simpl; split; intro H; try congruence; try reflexivity.
  - apply str_eqb_eq in H. congruence.
  - inversion H; subst. apply str_eqb_refl.
Qed.

Lemma row_eqb_eq : forall a b, Pandas.row_eqb a b = true <-> a = b.
Proof.
  induction a as [|x a IH]; destruct b as [|y b]; simpl; split; intro H;
    try congruence; try reflexivity.
  - apply andb_true_iff in H. destruct H as [H1 H2].
    apply cell_eqb_eq in H1. apply IH in H2. congruence.
  - inversion H; subst. apply andb_true_iff. split.
    + apply cell_eqb_eq. reflexivity.
    + apply IH. reflexivity.
Qed.

Lemma seen_spec : forall r seen,
  existsb (Pandas.row_eqb r) seen = true <-> In r seen.
Proof.
  intros r seen. rewrite existsb_exists. split.
  - intros [x [Hx E]]. apply row_eqb_eq in E. subst. exact Hx.
  - intro H. exists r. split; [exact H | apply row_eqb_eq; reflexivity].
Qed.

(** [drop_duplicates] keeps each row once. *)
Lemma keep_first_spec : forall l seen,
  NoDup (Pandas.keep_first seen l) /\
  (forall r, In r (Pandas.keep_first seen l) <-> In r l /\ ~ In r seen).
Proof.
  induction l as [|x l IH]; intro seen; simpl.
  - split; [constructor | intro r; tauto].
  - destruct (existsb (Pandas.row_eqb x) seen) eqn:E.
    + apply seen_spec in E. destruct (IH seen) as [Hnd Hin].
      split; [exact Hnd|]. intro r. rewrite Hin. split.
      * intros [H1 H2]. auto.
      * intros [[H1|H1] H2]; [subst; contradiction | auto].
    + assert (Hx : ~ In x seen).
      { intro H. apply seen_spec in H. congruence. }
      destruct (IH (x :: seen)) as [Hnd Hin]. split.
      * constructor; [|exact Hnd]. intro H. apply Hin in H.
        destruct H as [_ H]. apply H. left. reflexivity.
      * intro r. simpl. rewrite Hin. simpl. split.
        -- intros [H|[H1 H2]]; [subst; auto | tauto].
        -- intros [[H|H] H2]; [auto|].
           destruct (Pandas.row_eqb x r) eqn:Er.
           ++ apply row_eqb_eq in Er. auto.
           ++ right. split; [exact H|]. intros [H3|H3]; [|contradiction].
              subst. rewrite (proj2 (row_eqb_eq r r) eq_refl) in Er.
              discriminate.
Qed.

Lemma map_id_on : forall A (f : A -> A) l,
  Forall (fun x => f x = x) l -> map f l = l.
Proof.
  intros A f l H. induction H as [|x l Hx _ IH]; simpl; congruence.
Qed.

Lemma normalize_filled : forall row,
  Forall filled row ->
  map (fun c => match c with Some x => Some x | None => Some NA end)
      (map (fun c => match c with
                     | Some v => if Str.eqb v [] then Some NA else Some v
                     | None => None
                     end) row)
  = row.
Proof.
  intros row H. rewrite map_map. apply map_id_on.
  eapply Forall_impl; [|exact H]. intros c [v [-> Hv]].
  destruct v; [congruence | reflexivity].
Qed.

Lemma clean_text_not_empty : forall t, clean_text t <> [].
Proof.
  intros [s|]; [|discriminate]. rewrite clean_text_some.
  destruct (join (str " ") (words s)); discriminate.
Qed.

Lemma lookup_key : forall k d,
  In k (map fst d) -> exists v, dict_get k d = Some v.
Proof.
  intros k d. unfold dict_get. induction d as [|[k' v'] d IH]; simpl.
  - intros [].
  - intros [H|H].
    + subst. rewrite str_eqb_refl. eauto.
    + destruct (Str.eqb k' k); eauto.
Qed.

(** Under a label some selected tag writes, a built row holds a value
    that is not blank; under any other label it holds what it held. *)
Lemma fold_set_written : forall article tags row k,
  In k (map snd tags) ->
  exists v,
    dict_get k
      (fold_left (fun r tc => dict_set (snd tc) (field_of article (fst tc)) r)
                 tags row) = Some v
    /\ v <> [].
Proof.
  intros article tags. induction tags as [|[t c] tags IH]; intros row k Hk.
  - destruct Hk.
  - simpl.
    destruct (existsb (Str.eqb k) (map snd tags)) eqn:Ex.
    + apply existsb_exists in Ex. destruct Ex as [k' [Hk' E]].
      apply str_eqb_eq in E. subst k'. apply IH. exact Hk'.
    + assert (Hno : forall tc, In tc tags -> snd tc <> k).
      { intros tc Htc E.
        assert (existsb (Str.eqb k) (map snd tags) = true).
        { apply existsb_exists. exists k. split.
          - rewrite <- E. apply in_map. exact Htc.
          - apply str_eqb_refl. }
        congruence. }
      rewrite fold_set_untouched by exact Hno.
      destruct Hk as [Hk|Hk].
      * simpl in Hk. subst c. rewrite dict_get_set_same.
        eexists. split; [reflexivity|]. apply clean_text_not_empty.
      * exfalso. apply in_map_iff in Hk. destruct Hk as [tc [E Htc]].
        exact (Hno tc Htc E).
Qed.

Lemma row_of_keys : forall tags article k,
  In k (map fst (row_of tags article)) -> In k (map snd tags).
Proof.
  intros tags article k Hk.
  destruct (existsb (Str.eqb k) (map snd tags)) eqn:Ex.
  - apply existsb_exists in Ex. destruct Ex as [k' [Hk' E]].
    apply str_eqb_eq in E. subst k'. exact Hk'.
  - exfalso. apply lookup_key in Hk. destruct Hk as [v Hv].
    unfold row_of in Hv. rewrite fold_set_untouched in Hv; [discriminate|].
    intros tc Htc E.
    assert (existsb (Str.eqb k) (map snd tags) = true).
    { apply existsb_exists. exists k. split.
      - rewrite <- E. apply in_map. exact Htc.
      - apply str_eqb_refl. }
    congruence.
Qed.

Lemma add_keys_In : forall r cols c,
  In c (Pandas.add_keys cols r) -> In c cols \/ In c (map fst r).
Proof.
  unfold Pandas.add_keys. induction r as [|[k v] r IH]; intros cols c H.
  - left. exact H.
  - simpl in H. simpl.
    destruct (existsb (Str.eqb k) cols).
    + apply IH in H. tauto.
    + apply IH in H. destruct H as [H|H]; [|tauto].
      apply in_app_or in H. destruct H as [H|[H|[]]]; auto.
Qed.

Lemma columns_In : forall data cols c,
  In c (fold_left Pandas.add_keys data cols) ->
  In c cols \/ exists r, In r data /\ In c (map fst r).
Proof.
  induction data as [|r data IH]; intros cols c H.
  - left. exact H.
  - simpl in H. apply IH in H. destruct H as [H|[r' [Hr' Hc]]].
    + apply add_keys_In in H. destruct H as [H|H]; [auto|].
      right. exists r. split; [left; reflexivity | exact H].
    + right. exists r'. split; [right; exact Hr' | exact Hc].
Qed.

(** The table of rows built under one selection has no absent and no
    blank cell. *)
Lemma DataFrame_filled : forall tag_info sel data,
  Forall (built_from tag_info sel) data ->
  Forall (Forall filled) (cells (Pandas.DataFrame data)).
Proof.
  intros tag_info sel data H. unfold Pandas.DataFrame. simpl.
  apply Forall_forall. intros row Hrow.
  apply in_map_iff in Hrow. destruct Hrow as [r [<- Hr]].
  apply Forall_forall. intros cell Hcell.
  apply in_map_iff in Hcell. destruct Hcell as [c [<- Hc]].
  apply columns_In in Hc. destruct Hc as [[]|[r' [Hr' Hc]]].
  rewrite Forall_forall in H.
  destruct (H r Hr) as [tags [article [Et ->]]].
  destruct (H r' Hr') as [tags' [article' [Et' ->]]].
  assert (tags' = tags) by congruence. subst tags'.
  apply row_of_keys in Hc.
  destruct (fold_set_written article tags [] c Hc) as [v [Ev Hv]].
  exists v. split; [exact Ev | exact Hv].
Qed.

Lemma normalized_table : forall tag_info sel data,
  Forall (built_from tag_info sel) data ->
  Pandas.fillna NA
    (Pandas.replace [] NA (Pandas.drop_duplicates (Pandas.DataFrame data)))
  = deduplicated data.
Proof.
  intros tag_info sel data H.
  unfold Pandas.fillna, Pandas.replace, Pandas.map_cells,
    Pandas.drop_duplicates, deduplicated.
  cbn [columns cells]. f_equal.
  rewrite map_map. apply map_id_on. apply Forall_forall. intros row Hrow.
  apply normalize_filled.
  apply (proj2 (keep_first_spec _ _)) in Hrow. destruct Hrow as [Hrow _].
  pose proof (DataFrame_filled tag_info sel data H) as Hf.
  rewrite Forall_forall in Hf. exact (Hf row Hrow).
Qed.

Lemma deduplicated_spec : forall tag_info sel data,
  Forall (built_from tag_info sel) data ->
  NoDup (cells (deduplicated data)) /\
  Forall (Forall filled) (cells (deduplicated data)) /\
  (forall row, In row (cells (deduplicated data))
               <-> In row (cells (Pandas.DataFrame data))).
Proof.
  intros tag_info sel data H. unfold deduplicated. cbn [cells].
  destruct (keep_first_spec (cells (Pandas.DataFrame data)) []) as [Hnd Hin].
  split; [exact Hnd|]. split.
  - pose proof (DataFrame_filled tag_info sel data H) as Hf.
    rewrite Forall_forall in Hf. apply Forall_forall. intros row Hrow.
    apply Hf. apply Hin in Hrow. tauto.
  - intro row. rewrite Hin. simpl. tauto.
Qed.

Section Persist.

Context {B : Builtins}.

Lemma save_tables : forall tag_info sel netloc all_data w,
  Forall (built_from tag_info sel) all_data ->
  tables_in (snd (save netloc all_data w))
  = match all_data with
    | [] => []
    | _ => [deduplicated all_data]
    end.
Proof.
  intros tag_info sel netloc all_data w H.
  destruct all_data as [|r rows]; [reflexivity|].
  unfold save. rewrite (normalized_table tag_info sel (r :: rows) H).
  reflexivity.
Qed.

Lemma scrape_page_rows : forall soup containers tag_info sel w data w' ev,
  scrape_page soup containers tag_info sel w = (Ret data, w', ev) ->
  Forall (built_from tag_info sel) data.
Proof.
  intros soup containers tag_info sel w data w' ev H.
  rewrite scrape_page_extract, extract_run in H.
  destruct (selected_tags_of tag_info sel) as [tags|e] eqn:E;
    [|discriminate H].
  inversion H; subst. apply Forall_forall. intros r Hr.
  apply in_map_iff in Hr. destruct Hr as [a [<- _]].
  exists tags, a. auto.
Qed.

(** Every record the loop gathers was built under the one selection. *)
Lemma page_loop_rows :
  forall base containers tag_info sel pages url acc w data w' ev,
    page_loop base containers tag_info sel pages url acc w
    = (Ret data, w', ev) ->
    Forall (built_from tag_info sel) acc ->
    Forall (built_from tag_info sel) data.
Proof.
  intros base containers tag_info sel pages.
  induction pages as [|p pages IH]; intros url acc w data w' ev H Hacc.
  - inversion H; subst. exact Hacc.
  - simpl in H. apply bind_inv in H.
    destruct H as [[[] [w1 [ev1 [ev2 [_ [H2 _]]]]]] | [e [_ H1]]];
      [|discriminate H1].
    apply bind_inv in H2.
    destruct H2 as [[html [w2 [ev3 [ev4 [_ [H3 _]]]]]] | [e [_ H2]]];
      [|discriminate H2].
    destruct html as [[|c markup]|];
      try (inversion H3; subst; exact Hacc).
    apply bind_inv in H3.
    destruct H3 as [[rows [w3 [ev5 [ev6 [H3 [H4 _]]]]]] | [e [_ H3]]];
      [|discriminate H3].
    apply scrape_page_rows in H3.
    assert (Hall : Forall (built_from tag_info sel) (acc ++ rows))
      by (apply Forall_app; split; assumption).
    apply bind_inv in H4.
    destruct H4 as [[next [wn [evn [ev9 [_ [H4 _]]]]]] | [e [_ H4]]];
      [|discriminate H4].
    destruct next as [[|d next]|];
      try (unfold bind, log, emit, ret in H4; inversion H4; subst;
           exact Hall).
    apply bind_inv in H4.
    destruct H4 as [[[] [w4 [ev7 [ev8 [_ [H5 _]]]]]] | [e [_ H4]]];
      [|discriminate H4].
    exact (IH _ _ _ _ _ _ H5 Hall).
Qed.

Lemma main_tables : forall url max_pages w r w' ev,
  main url max_pages w = (r, w', ev) ->
  tables_in ev = [] \/
  exists tag_info sel data,
    Forall (built_from tag_info sel) data /\
    tables_in ev = [deduplicated data].
Proof.
  intros url max_pages w r w' ev H. unfold main in H.
  destruct (urlparse (with_scheme url)) as [[scheme netloc]|];
    unfold or_raise in H;
    [rewrite bind_lift_ret in H
    | rewrite bind_lift_raise in H; inversion H; subst; left; reflexivity].
  apply bind_inv in H.
  destruct H as [[html [w1 [ev1 [ev2 [H1 [H2 ->]]]]]] | [e [H1 _]]].
  - apply fetch_page_frame in H1. destruct H1 as [_ [_ Hp1]].
    rewrite tables_in_app, (plain_tables _ Hp1). simpl.
    destruct html as [[|c markup]|];
      try (inversion H2; subst; left; reflexivity).
    unfold analyze_structure in H2. rewrite bind_assoc in H2.
    apply bind_inv in H2.
    destruct H2 as [[[] [w2 [ev3 [ev4 [H2 [H3 ->]]]]]] | [e [H2 _]]];
      [|discriminate H2].
    inversion H2; subst w2 ev3. clear H2. rewrite bind_ret in H3.
    rewrite tables_in_app. simpl.
    destruct (containers_of (parse_html (c :: markup))) as [|ct cts].
    + inversion H3; subst. left. reflexivity.
    + apply bind_inv in H3.
      destruct H3 as [[sel [w3 [ev5 [ev6 [H3 [H4 ->]]]]]] | [e [H3 _]]].
      * apply present_options_frame in H3. destruct H3 as [_ [_ Hp5]].
        rewrite tables_in_app, (plain_tables _ Hp5). simpl.
        destruct sel as [|i sel]; [inversion H4; subst; left; reflexivity|].
        apply bind_inv in H4.
        destruct H4 as [[data [w4 [ev7 [ev8 [H4 [H5 ->]]]]]] | [e [H4 _]]].
        -- pose proof (page_loop_rows _ _ _ _ _ _ _ _ _ _ _ H4
                         (Forall_nil _)) as Hrows.
           apply page_loop_bound in H4. destruct H4 as [_ [Ht _]].
           rewrite tables_in_app, Ht. simpl.
           pose proof (save_tables _ _ netloc data w4 Hrows) as Hs.
           rewrite H5 in Hs. simpl in Hs. rewrite Hs.
           destruct data as [|row rows]; [left; reflexivity|].
           right. eexists _, _, _. split; [exact Hrows | reflexivity].
        -- apply page_loop_bound in H4. destruct H4 as [_ [Ht _]].
           left. exact Ht.
      * apply present_options_frame in H3. destruct H3 as [_ [_ Hp5]].
        left. exact (plain_tables _ Hp5).
  - apply fetch_page_frame in H1. destruct H1 as [_ [_ Hp1]].
    left. exact (plain_tables _ Hp1).
Qed.

End Persist.

(** The table [save] writes for any records: the rows of their table, each
    kept once, then every cell normalized. *)
Lemma save_any_tables : forall netloc all_data w,
  all_data <> [] ->
  exists df,
    tables_in (snd (save netloc all_data w)) = [df] /\
    cells df
    = map (map normalize_cell)
          (Pandas.keep_first [] (cells (Pandas.DataFrame all_data))).
Proof.
  intros netloc all_data w Hne. destruct all_data as [|r rows]; [congruence|].
  eexists. split; [reflexivity|].
  unfold Pandas.fillna, Pandas.replace, Pandas.map_cells,
    Pandas.drop_duplicates. cbn [cells]. rewrite map_map.
  apply map_ext. intro row. rewrite map_map. apply map_ext.
  intros [[|c v]|]; reflexivity.
Qed.

(** C7.  In every table a run writes, no two rows are equal and no cell is
    absent or blank.  The table written for gathered records holds the
    rows of their table, each kept once (the first of equal rows), with
    every absent or blank cell turned into the sentinel. *)
Theorem persisted_rows_distinct_and_filled :
  forall (B : Builtins) url max_pages w,
    Forall (fun df => NoDup (cells df) /\ Forall (Forall filled) (cells df))
           (tables_in (snd (main url max_pages w))) /\
    (forall netloc all_data w0,
        all_data <> [] ->
        let gathered := cells (Pandas.DataFrame all_data) in
        exists df kept,
          tables_in (snd (save netloc all_data w0)) = [df] /\
          cells df = map (map normalize_cell) kept /\
          NoDup kept /\
          (forall row, In row kept <-> In row gathered) /\
          Forall (Forall filled) (cells df)).
Proof.
  intros B url max_pages w. split.
  - destruct (main url max_pages w) as [[r w'] ev] eqn:E. simpl.
    destruct (main_tables _ _ _ _ _ _ E)
      as [-> | [tag_info [sel [data [Hrows ->]]]]]; [constructor|].
    destruct (deduplicated_spec _ _ _ Hrows) as [Hnd [Hf _]].
    repeat constructor; assumption.
  - intros netloc all_data w0 Hne gathered.
    destruct (save_any_tables netloc all_data w0 Hne) as [df [Ht Hc]].
    destruct (keep_first_spec gathered []) as [Hnd Hin].
    exists df, (Pandas.keep_first [] gathered).
    split; [exact Ht|]. split; [exact Hc|]. split; [exact Hnd|]. split.
    + intro row. rewrite Hin. simpl. tauto.
    + rewrite Hc. apply Forall_forall. intros row Hrow.
      apply in_map_iff in Hrow. destruct Hrow as [row0 [<- _]].
      apply Forall_forall. intros c Hc'.
      apply in_map_iff in Hc'. destruct Hc' as [c0 [<- _]].
      destruct c0 as [[|x v]|]; eexists; split; try reflexivity; discriminate.
Qed.

Lemma persisted_rows_witness :
  exists df kept,
    tables_in (snd (save (str "x.org") repeated_rows paged_world)) = [df] /\
    cells df = map (map normalize_cell) kept /\
    NoDup kept /\
    (forall row, In row kept
                 <-> In row (cells (Pandas.DataFrame repeated_rows))) /\
    Forall (Forall filled) (cells df).
Proof.
  apply (proj2 (persisted_rows_distinct_and_filled
                  B3 (str "x.org") 2 paged_world)
           (str "x.org") repeated_rows paged_world).
  discriminate.
Defined.

Example persisted_table :
  tables_in (snd (@main B3 (str "x.org") 2 paged_world))
  = [ {| columns := [str "H2"; str "P"];
         cells := [[Some (str "Same"); Some (str "Body text")];
                   [Some (str "Other"); Some (str "N/A")]] |} ].
Proof. vm_compute. reflexivity. Qed.

(** * Further properties *)

(** ** The page fetcher, in every case *)

Lemma sleeps_in_app : forall a b,
  sleeps_in (a ++ b) = sleeps_in a ++ sleeps_in b.
Proof. intros. apply flat_map_app. Qed.

Lemma repeat_snoc : forall A (x : A) n, repeat x n ++ [x] = x :: repeat x n.
Proof.
  intros A x n. induction n as [|n IH]; [reflexivity|].
  simpl. rewrite IH. reflexivity.
Qed.

(** Whatever the network does, the attempts left make at most one request
    each, all for the given URL, and pause only after a request. *)
Lemma fetch_attempts_requests : forall url retries delay attempts w,
  exists k,
    let '(r, w', ev) := fetch_attempts url retries delay attempts w in
    requests_in ev = repeat url k /\
    (k <= List.length attempts)%nat /\
    w' = tick k w /\
    (List.length (sleeps_in ev) < S k)%nat /\
    (k = 0%nat -> ev = []).
Proof.
  intros url retries delay attempts.
  induction attempts as [|a attempts IH]; intro w.
  - exists 0%nat. simpl. rewrite tick_0. repeat split; lia.
  - cbn [fetch_attempts]. unfold try_except, bind at 1, http_get.
    set (w1 := {| www := www w; clock := S (clock w); stdin := stdin w;
                  timer_max := timer_max w |}).
    assert (Ew1 : w1 = tick 1 w) by reflexivity.
    destruct (www w (clock w) url) eqn:Eo; cbn [is_request_exception].
    + exists 1%nat. repeat split; simpl; lia.
    + unfold bind at 1, log at 1, emit at 1.
      destruct (a + 1 =? retries).
      * exists 1%nat. simpl. repeat split; simpl; lia.
      * destruct (sleep_outcome delay w1) as [[Hd [Ht Es]] | [_ [e Es]]].
        -- rewrite (bind_sleep_ok _ delay _ w1 Hd Ht).
           destruct (IH w1) as [k Hk].
           destruct (fetch_attempts url retries delay attempts w1)
             as [[r w'] ev].
           destruct Hk as [Hr [Hle [Hw [Hs _]]]].
           exists (S k). simpl. rewrite Hr. repeat split; try lia.
           rewrite Hw, Ew1. unfold tick. simpl. f_equal. lia.
        -- rewrite (bind_sleep_raise _ delay _ w1 e Es).
           exists 1%nat. simpl. repeat split; simpl; lia.
    + exists 1%nat. repeat split; simpl; lia.
Qed.

(** The attempts [a, ..., a+n-1] of a fetch bounded by [a+n]: the pauses
    stand between the requests, one between any two. *)
Lemma fetch_attempts_pauses : forall url retries delay n a w,
  Z.of_nat (a + n) = retries ->
  exists k,
    let '(r, w', ev) :=
      fetch_attempts url retries delay (map Z.of_nat (seq a n)) w in
    requests_in ev = repeat url k /\
    (k <= n)%nat /\
    (n = 0 \/ 1 <= k)%nat /\
    w' = tick k w /\
    sleeps_in ev
    = (if (0 <=? delay) && takes_pause w delay
       then repeat delay (k - 1) else []) /\
    ((0 <=? delay) && takes_pause w delay = false -> (k <= 1)%nat).
Proof.
  intros url retries delay n.
  induction n as [|n IH]; intros a w Hr.
  - exists 0%nat. simpl. rewrite tick_0.
    destruct ((0 <=? delay) && takes_pause w delay);
      repeat split; auto; lia.
  - simpl seq. simpl map. cbn [fetch_attempts].
    unfold try_except, bind at 1, http_get.
    set (w1 := {| www := www w; clock := S (clock w); stdin := stdin w;
                  timer_max := timer_max w |}).
    assert (Ew1 : w1 = tick 1 w) by reflexivity.
    assert (Et1 : takes_pause w1 delay = takes_pause w delay) by reflexivity.
    destruct (www w (clock w) url) eqn:Eo; cbn [is_request_exception].
    + exists 1%nat. simpl.
      destruct ((0 <=? delay) && takes_pause w delay);
        repeat split; auto; lia.
    + unfold bind at 1, log at 1, emit at 1.
      destruct (Z.of_nat a + 1 =? retries) eqn:Elast.
      * exists 1%nat. simpl.
        destruct ((0 <=? delay) && takes_pause w delay);
          repeat split; auto; lia.
      * apply Z.eqb_neq in Elast.
        destruct (sleep_outcome delay w1) as [[Hd [Ht Es]] | [Hbad [e Es]]].
        -- rewrite (bind_sleep_ok _ delay _ w1 Hd Ht).
           destruct (IH (S a) w1) as [k Hk]; [lia|].
           destruct (fetch_attempts url retries delay
                       (map Z.of_nat (seq (S a) n)) w1) as [[r w'] ev].
           destruct Hk as [Hreq [Hle [Hpos [Hw [Hs _]]]]].
           rewrite Et1 in Hs, Ht.
           replace (0 <=? delay) with true in *
             by (symmetry; apply Z.leb_le; exact Hd).
           rewrite Ht in *. cbn [andb] in *.
           exists (S k). simpl. rewrite Hreq, Hs.
           split; [reflexivity|]. split; [lia|]. split; [right; lia|].
           split; [rewrite Hw, Ew1; unfold tick; simpl; f_equal; lia|].
           split; [|discriminate].
           destruct Hpos as [Hn|Hk]; [lia|].
           destruct k as [|k]; [lia|]. simpl. rewrite Nat.sub_0_r.
           reflexivity.
        -- rewrite (bind_sleep_raise _ delay _ w1 e Es).
           rewrite Et1 in Hbad.
           assert (Hno : (0 <=? delay) && takes_pause w delay = false).
           { destruct Hbad as [Hneg|Hno].
             - replace (0 <=? delay) with false
                 by (symmetry; apply Z.leb_gt; exact Hneg).
               reflexivity.
             - rewrite Hno. apply andb_false_r. }
           rewrite Hno. exists 1%nat. simpl. repeat split; auto; lia.
    + exists 1%nat. simpl.
      destruct ((0 <=? delay) && takes_pause w delay);
        repeat split; auto; lia.
Qed.

(** X1.  Whatever the network answers, a fetch bounded by [retries] makes
    at most [retries] requests (none when [retries] is not positive), all
    for the given URL, and reads no input.  It pauses between requests
    and nowhere else: one pause of [delay] less than it makes requests,
    none when it makes no request.  With a [delay] that is negative or
    that the timer does not take, it never pauses and makes one request
    at most. *)
Theorem fetch_page_request_bound : forall url retries delay w,
  exists k,
    let '(r, w', ev) := fetch_page url retries delay w in
    requests_in ev = repeat url k /\
    (k <= Z.to_nat retries)%nat /\
    clock w' = (k + clock w)%nat /\
    stdin w' = stdin w /\
    sleeps_in ev
    = (if (0 <=? delay) && takes_pause w delay
       then repeat delay (k - 1) else []) /\
    ((0 <=? delay) && takes_pause w delay = false -> (k <= 1)%nat) /\
    (retries <= 0 -> r = Ret None /\ ev = []).
Proof.
  intros url retries delay w. unfold fetch_page, range.
  destruct (Z_le_gt_dec retries 0) as [Hneg|Hpos].
  - replace (Z.to_nat retries) with 0%nat by lia. exists 0%nat. simpl.
    destruct ((0 <=? delay) && takes_pause w delay);
      repeat split; auto; lia.
  - destruct (fetch_attempts_pauses url retries delay (Z.to_nat retries) 0 w)
      as [k Hk]; [simpl; lia|].
    exists k.
    destruct (fetch_attempts url retries delay
                (map Z.of_nat (seq 0 (Z.to_nat retries))) w)
      as [[r w'] ev].
    destruct Hk as [Hr [Hle [_ [Hw [Hs Hd]]]]]. subst w'.
    split; [exact Hr|]. split; [exact Hle|].
    split; [reflexivity|]. split; [reflexivity|]. split; [exact Hs|].
    split; [exact Hd | lia].
Qed.

Example fetch_page_pauses_between :
  sleeps_in (snd (fetch_page (str "u") 3 2 demo_world)) = [2; 2] /\
  sleeps_in (snd (fetch_page (str "u") 3 2 flaky_world)) = [2] /\
  fetch_page (str "u") 3 (10 ^ 10) demo_world
  = (Raise OtherError, tick 1 demo_world,
     [EGet (str "u"); ELog WARNING (LAttemptFailed 1 (str "u"))]).
Proof. repeat split; reflexivity. Qed.

(** After [k] requests that raise [RequestException], the outcome of the
    next request, when it is not one more such failure, is the outcome of
    the fetch. *)
Lemma fetch_attempts_decided : forall url retries delay k n a w,
  0 <= delay ->
  takes_pause w delay = true ->
  Z.of_nat (a + n) = retries ->
  (k < n)%nat ->
  (forall j, (j < k)%nat ->
             www w (j + clock w)%nat url = HttpRequestException) ->
  www w (k + clock w)%nat url <> HttpRequestException ->
  exists ev,
    fetch_attempts url retries delay (map Z.of_nat (seq a n)) w
    = (match www w (k + clock w)%nat url with
       | HttpOk body => Ret (Some body)
       | _ => Raise OtherError
       end, tick (S k) w, ev) /\
    requests_in ev = repeat url (S k) /\
    sleeps_in ev = repeat delay k.
Proof.
  intros url retries delay k.
  induction k as [|k IH]; intros n a w Hd Ht Hr Hk Hfail Hend.
  - destruct n as [|n]; [lia|]. simpl seq. simpl map. cbn [fetch_attempts].
    unfold try_except, bind at 1, http_get. simpl in Hend.
    change (0 + clock w)%nat with (clock w).
    destruct (www w (clock w) url) eqn:Eo; [|congruence|].
    + eexists. split; [reflexivity|]. split; reflexivity.
    + eexists. split; [reflexivity|]. split; reflexivity.
  - destruct n as [|n]; [lia|]. simpl seq. simpl map. cbn [fetch_attempts].
    unfold try_except, bind at 1, http_get.
    pose proof (Hfail 0%nat ltac:(lia)) as H0. simpl in H0. rewrite H0.
    cbn [is_request_exception].
    unfold bind at 1, log at 1, emit at 1.
    destruct (Z.of_nat a + 1 =? retries) eqn:Elast;
      [apply Z.eqb_eq in Elast; lia|].
    set (w1 := {| www := www w; clock := S (clock w); stdin := stdin w;
                  timer_max := timer_max w |}).
    rewrite (bind_sleep_ok _ delay _ w1 Hd Ht).
    destruct (IH n (S a) w1) as [ev [E [Hreq Hsl]]].
    + exact Hd.
    + exact Ht.
    + lia.
    + lia.
    + intros j Hj. simpl. rewrite Nat.add_succ_r. apply (Hfail (S j)). lia.
    + simpl. rewrite Nat.add_succ_r. exact Hend.
    + simpl in E. rewrite Nat.add_succ_r in E.
      change (S (k + clock w)) with (S k + clock w)%nat in E.
      rewrite E. eexists. split.
      * f_equal. f_equal. unfold tick, w1. simpl. f_equal. lia.
      * simpl. rewrite Hreq, Hsl. split; reflexivity.
Qed.

(** X2.  When the first [k] requests raise [RequestException] and the next
    one is answered, with [k] below the bound and a pause [delay] that is
    not negative and that the timer takes, the fetch returns the answer
    after [k + 1] requests and [k] pauses of [delay]. *)
Theorem fetch_page_returns_first_answer :
  forall url retries delay w k body,
    0 <= delay ->
    takes_pause w delay = true ->
    Z.of_nat k < retries ->
    (forall j, (j < k)%nat ->
               www w (j + clock w)%nat url = HttpRequestException) ->
    www w (k + clock w)%nat url = HttpOk body ->
    exists ev,
      fetch_page url retries delay w = (Ret (Some body), tick (S k) w, ev) /\
      requests_in ev = repeat url (S k) /\
      sleeps_in ev = repeat delay k.
Proof.
  intros url retries delay w k body Hd Ht Hk Hfail Hok.
  unfold fetch_page, range.
  destruct (fetch_attempts_decided url retries delay k (Z.to_nat retries) 0 w)
    as [ev [E H]];
    [exact Hd | exact Ht | simpl; lia | lia | exact Hfail | congruence |].
  rewrite Hok in E. exists ev. split; [exact E | exact H].
Qed.

Lemma fetch_page_first_answer_witness :
  exists ev,
    fetch_page (str "u") 3 2 flaky_world
    = (Ret (Some (str "<html>")), tick 2 flaky_world, ev) /\
    requests_in ev = repeat (str "u") 2 /\
    sleeps_in ev = repeat 2 1.
Proof.
  apply (fetch_page_returns_first_answer (str "u") 3 2 flaky_world 1).
  - lia.
  - reflexivity.
  - lia.
  - intros j Hj. assert (j = 0%nat) by lia. subst j. reflexivity.
  - reflexivity.
Defined.

(** X3.  An error of a request that is not a [RequestException] is not
    retried: the fetch raises it at once, after the [k] failed requests
    before it and their [k] pauses, for a pause [delay] that is not
    negative and that the timer takes. *)
Theorem fetch_page_raises_other_errors :
  forall url retries delay w k,
    0 <= delay ->
    takes_pause w delay = true ->
    Z.of_nat k < retries ->
    (forall j, (j < k)%nat ->
               www w (j + clock w)%nat url = HttpRequestException) ->
    www w (k + clock w)%nat url = HttpOtherError ->
    exists ev,
      fetch_page url retries delay w = (Raise OtherError, tick (S k) w, ev) /\
      requests_in ev = repeat url (S k) /\
      sleeps_in ev = repeat delay k.
Proof.
  intros url retries delay w k Hd Ht Hk Hfail Herr.
  unfold fetch_page, range.
  destruct (fetch_attempts_decided url retries delay k (Z.to_nat retries) 0 w)
    as [ev [E H]];
    [exact Hd | exact Ht | simpl; lia | lia | exact Hfail | congruence |].
  rewrite Herr in E. exists ev. split; [exact E | exact H].
Qed.

Lemma fetch_page_other_error_witness :
  exists ev,
    fetch_page (str "u") 3 2 broken_world
    = (Raise OtherError, tick 1 broken_world, ev) /\
    requests_in ev = repeat (str "u") 1 /\
    sleeps_in ev = repeat 2 0.
Proof.
  apply (fetch_page_raises_other_errors (str "u") 3 2 broken_world 0).
  - lia.
  - reflexivity.
  - lia.
  - intros j Hj. lia.
  - reflexivity.
Defined.

(** The pauses and the last line of a fetch whose every request fails. *)
Lemma fetch_attempts_exhausted : forall url retries delay n a w,
  0 <= delay ->
  takes_pause w delay = true ->
  Z.of_nat (a + S n) = retries ->
  (forall k, www w k url = HttpRequestException) ->
  exists r w' ev,
    fetch_attempts url retries delay (map Z.of_nat (seq a (S n))) w
    = (r, w', ev) /\
    sleeps_in ev = repeat delay n /\
    last ev (EGet url) = ELog ERROR (LFetchFailed url retries).
Proof.
  intros url retries delay n. induction n as [|n IH]; intros a w Hd Ht Ha Hf.
  - simpl seq. simpl map. cbn [fetch_attempts].
    unfold try_except, bind at 1, http_get. rewrite Hf.
    cbn [is_request_exception].
    unfold bind at 1, log at 1, emit at 1.
    replace (Z.of_nat a + 1 =? retries) with true
      by (symmetry; apply Z.eqb_eq; lia).
    unfold bind, log, emit, ret.
    simpl. eexists _, _, _. split; [reflexivity|]. split; reflexivity.
  - remember (S n) as m. simpl seq. simpl map. cbn [fetch_attempts].
    unfold try_except, bind at 1, http_get. rewrite Hf.
    cbn [is_request_exception].
    unfold bind at 1, log at 1, emit at 1.
    replace (Z.of_nat a + 1 =? retries) with false
      by (symmetry; apply Z.eqb_neq; lia).
    set (w1 := {| www := www w; clock := S (clock w); stdin := stdin w;
                  timer_max := timer_max w |}).
    rewrite (bind_sleep_ok _ delay _ w1 Hd Ht).
    subst m.
    destruct (IH (S a) w1) as [r [w' [ev [E [Hs Hl]]]]];
      [exact Hd | exact Ht | lia | exact Hf |].
    rewrite E. eexists _, _, _. split; [reflexivity|].
    simpl. rewrite Hs. split; [reflexivity|].
    destruct ev as [|e ev]; [discriminate Hl | exact Hl].
Qed.

(** X4.  On a URL whose every request raises [RequestException], the
    fetch pauses [delay] between attempts and not after the last one:
    [retries - 1] pauses for [retries] requests, and the line that reports
    the failure is the last event.  With a negative [delay] and more than
    one attempt allowed, the pause after the first failure raises
    [ValueError]: the fetch makes one request and logs no failure of the
    fetch. *)
Theorem fetch_page_pauses_between_attempts : forall url retries delay w,
  0 < retries ->
  (forall k, www w k url = HttpRequestException) ->
  (0 <= delay -> takes_pause w delay = true ->
   let ev := snd (fetch_page url retries delay w) in
   sleeps_in ev = repeat delay (Z.to_nat retries - 1) /\
   last ev (EGet url) = ELog ERROR (LFetchFailed url retries)) /\
  (delay < 0 -> 1 < retries ->
   fetch_page url retries delay w
   = (Raise ValueError, tick 1 w,
      [EGet url; ELog WARNING (LAttemptFailed 1 url)])).
Proof.
  intros url retries delay w Hr Hfail. unfold fetch_page, range. split.
  - intros Hd Ht.
    destruct (Z.to_nat retries) as [|n] eqn:En; [lia|].
    destruct (fetch_attempts_exhausted url retries delay n 0%nat w)
      as [r [w' [ev [E [Hs Hl]]]]];
      [exact Hd | exact Ht | simpl; lia | exact Hfail |].
    rewrite E. simpl. split.
    + rewrite Hs. f_equal. lia.
    + exact Hl.
  - intros Hd Hmore.
    destruct (Z.to_nat retries) as [|n] eqn:En; [lia|].
    simpl seq. simpl map. cbn [fetch_attempts].
    unfold try_except, bind at 1, http_get. rewrite Hfail.
    cbn [is_request_exception].
    unfold bind at 1, log at 1, emit at 1.
    replace (0 + 1 =? retries) with false
      by (symmetry; apply Z.eqb_neq; lia).
    rewrite (bind_sleep_raise _ delay _ _ ValueError
               (sleep_negative delay _ Hd)).
    reflexivity.
Qed.

Lemma fetch_page_pauses_witness :
  (let ev := snd (fetch_page (str "u") 3 2 demo_world) in
   sleeps_in ev = repeat 2 (Z.to_nat 3 - 1) /\
   last ev (EGet (str "u")) = ELog ERROR (LFetchFailed (str "u") 3)) /\
  fetch_page (str "u") 2 (-1) demo_world
  = (Raise ValueError, tick 1 demo_world,
     [EGet (str "u"); ELog WARNING (LAttemptFailed 1 (str "u"))]).
Proof.
  split.
  - apply (fetch_page_pauses_between_attempts (str "u") 3 2 demo_world);
      [lia | reflexivity | lia | reflexivity].
  - apply (fetch_page_pauses_between_attempts (str "u") 2 (-1) demo_world);
      [lia | reflexivity | lia | lia].
Defined.

(** ** [clean_text], applied twice *)

(** X5.  Cleaning a cleaned text changes nothing. *)
Theorem clean_text_idempotent : forall text,
  clean_text (Some (clean_text text)) = clean_text text.
Proof.
  intros [s|]; [|reflexivity].
  rewrite (clean_text_some s).
  destruct (join (str " ") (words s)) as [|c t] eqn:Ej; [reflexivity|].
  rewrite clean_text_some, <- Ej, (words_join _ (words_wf s)), Ej.
  reflexivity.
Qed.

(** ** [analyze_structure], entry by entry *)

Lemma is_tag_member : forall t names e,
  In t names -> is_tag [t] e = true -> is_tag names e = true.
Proof.
  intros t names [s|nm a cs] Ht H; simpl in *; [discriminate|].
  rewrite orb_false_r in H. apply existsb_exists. exists t. auto.
Qed.

(** X6.  The content-type list is empty exactly when the document holds
    no content tag, and then the container list is empty too. *)
Theorem no_content_tags_no_inventory : forall soup,
  (tag_info_of soup = [] <-> find_all content_tags soup = []) /\
  (find_all content_tags soup = [] -> containers_of soup = []).
Proof.
  intro soup.
  assert (H1 : find_all content_tags soup = [] -> tag_info_of soup = []).
  { intro Hnone. destruct (tag_info_of soup) as [|info infos] eqn:E;
      [reflexivity|].
    exfalso. assert (Hin : In info (tag_info_of soup))
      by (rewrite E; left; reflexivity).
    unfold tag_info_of in Hin. apply filter_In in Hin. destruct Hin as [Hin _].
    apply in_flat_map in Hin. destruct Hin as [t [Ht Hin]].
    destruct (find_all [t] soup) as [|e es] eqn:Ee; [destruct Hin|].
    assert (He : In e (find_all [t] soup)) by (rewrite Ee; left; reflexivity).
    apply find_all_descendant in He. destruct He as [Hd Htag].
    assert (Hx : In e (find_all content_tags soup)).
    { apply find_all_descendant. split; [exact Hd|].
      exact (is_tag_member t content_tags e Ht Htag). }
    rewrite Hnone in Hx. destruct Hx. }
  split; [split; [|exact H1]|].
  - intro Hnil.
    destruct (find_all content_tags soup) as [|d ds] eqn:Ed; [reflexivity|].
    exfalso.
    assert (Hd : In d (find_all content_tags soup))
      by (rewrite Ed; left; reflexivity).
    apply find_all_descendant in Hd. destruct Hd as [Hd Htag].
    destruct (is_tag_one _ _ Htag) as [t [Ht Hone]].
    destruct (tag_info_of_found soup t Ht) as [info [Hinfo _]].
    + intro Hn. assert (Hx : In d (find_all [t] soup))
        by (apply find_all_descendant; auto).
      rewrite Hn in Hx. destruct Hx.
    + rewrite Hnil in Hinfo. destruct Hinfo.
  - intro Hnone.
    destruct (containers_of soup) as [|ct cts] eqn:Ec; [reflexivity|].
    exfalso. apply H1 in Hnone.
    apply (containers_need_content_types soup); [|exact Hnone].
    rewrite Ec. discriminate.
Qed.

Example bare_page_inventory :
  containers_of bare_page = [] /\ tag_info_of bare_page = [].
Proof. split; reflexivity. Qed.

Lemma all_strings_visible : forall n,
  all_strings [NavigableString; CData] n
  = List.concat (visible n ++ visible_strings n).
Proof.
  induction n as [cls t|nm a cs IH] using node_forall_ind.
  - destruct cls; simpl; rewrite ?app_nil_r; reflexivity.
  - unfold visible_strings. cbn [all_strings descendants visible app].
    induction IH as [|c cs Hc _ IHcs]; [reflexivity|].
    cbn [flat_map]. rewrite flat_map_app, concat_app, Hc, IHcs.
    reflexivity.
Qed.

(** The text of an element of a content tag is made of its visible
    strings. *)
Lemma text_of_content_tag : forall tag e,
  In tag content_tags -> is_tag [tag] e = true ->
  text e = List.concat (visible_strings e).
Proof.
  intros tag [cls t|nm a cs] Htag He; [discriminate He|].
  simpl in He. rewrite orb_false_r in He. apply str_eqb_eq in He. subst nm.
  unfold text. rewrite <- (all_strings_visible (Tag tag a cs)) at 1.
  f_equal.
  repeat (destruct Htag as [<-|Htag]; [reflexivity|]). destruct Htag.
Qed.

Lemma tag_info_tags : forall soup info,
  In info (tag_info_of soup) -> In (ti_tag info) content_tags.
Proof.
  intros soup info H. unfold tag_info_of in H.
  apply filter_In in H. destruct H as [H _].
  apply in_flat_map in H. destruct H as [t [Ht H]].
  destruct (find_all [t] soup); [destruct H|].
  destruct H as [<-|[]]. exact Ht.
Qed.

Lemma tag_info_unfiltered : forall soup,
  tag_info_of soup = flat_map (entry_of soup) content_tags.
Proof.
  intro soup. unfold tag_info_of.
  change (flat_map _ content_tags) with (flat_map (entry_of soup) content_tags).
  induction content_tags as [|t ts IH]; [reflexivity|].
  simpl flat_map. rewrite filter_app, IH. f_equal.
  unfold entry_of. destruct (find_all [t] soup); reflexivity.
Qed.

(** X7.  The content types are the content tags the document holds, in
    whitelist order, each once; every entry counts the elements of its
    tag, at least one, is labelled with the tag in upper case, and carries
    a sample that is not empty and at most 50 characters long, cut from
    the cleaned text of the first element; that text is made of the
    strings below the element that are ordinary text or CDATA, with no
    comment, script, style sheet or template among them.  The filter on
    the count drops nothing. *)
Theorem tag_info_entries : forall soup,
  map ti_tag (tag_info_of soup)
  = filter (fun t => negb (Nat.eqb (List.length (find_all [t] soup)) 0))
           content_tags /\
  Forall (fun info =>
            ti_type info = upper_ascii (ti_tag info) /\
            ti_count info = List.length (find_all [ti_tag info] soup) /\
            (1 <= ti_count info)%nat /\
            ti_sample info <> [] /\
            (List.length (ti_sample info) <= 50)%nat /\
            exists first,
              find (ti_tag info) soup = Some first /\
              ti_sample info = firstn 50 (clean_text (Some (text first))) /\
              text first = List.concat (visible_strings first))
         (tag_info_of soup).
Proof.
  intro soup. rewrite tag_info_unfiltered. split.
  - induction content_tags as [|t ts IH]; [reflexivity|].
    simpl. rewrite map_app, IH. unfold entry_of.
    destruct (find_all [t] soup); reflexivity.
  - apply Forall_forall. intros info Hin.
    apply in_flat_map in Hin. destruct Hin as [t [Ht Hin]].
    unfold entry_of in Hin.
    destruct (find_all [t] soup) as [|first rest] eqn:E; [destruct Hin|].
    destruct Hin as [<-|[]]. cbn [ti_type ti_tag ti_count ti_sample].
    split; [reflexivity|]. split; [rewrite E; reflexivity|].
    split; [simpl; lia|]. split; [|split].
    + pose proof (clean_text_not_empty (Some (text first))) as Hne.
      destruct (clean_text (Some (text first))) as [|c r]; [congruence|].
      discriminate.
    + apply firstn_le_length.
    + exists first. unfold find. rewrite E.
      split; [reflexivity|]. split; [reflexivity|].
      apply (text_of_content_tag t); [exact Ht|].
      assert (Hin : In first (find_all [t] soup))
        by (rewrite E; left; reflexivity).
      apply find_all_descendant in Hin. apply Hin.
Qed.

(** ** The selection prompt, line by line *)

Section PromptLines.

Context {B : Builtins}.

Lemma prompt_loop_lines : forall n lines,
  match prompt_loop n lines with
  | (Ret sel, rest, ev) =>
      Forall (fun i => 1 <= i <= Z.of_nat n) sel /\
      (exists consumed,
          lines = consumed ++ rest /\ List.length consumed = inputs_in ev) /\
      S (complaints_in ev) = inputs_in ev
  | (Raise e, rest, ev) =>
      e = EOFError /\ rest = [] /\
      inputs_in ev = S (List.length lines) /\
      complaints_in ev = List.length lines
  end.
Proof.
  intros n lines. induction lines as [|line rest IH].
  - simpl. repeat split.
  - simpl. destruct (Str.eqb (str_lower line) (str "all")).
    + split; [apply one_to_valid|]. split; [|reflexivity].
      exists [line]. split; reflexivity.
    + destruct (parse_selection line) as [sel|].
      * destruct (forallb (fun x => (1 <=? x) && (x <=? Z.of_nat n)) sel) eqn:Ev.
        -- split; [|split; [|reflexivity]].
           ++ apply Forall_forall. intros i Hi.
              rewrite forallb_forall in Ev. specialize (Ev i Hi).
              apply andb_true_iff in Ev. destruct Ev as [E1 E2].
              apply Z.leb_le in E1. apply Z.leb_le in E2. lia.
           ++ exists [line]. split; reflexivity.
        -- destruct (prompt_loop n rest) as [[[sel'|e] rest'] ev].
           ++ destruct IH as [Hv [[consumed [Hc Hl]] Hn]].
              split; [exact Hv|]. split.
              ** exists (line :: consumed). split; [simpl; congruence|].
                 unfold inputs_in in *. simpl. congruence.
              ** unfold inputs_in, complaints_in in *. simpl. congruence.
           ++ destruct IH as [He [Hr [Hi Hc]]].
              unfold inputs_in, complaints_in in *. simpl.
              repeat split; congruence.
      * destruct (prompt_loop n rest) as [[[sel'|e] rest'] ev].
        -- destruct IH as [Hv [[consumed [Hc Hl]] Hn]].
           split; [exact Hv|]. split.
           ++ exists (line :: consumed). split; [simpl; congruence|].
              unfold inputs_in in *. simpl. congruence.
           ++ unfold inputs_in, complaints_in in *. simpl. congruence.
        -- destruct IH as [He [Hr [Hi Hc]]].
           unfold inputs_in, complaints_in in *. simpl.
           repeat split; congruence.
Qed.

Lemma inputs_in_option_lines : forall tag_info i,
  inputs_in (option_lines i tag_info) = 0%nat /\
  complaints_in (option_lines i tag_info) = 0%nat.
Proof.
  induction tag_info as [|info rest IH]; intro i; [split; reflexivity|].
  exact (IH (i + 1)).
Qed.

Lemma present_options_prompt : forall info infos w,
  present_options (info :: infos) w =
  let '(r, rest, ev) :=
    prompt_loop (List.length (info :: infos)) (stdin w) in
  (r, with_stdin rest w,
   EPrint PFound :: option_lines 1 (info :: infos) ++ ev).
Proof.
  intros info infos w. unfold present_options, bind, print, emit, prompt.
  destruct (prompt_loop _ (stdin w)) as [[[sel|e] rest] ev]; reflexivity.
Qed.

Lemma inputs_in_app : forall a b,
  inputs_in (a ++ b) = (inputs_in a + inputs_in b)%nat.
Proof. intros. unfold inputs_in. rewrite filter_app, length_app. reflexivity. Qed.

Lemma complaints_in_app : forall a b,
  complaints_in (a ++ b) = (complaints_in a + complaints_in b)%nat.
Proof.
  intros. unfold complaints_in. rewrite filter_app, length_app. reflexivity.
Qed.

Lemma prompt_header_counts : forall tag_info ev,
  inputs_in (EPrint PFound :: option_lines 1 tag_info ++ ev) = inputs_in ev /\
  complaints_in (EPrint PFound :: option_lines 1 tag_info ++ ev)
  = complaints_in ev.
Proof.
  intros tag_info ev.
  change (EPrint PFound :: option_lines 1 tag_info ++ ev)
    with ([EPrint PFound] ++ option_lines 1 tag_info ++ ev).
  rewrite !inputs_in_app, !complaints_in_app.
  destruct (inputs_in_option_lines tag_info 1) as [-> ->].
  split; reflexivity.
Qed.

End PromptLines.

(** X8.  A selection the prompt returns is within range: every index it
    holds lies between 1 and the number of content types. *)
Theorem present_options_in_range :
  forall (B : Builtins) tag_info w sel w' ev,
    present_options tag_info w = (Ret sel, w', ev) ->
    Forall (fun i => 1 <= i <= Z.of_nat (List.length tag_info)) sel.
Proof.
  intros B tag_info w sel w' ev H. destruct tag_info as [|info infos].
  - inversion H; subst. constructor.
  - rewrite present_options_prompt in H.
    pose proof (prompt_loop_lines (List.length (info :: infos)) (stdin w)) as P.
    destruct (prompt_loop _ (stdin w)) as [[[sel'|e] rest] ev'];
      inversion H; subst. exact (proj1 P).
Qed.

(** X9.  With content types to choose from, a prompt that returns has
    read the lines it took from standard input, one per read, and has
    complained once about every line it read but the last. *)
Theorem present_options_reads_until_valid :
  forall (B : Builtins) tag_info w sel w' ev,
    tag_info <> [] ->
    present_options tag_info w = (Ret sel, w', ev) ->
    (exists consumed,
        stdin w = consumed ++ stdin w' /\
        List.length consumed = inputs_in ev) /\
    S (complaints_in ev) = inputs_in ev.
Proof.
  intros B tag_info w sel w' ev Hne H.
  destruct tag_info as [|info infos]; [congruence|].
  rewrite present_options_prompt in H.
  pose proof (prompt_loop_lines (List.length (info :: infos)) (stdin w)) as P.
  destruct (prompt_loop _ (stdin w)) as [[[sel'|e] rest] ev'];
    [|discriminate H].
  injection H as Hs Hw Hev. subst sel' w'.
  destruct P as [_ [[consumed [Hc Hl]] Hn]].
  assert (Hcount : inputs_in ev = inputs_in ev'
                   /\ complaints_in ev = complaints_in ev').
  { rewrite <- Hev. exact (prompt_header_counts (info :: infos) ev'). }
  destruct Hcount as [-> ->]. split; [|exact Hn].
  exists consumed. split; assumption.
Qed.

(** X10.  The only exception the prompt raises is [EOFError], and only
    once every line of standard input was read and refused. *)
Theorem present_options_raises_at_end_of_input :
  forall (B : Builtins) tag_info w e w' ev,
    present_options tag_info w = (Raise e, w', ev) ->
    e = EOFError /\ stdin w' = [] /\
    complaints_in ev = List.length (stdin w) /\
    inputs_in ev = S (List.length (stdin w)).
Proof.
  intros B tag_info w e w' ev H. destruct tag_info as [|info infos].
  - inversion H.
  - rewrite present_options_prompt in H.
    pose proof (prompt_loop_lines (List.length (info :: infos)) (stdin w)) as P.
    destruct (prompt_loop _ (stdin w)) as [[[sel'|e'] rest] ev'];
      [discriminate H|].
    injection H as Hs Hw Hev. subst e' w'.
    destruct P as [He [Hr [Hi Hc]]].
    assert (Hcount : inputs_in ev = inputs_in ev'
                     /\ complaints_in ev = complaints_in ev').
    { rewrite <- Hev. exact (prompt_header_counts (info :: infos) ev'). }
    destruct Hcount as [-> ->]. repeat split; assumption.
Qed.

Lemma present_options_in_range_witness :
  Forall (fun i => 1 <= i <= Z.of_nat (List.length (tag_info_of demo_listing)))
         [2; 1].
Proof.
  eapply (present_options_in_range B1 (tag_info_of demo_listing) picky_world).
  vm_compute. reflexivity.
Defined.

Lemma present_options_reads_witness :
  let ev := snd (@present_options B1 (tag_info_of demo_listing) picky_world) in
  (exists consumed,
      stdin picky_world
      = consumed ++ stdin (with_stdin [str "left"] picky_world) /\
      List.length consumed = inputs_in ev) /\
  S (complaints_in ev) = inputs_in ev.
Proof.
  apply (present_options_reads_until_valid B1 (tag_info_of demo_listing)
           picky_world [2; 1]).
  - vm_compute. discriminate.
  - vm_compute. reflexivity.
Defined.

Example picky_prompt_counts :
  let ev := snd (@present_options B1 (tag_info_of demo_listing) picky_world) in
  inputs_in ev = 3%nat /\ complaints_in ev = 2%nat /\
  prints_in ev
  = [PFound;
     POption 1 (str "H2") 2 (str "First");
     POption 2 (str "P") 1 (str "Body");
     PInvalidSelection; PInvalidNumbers].
Proof. vm_compute. repeat split. Qed.

Lemma present_options_eof_witness :
  let ev := snd (@present_options B1 (tag_info_of demo_listing) short_world) in
  EOFError = EOFError /\ stdin (with_stdin [] short_world) = [] /\
  complaints_in ev = List.length (stdin short_world) /\
  inputs_in ev = S (List.length (stdin short_world)).
Proof.
  apply (present_options_raises_at_end_of_input B1 (tag_info_of demo_listing)
           short_world EOFError (with_stdin [] short_world)).
  vm_compute. reflexivity.
Defined.

(** X11.  The selection that answers "all" maps to every content type,
    in the order of the list: no index of it raises, and the selected tags
    and labels are those of [tag_info]. *)
Theorem select_all_takes_every_type : forall tag_info,
  selected_tags_of tag_info (one_to (List.length tag_info))
  = Ret (map (fun info => (ti_tag info, ti_type info)) tag_info).
Proof.
  intro tag_info. unfold selected_tags_of, one_to.
  assert (G : forall post pre,
             tag_info = pre ++ post ->
             rmap (fun i =>
                     rbind (py_index tag_info (i - 1)) (fun a =>
                     rbind (py_index tag_info (i - 1)) (fun b =>
                     Ret (ti_tag a, ti_type b))))
                  (map Z.of_nat (seq (S (List.length pre)) (List.length post)))
             = Ret (map (fun info => (ti_tag info, ti_type info)) post)).
  { induction post as [|x post IH]; intros pre E; [reflexivity|].
    cbn [List.length seq map rmap].
    destruct (py_index_in_range _ tag_info
                (Z.of_nat (S (List.length pre)) - 1)) as [a [Ea Na]].
    { subst tag_info. rewrite length_app. cbn [List.length]. lia. }
    replace (Z.to_nat (Z.of_nat (S (List.length pre)) - 1))
      with (List.length pre) in Na by lia.
    rewrite E, nth_error_app2, Nat.sub_diag in Na by lia. simpl in Na.
    inversion Na; subst a. rewrite Ea. cbn [rbind].
    specialize (IH (pre ++ [x])).
    rewrite length_app in IH. cbn [List.length] in IH.
    rewrite Nat.add_1_r in IH. rewrite IH.
    - reflexivity.
    - rewrite <- app_assoc. exact E. }
  exact (G tag_info [] eq_refl).
Qed.

(** ** The rows of a page, label by label *)

Lemma dict_set_keys : forall k v d,
  map fst (dict_set k v d)
  = if existsb (Str.eqb k) (map fst d) then map fst d else map fst d ++ [k].
Proof.
  intros k v d. induction d as [|[k' v'] d IH]; [reflexivity|].
  simpl. destruct (Str.eqb k' k) eqn:E.
  - apply str_eqb_eq in E. subst k'. rewrite str_eqb_refl. reflexivity.
  - assert (E' : Str.eqb k k' = false).
    { apply str_eqb_neq. apply str_eqb_neq in E. congruence. }
    rewrite E'. simpl. rewrite IH.
    destruct (existsb (Str.eqb k) (map fst d)); reflexivity.
Qed.

Lemma existsb_str_In : forall k l,
  existsb (Str.eqb k) l = true <-> In k l.
Proof.
  intros k l. rewrite existsb_exists. split.
  - intros [x [Hx E]]. apply str_eqb_eq in E. subst. exact Hx.
  - intro H. exists k. split; [exact H | apply str_eqb_refl].
Qed.

Lemma dict_set_NoDup : forall k v d,
  NoDup (map fst d) -> NoDup (map fst (dict_set k v d)).
Proof.
  intros k v d H. rewrite dict_set_keys.
  destruct (existsb (Str.eqb k) (map fst d)) eqn:E; [exact H|].
  apply NoDup_app; [exact H | repeat constructor; intros [] |].
  intros x Hx [<-|[]].
  apply existsb_str_In in Hx. congruence.
Qed.

Lemma fold_set_NoDup : forall article tags row,
  NoDup (map fst row) ->
  NoDup (map fst
           (fold_left
              (fun r tc => dict_set (snd tc) (field_of article (fst tc)) r)
              tags row)).
Proof.
  intros article tags. induction tags as [|tc tags IH]; intros row H.
  - exact H.
  - simpl. apply IH. apply dict_set_NoDup. exact H.
Qed.

Lemma fold_set_value : forall article tags row k v,
  dict_get k
    (fold_left (fun r tc => dict_set (snd tc) (field_of article (fst tc)) r)
               tags row) = Some v ->
  dict_get k row = Some v \/
  exists tag, In (tag, k) tags /\ v = field_of article tag.
Proof.
  intros article tags. induction tags as [|[t c] tags IH]; intros row k v H.
  - left. exact H.
  - simpl in H. apply IH in H. destruct H as [H|[tag [Hin E]]].
    + destruct (Str.eqb c k) eqn:Ek.
      * apply str_eqb_eq in Ek. subst c. rewrite dict_get_set_same in H.
        inversion H; subst. right. exists t. split; [left|]; reflexivity.
      * apply str_eqb_neq in Ek. rewrite dict_get_set_other in H by exact Ek.
        left. exact H.
    + right. exists tag. split; [right; exact Hin | exact E].
Qed.

(** X12.  For selected tags that resolve, every record [scrape_page]
    returns has each selected label once as a key, whatever the number of
    times it was selected, and no other key; the value under a label is
    the cleaned text field of one of the tags selected for it, never
    blank. *)
Theorem scrape_page_row_labels :
  forall soup containers tag_info sel w tags,
    selected_tags_of tag_info sel = Ret tags ->
    exists data,
      fst (fst (scrape_page soup containers tag_info sel w)) = Ret data /\
      Forall2
        (fun article row =>
           NoDup (map fst row) /\
           (forall k, In k (map fst row) <-> In k (map snd tags)) /\
           (forall k v, dict_get k row = Some v ->
                        v <> [] /\
                        exists tag, In (tag, k) tags /\
                                    v = field_of article tag))
        (find_all [container_tag_of containers] soup) data.
Proof.
  intros soup containers tag_info sel w tags Hsel.
  rewrite scrape_page_extract, extract_run, Hsel. eexists.
  split; [reflexivity|].
  apply Forall2_map_r. intros article _. unfold row_of.
  split; [apply fold_set_NoDup; constructor|]. split.
  - intro k. split.
    + apply row_of_keys.
    + intro Hk. destruct (fold_set_written article tags [] k Hk) as [v [Hv _]].
      unfold dict_get in Hv.
      clear - Hv. revert Hv.
      generalize (fold_left
                    (fun r tc =>
                       dict_set (snd tc) (field_of article (fst tc)) r)
                    tags []).
      intro d. induction d as [|[k' v'] d IH]; simpl; [discriminate|].
      destruct (Str.eqb k' k) eqn:E.
      * apply str_eqb_eq in E. auto.
      * intro H. right. exact (IH H).
  - intros k v Hv. apply fold_set_value in Hv.
    destruct Hv as [Hv|[tag [Hin ->]]]; [discriminate Hv|].
    split; [apply clean_text_not_empty|]. exists tag. auto.
Qed.

Lemma scrape_page_row_labels_witness :
  exists data,
    fst (fst (scrape_page demo_listing (containers_of demo_listing)
                          (tag_info_of demo_listing) [2; 1; 2] demo_world))
    = Ret data /\
    Forall2
      (fun article row =>
         NoDup (map fst row) /\
         (forall k, In k (map fst row)
                    <-> In k (map snd [(str "p", str "P");
                                       (str "h2", str "H2");
                                       (str "p", str "P")])) /\
         (forall k v, dict_get k row = Some v ->
                      v <> [] /\
                      exists tag,
                        In (tag, k) [(str "p", str "P");
                                     (str "h2", str "H2");
                                     (str "p", str "P")] /\
                        v = field_of article tag))
      (find_all [container_tag_of (containers_of demo_listing)] demo_listing)
      data.
Proof.
  apply scrape_page_row_labels. reflexivity.
Defined.

(** X13.  With the content types of page 1's analysis and a selection the
    prompt accepts, the row of a container holds, under the label of each
    selected tag the container has, the cleaned text of the first element
    of that tag below the container, in document order; that text is made
    of the strings below the element that are ordinary text or CDATA,
    with no comment, script, style sheet or template among them. *)
Theorem present_field_is_first_match :
  forall page1 soup containers sel w,
    let tag_info := tag_info_of page1 in
    Forall (fun i => 1 <= i <= Z.of_nat (List.length tag_info)) sel ->
    exists data,
      fst (fst (scrape_page soup containers tag_info sel w)) = Ret data /\
      Forall2
        (fun article row =>
           forall i info,
             In i sel ->
             nth_error tag_info (Z.to_nat (i - 1)) = Some info ->
             dict_get (ti_type info) row
             = Some (clean_text
                       (option_map text
                          (hd_error (find_all [ti_tag info] article)))) /\
             (forall element,
                 hd_error (find_all [ti_tag info] article) = Some element ->
                 text element = List.concat (visible_strings element)))
        (find_all [container_tag_of containers] soup) data.
Proof.
  intros page1 soup containers sel w tag_info Hsel.
  destruct (selected_tags_of_valid tag_info sel Hsel) as [tags [E F]].
  rewrite scrape_page_extract, extract_run, E. eexists.
  split; [reflexivity|].
  apply Forall2_map_r. intros article _ i info Hi Hnth.
  destruct (Forall2_In_l _ _ _ _ _ _ F Hi) as [tc [Htc [info' [Hn' Etc]]]].
  assert (info' = info) by congruence. subst info' tc. split.
  - unfold row_of. apply fold_set_agree.
    + exists (ti_tag info). exact Htc.
    + intros tag Htag.
      destruct (Forall2_In_r _ _ _ _ _ _ F Htag) as [j [_ [info2 [Hn2 E2]]]].
      inversion E2; subst.
      assert (info2 = info).
      { apply (NoDup_map_inj _ _ ti_type (tag_info_of page1)); auto.
        - apply tag_info_types_NoDup.
        - exact (nth_error_In _ _ Hn2).
        - exact (nth_error_In _ _ Hnth). }
      subst info2. reflexivity.
  - intros element He.
    apply (text_of_content_tag (ti_tag info)).
    + exact (tag_info_tags page1 info (nth_error_In _ _ Hnth)).
    + assert (Hin : In element (find_all [ti_tag info] article)).
      { destruct (find_all [ti_tag info] article) as [|x l];
          [discriminate He|]. injection He as <-. left. reflexivity. }
      apply find_all_descendant in Hin. apply Hin.
Qed.

Lemma present_field_witness :
  exists data,
    fst (fst (scrape_page demo_listing (containers_of demo_listing)
                          (tag_info_of demo_listing) [1; 2] demo_world))
    = Ret data /\
    Forall2
      (fun article row =>
         forall i info,
           In i [1; 2] ->
           nth_error (tag_info_of demo_listing) (Z.to_nat (i - 1)) = Some info ->
           dict_get (ti_type info) row
           = Some (clean_text
                     (option_map text
                        (hd_error (find_all [ti_tag info] article)))) /\
           (forall element,
               hd_error (find_all [ti_tag info] article) = Some element ->
               text element = List.concat (visible_strings element)))
      (find_all [container_tag_of (containers_of demo_listing)] demo_listing)
      data.
Proof.
  apply (present_field_is_first_match demo_listing).
  repeat constructor; vm_compute; discriminate.
Defined.

(** ** The page loop, page by page *)

Section LoopPages.

Context {B : Builtins}.

(** X14.  A page without a next link (the locator returns [None] or an
    empty URL) is the last one fetched, whatever is left of the budget:
    the loop returns the records gathered so far and those of this page,
    logs that no page is left, and does not pause. *)
Theorem page_loop_ends_without_next_link :
  forall base containers tag_info sel tags p rest url acc w body next,
    www w (clock w) url = HttpOk body ->
    body <> [] ->
    selected_tags_of tag_info sel = Ret tags ->
    get_next_page (parse_html body) base = Ret next ->
    truthy next = false ->
    let rows := map (row_of tags)
                    (find_all [container_tag_of containers] (parse_html body)) in
    page_loop base containers tag_info sel (p :: rest) url acc w
    = (Ret (acc ++ rows), tick 1 w,
       [ELog INFO (LScrapingPage (p + 1) url); EGet url;
        ELog INFO (LFetched url); ELog INFO (LScraped (List.length rows));
        ELog INFO LNoMorePages]).
Proof.
  intros base containers tag_info sel tags p rest url acc w body next
         Hget Hbody Hsel Hnext Hfalsy rows.
  simpl page_loop. unfold bind at 1. unfold log at 1, emit at 1.
  unfold bind at 1. rewrite (fetch_page_ok url body w Hget).
  destruct body as [|c body]; [congruence|].
  unfold bind at 1. rewrite scrape_page_extract, extract_run, Hsel.
  cbv zeta. fold rows. rewrite Hnext, bind_lift_ret.
  destruct next as [[|d next]|]; try discriminate Hfalsy; reflexivity.
Qed.

(** X15.  A page whose three requests all raise [RequestException] ends
    the loop: the records gathered so far are returned unchanged, after
    three requests for that page and none for another. *)
Theorem page_loop_stops_on_failed_fetch :
  forall base containers tag_info sel p rest url acc w,
    (forall k, www w k url = HttpRequestException) ->
    exists ev,
      page_loop base containers tag_info sel (p :: rest) url acc w
      = (Ret acc, tick 3 w, ev) /\
      requests_in ev = [url; url; url] /\
      pages_in ev = [url].
Proof.
  intros base containers tag_info sel p rest url acc w Hfail.
  simpl page_loop. unfold bind at 1. unfold log at 1, emit at 1.
  unfold bind at 1. unfold fetch_page.
  destruct (fetch_attempts_all_fail url 3 2 3 0 w ltac:(lia) eq_refl
              eq_refl Hfail) as [ev [E R]].
  change (range 3) with (map Z.of_nat (seq 0 3)). rewrite E.
  eexists. split; [reflexivity|]. split.
  - simpl. rewrite app_nil_r. exact R.
  - simpl. rewrite app_nil_r. f_equal.
    apply plain_pages. apply fetch_attempts_frame in E. tauto.
Qed.

(** X16.  The loop only adds records: what it returns starts with what it
    was given, and every record added was built under the one selection. *)
Theorem page_loop_only_adds_records :
  forall base containers tag_info sel pages url acc w data w' ev,
    page_loop base containers tag_info sel pages url acc w
    = (Ret data, w', ev) ->
    exists added,
      data = acc ++ added /\ Forall (built_from tag_info sel) added.
Proof.
  intros base containers tag_info sel pages.
  induction pages as [|p pages IH]; intros url acc w data w' ev H.
  - inversion H; subst. exists []. rewrite app_nil_r. split; constructor.
  - simpl in H. apply bind_inv in H.
    destruct H as [[[] [w1 [ev1 [ev2 [_ [H2 _]]]]]] | [e [_ H1]]];
      [|discriminate H1].
    apply bind_inv in H2.
    destruct H2 as [[html [w2 [ev3 [ev4 [_ [H3 _]]]]]] | [e [_ H2]]];
      [|discriminate H2].
    destruct html as [[|c markup]|];
      try (inversion H3; subst; exists []; rewrite app_nil_r;
           split; constructor).
    apply bind_inv in H3.
    destruct H3 as [[rows [w3 [ev5 [ev6 [H3 [H4 _]]]]]] | [e [_ H3]]];
      [|discriminate H3].
    apply scrape_page_rows in H3.
    apply bind_inv in H4.
    destruct H4 as [[next [wn [evn [ev9 [_ [H4 _]]]]]] | [e [_ H4]]];
      [|discriminate H4].
    destruct next as [[|d next]|];
      try (unfold bind, log, emit, ret in H4; inversion H4; subst;
           exists rows; split; [reflexivity | exact H3]).
    apply bind_inv in H4.
    destruct H4 as [[[] [w4 [ev7 [ev8 [_ [H5 _]]]]]] | [e [_ H4]]];
      [|discriminate H4].
    destruct (IH _ _ _ _ _ _ H5) as [added [-> Hadd]].
    exists (rows ++ added). rewrite app_assoc. split; [reflexivity|].
    apply Forall_app. split; assumption.
Qed.

End LoopPages.

Lemma page_loop_last_page_witness :
  let rows := map (row_of [(str "h2", str "H2"); (str "p", str "P")])
                  (find_all [container_tag_of (containers_of demo_listing)]
                            (@parse_html B1 (str "<html>"))) in
  @page_loop B1 (str "https://x.org") (containers_of demo_listing)
             (tag_info_of demo_listing) [1; 2] [0; 1; 2]
             (str "https://x.org") [] blank_world
  = (Ret ([] ++ rows), tick 1 blank_world,
     [ELog INFO (LScrapingPage (0 + 1) (str "https://x.org"));
      EGet (str "https://x.org");
      ELog INFO (LFetched (str "https://x.org"));
      ELog INFO (LScraped (List.length rows));
      ELog INFO LNoMorePages]).
Proof.
  apply (@page_loop_ends_without_next_link B1) with (next := None);
    [reflexivity | discriminate | reflexivity | reflexivity | reflexivity].
Defined.

Lemma page_loop_failed_fetch_witness :
  exists ev,
    @page_loop B1 (str "https://x.org") (containers_of demo_listing)
               (tag_info_of demo_listing) [1; 2] [0; 1]
               (str "https://x.org") [] demo_world
    = (Ret [], tick 3 demo_world, ev) /\
    requests_in ev
    = [str "https://x.org"; str "https://x.org"; str "https://x.org"] /\
    pages_in ev = [str "https://x.org"].
Proof.
  apply (@page_loop_stops_on_failed_fetch B1). reflexivity.
Defined.

Lemma page_loop_only_adds_witness :
  exists added,
    repeated_rows ++ repeated_rows = [] ++ added /\
    Forall (built_from (tag_info_of repeated_listing) [1; 2]) added.
Proof.
  eapply (@page_loop_only_adds_records B3 (str "https://x.org")
            (containers_of repeated_listing) (tag_info_of repeated_listing)
            [1; 2] [0; 1] (str "https://x.org") [] paged_world).
  vm_compute. reflexivity.
Defined.

(** ** Whole runs *)

Lemma requests_in_console : forall ev,
  Forall console_event ev -> requests_in ev = [].
Proof.
  induction 1 as [|e ev He _ IH]; [reflexivity|].
  unfold requests_in in *. simpl. rewrite IH.
  destruct He as [->|[m ->]]; reflexivity.
Qed.

Lemma prints_in_app : forall a b,
  prints_in (a ++ b) = prints_in a ++ prints_in b.
Proof. intros. apply flat_map_app. Qed.

Lemma background_silent : forall ev,
  Forall background_event ev ->
  prints_in ev = [] /\ inputs_in ev = 0%nat /\ tables_in ev = [].
Proof.
  induction 1 as [|e ev He _ [IH1 [IH2 IH3]]]; [repeat split|].
  unfold prints_in, inputs_in, tables_in in *. simpl.
  destruct e; try destruct He; simpl; rewrite ?IH1, ?IH2, ?IH3;
    repeat split; assumption.
Qed.

Lemma fetch_attempts_background : forall url retries delay attempts w r w' ev,
  0 <= delay ->
  takes_pause w delay = true ->
  fetch_attempts url retries delay attempts w = (r, w', ev) ->
  Forall background_event ev /\
  (forall e, r = Raise e -> e = OtherError).
Proof.
  intros url retries delay attempts.
  induction attempts as [|a attempts IH]; intros w r w' ev Hd Ht H.
  - inversion H; subst. split; [constructor | discriminate].
  - cbn [fetch_attempts] in H.
    unfold try_except, bind at 1, http_get in H.
    destruct (www w (clock w) url) eqn:Eo; cbn [is_request_exception] in H.
    + inversion H; subst. split; [repeat constructor | discriminate].
    + unfold bind at 1, log at 1, emit at 1 in H.
      destruct (a + 1 =? retries).
      * unfold bind, log, emit, ret in H.
        inversion H; subst. split; [repeat constructor | discriminate].
      * set (w0 := {| www := www w; clock := S (clock w); stdin := stdin w;
                      timer_max := timer_max w |}) in H.
        rewrite (bind_sleep_ok _ delay _ w0 Hd Ht) in H.
        destruct (fetch_attempts url retries delay attempts w0)
          as [[r1 w1] ev1] eqn:E1.
        apply IH in E1; [|exact Hd|exact Ht]. destruct E1 as [Hb Hr].
        simpl in H.
        inversion H; subst. split; [repeat constructor; exact Hb | exact Hr].
    + inversion H; subst. split; [repeat constructor|].
      intros e He. congruence.
Qed.

Lemma scrape_page_background : forall soup containers tag_info sel w r w' ev,
  scrape_page soup containers tag_info sel w = (r, w', ev) ->
  Forall background_event ev.
Proof.
  intros soup containers tag_info sel w r w' ev H.
  rewrite scrape_page_extract, extract_run in H.
  destruct (selected_tags_of tag_info sel); inversion H; subst;
    repeat constructor.
Qed.

Section Runs.

Context {B : Builtins}.

Lemma get_next_page_raises : forall soup base e,
  get_next_page soup base = Raise e -> e = ValueError.
Proof.
  intros soup base e. unfold get_next_page.
  destruct (or_node _ _) as [button|]; [|discriminate].
  destruct (lookup (str "href") (attrs_of button)) as [href|];
    [|discriminate].
  destruct (urljoin base href); simpl; [discriminate | congruence].
Qed.

Lemma prompt_loop_console : forall n lines,
  Forall console_event (snd (prompt_loop n lines)).
Proof.
  intros n lines. induction lines as [|line rest IH]; simpl.
  - constructor; [left; reflexivity | constructor].
  - destruct (Str.eqb _ _);
      [constructor; [left; reflexivity | constructor]|].
    destruct (parse_selection line) as [sel|].
    + destruct (forallb _ sel);
        [constructor; [left; reflexivity | constructor]|].
      destruct (prompt_loop n rest) as [[r rest'] evs]. simpl in *.
      constructor; [left; reflexivity|].
      constructor; [right; eexists; reflexivity | exact IH].
    + destruct (prompt_loop n rest) as [[r rest'] evs]. simpl in *.
      constructor; [left; reflexivity|].
      constructor; [right; eexists; reflexivity | exact IH].
Qed.

Lemma option_lines_console : forall tag_info i,
  Forall console_event (option_lines i tag_info).
Proof.
  induction tag_info as [|info rest IH]; intro i; simpl; constructor.
  - right. eexists. reflexivity.
  - apply IH.
Qed.

(** What the prompt returns or raises, and what it leaves. *)
Lemma present_options_outcome : forall tag_info w r w' ev,
  present_options tag_info w = (r, w', ev) ->
  www w' = www w /\ clock w' = clock w /\
  match r with
  | Ret sel =>
      Forall (fun i => 1 <= i <= Z.of_nat (List.length tag_info)) sel
  | Raise e => e = EOFError /\ stdin w' = []
  end /\
  (tag_info <> [] -> Forall console_event ev).
Proof.
  intros tag_info w r w' ev H. destruct tag_info as [|info infos].
  - inversion H; subst. repeat split; [constructor | congruence].
  - rewrite present_options_prompt in H.
    pose proof (prompt_loop_lines (List.length (info :: infos)) (stdin w)) as P.
    pose proof (prompt_loop_console (List.length (info :: infos)) (stdin w))
      as C.
    destruct (prompt_loop _ (stdin w)) as [[r1 rest] ev1].
    injection H as Hr Hw Hev. subst r1 w'. split; [reflexivity|].
    split; [reflexivity|]. split.
    + destruct r as [sel|e]; [exact (proj1 P)|].
      destruct P as [He [Hrest _]]. split; [exact He | exact Hrest].
    + intros _. rewrite <- Hev.
      change (Forall console_event
                ([EPrint PFound] ++ option_lines 1 (info :: infos) ++ ev1)).
      apply Forall_app.
      split; [constructor; [right; eexists; reflexivity | constructor]|].
      apply Forall_app. split; [apply option_lines_console | exact C].
Qed.

(** The loop under a selection in range: background events only, and no
    exception but that of a request or of a link target. *)
Lemma page_loop_background :
  forall base containers tag_info sel pages url acc w r w' ev,
    Forall (fun i => 1 <= i <= Z.of_nat (List.length tag_info)) sel ->
    page_loop base containers tag_info sel pages url acc w = (r, w', ev) ->
    Forall background_event ev /\
    (forall e, r = Raise e -> e = OtherError \/ e = ValueError) /\
    stdin w' = stdin w /\
    (List.length (requests_in ev) <= 3 * List.length pages)%nat.
Proof.
  intros base containers tag_info sel pages url acc w r w' ev Hsel.
  destruct (selected_tags_of_valid tag_info sel Hsel) as [tags [Htags _]].
  revert url acc w r w' ev.
  induction pages as [|p pages IH]; intros url acc w r w' ev H.
  - inversion H; subst. repeat split; [constructor | discriminate | simpl; lia].
  - simpl in H. apply bind_inv in H.
    destruct H as [[[] [w1 [ev1 [ev2 [H1 [H2 ->]]]]]] | [e [H1 _]]];
      [|discriminate H1].
    inversion H1; subst w1 ev1. clear H1.
    apply bind_inv in H2.
    destruct H2 as [[html [w2 [ev3 [ev4 [H2 [H3 ->]]]]]] | [e [H2 ->]]].
    + pose proof (fetch_page_frame _ _ _ _ _ _ _ H2) as [_ [Hs2 _]].
      pose proof (fetch_attempts_requests url 3 2 (range 3) w) as [k Hk].
      unfold fetch_page in H2. rewrite H2 in Hk.
      destruct Hk as [Hreq [Hle _]].
      apply fetch_attempts_background in H2; [|lia|reflexivity]. destruct H2 as [Hb2 _].
      assert (Hk3 : (List.length (requests_in ev3) <= 3)%nat).
      { rewrite Hreq, repeat_length. exact Hle. }
      destruct html as [[|c markup]|].
      * inversion H3; subst. rewrite app_nil_r.
        repeat split; [constructor; [exact I | exact Hb2] | discriminate
                       | exact Hs2 | simpl; lia].
      * unfold bind at 1 in H3.
        rewrite scrape_page_extract, extract_run, Htags in H3.
        cbv zeta in H3.
        destruct (get_next_page (parse_html (c :: markup)) base)
          as [[[|d next]|]|e] eqn:En.
        -- rewrite bind_lift_ret in H3.
           unfold bind, log, emit, ret in H3. inversion H3; subst.
           repeat split;
             [constructor; [exact I|]; apply Forall_app; split;
              [exact Hb2 | repeat constructor]
             | discriminate | exact Hs2 |].
           simpl. rewrite requests_in_app, length_app. simpl. lia.
        -- rewrite bind_lift_ret in H3.
           change (sleep 1) with (emit (ESleep 1)) in H3.
           unfold bind at 1, emit at 1 in H3.
           destruct (page_loop base containers tag_info sel pages (d :: next)
                       _ w2) as [[r5 w5] ev5] eqn:E5.
           apply IH in E5. destruct E5 as [Hb5 [Hr5 [Hs5 Hn5]]].
           inversion H3; subst.
           repeat split;
             [constructor; [exact I|]; apply Forall_app; split;
              [exact Hb2 | repeat constructor; exact Hb5]
             | exact Hr5 | congruence |].
           simpl. rewrite requests_in_app, length_app. simpl.
           change (requests_in (ELog INFO (LScraped
                     (List.length (map (row_of tags)
                        (find_all [container_tag_of containers]
                           (parse_html (c :: markup)))))) :: ESleep 1 :: ev5))
             with (requests_in ev5). lia.
        -- rewrite bind_lift_ret in H3.
           unfold bind, log, emit, ret in H3. inversion H3; subst.
           repeat split;
             [constructor; [exact I|]; apply Forall_app; split;
              [exact Hb2 | repeat constructor]
             | discriminate | exact Hs2 |].
           simpl. rewrite requests_in_app, length_app. simpl. lia.
        -- rewrite bind_lift_raise in H3. apply get_next_page_raises in En.
           inversion H3; subst.
           repeat split;
             [constructor; [exact I|]; apply Forall_app; split;
              [exact Hb2 | repeat constructor]
             | intros e0 He0; right; congruence | exact Hs2 |].
           simpl. rewrite requests_in_app, length_app. simpl. lia.
      * inversion H3; subst. rewrite app_nil_r.
        repeat split; [constructor; [exact I | exact Hb2] | discriminate
                       | exact Hs2 | simpl; lia].
    + pose proof (fetch_page_frame _ _ _ _ _ _ _ H2) as [_ [Hs2 _]].
      pose proof (fetch_attempts_requests url 3 2 (range 3) w) as [k Hk].
      unfold fetch_page in H2. rewrite H2 in Hk.
      destruct Hk as [Hreq [Hle _]].
      apply fetch_attempts_background in H2; [|lia|reflexivity].
      destruct H2 as [Hb2 Hr2].
      repeat split; [constructor; [exact I | exact Hb2] | | exact Hs2 |].
      * intros e0 He0. inversion He0; subst. left. apply Hr2. reflexivity.
      * simpl. rewrite Hreq, repeat_length. simpl in Hle. lia.
Qed.

End Runs.

Section RunShape.

Context {B : Builtins}.

(** The events [save] emits. *)
Lemma save_events : forall netloc all_data w,
  save netloc all_data w
  = (Ret tt, w,
     match all_data with
     | [] => [EPrint PNoData; ELog WARNING LNoData]
     | _ =>
         let df := Pandas.fillna NA
                     (Pandas.replace [] NA
                        (Pandas.drop_duplicates (Pandas.DataFrame all_data))) in
         [ECsv (written_file netloc) df;
          ELog INFO (LSaved (List.length (cells df)) (written_file netloc));
          EPrint (PSaved (List.length (cells df)) (written_file netloc))]
     end).
Proof. intros netloc [|r rows] w; reflexivity. Qed.

(** The ways a run can go, step by step. *)
Lemma main_run : forall url max_pages w r w' ev,
  main url max_pages w = (r, w', ev) ->
  (urlparse (with_scheme url) = None /\
   r = Raise ValueError /\ w' = w /\ ev = []) \/
  exists r1 w1 ev1,
    fetch_page (with_scheme url) 3 2 w = (r1, w1, ev1) /\
    ((exists e, r1 = Raise e /\ r = Raise e /\ w' = w1 /\ ev = ev1)
     \/ (exists html, r1 = Ret html /\ truthy html = false /\
                      r = Ret tt /\ w' = w1 /\
                      ev = ev1 ++ [EPrint PFetchFailed])
     \/ (exists body,
            r1 = Ret (Some body) /\ body <> [] /\
            let soup := parse_html body in
            (containers_of soup = [] /\ r = Ret tt /\ w' = w1 /\
             ev = ev1 ++ [detected soup; EPrint PNoContainers;
                          ELog ERROR LNoContainers])
            \/ (containers_of soup <> [] /\
                exists r2 w2 ev2,
                  present_options (tag_info_of soup) w1 = (r2, w2, ev2) /\
                  ((exists e, r2 = Raise e /\ r = Raise e /\ w' = w2 /\
                              ev = ev1 ++ detected soup :: ev2)
                   \/ (r2 = Ret [] /\ r = Ret tt /\ w' = w2 /\
                       ev = ev1 ++ detected soup :: ev2
                                ++ [EPrint PNoDataSelected])
                   \/ (exists sel r3 w3 ev3,
                          sel <> [] /\ r2 = Ret sel /\
                          page_loop (base_of url) (containers_of soup)
                                    (tag_info_of soup) sel (range max_pages)
                                    (with_scheme url) [] w2
                          = (r3, w3, ev3) /\
                          ((exists e, r3 = Raise e /\ r = Raise e /\
                                      w' = w3 /\
                                      ev = ev1 ++ detected soup :: ev2 ++ ev3)
                           \/ (exists data,
                                  r3 = Ret data /\ r = Ret tt /\ w' = w3 /\
                                  ev = ev1 ++ detected soup :: ev2 ++ ev3
                                       ++ snd (save (netloc_of url) data
                                                    w3)))))))).
Proof.
  intros url max_pages w r w' ev H. unfold main in H.
  unfold base_of, netloc_of.
  destruct (urlparse (with_scheme url)) as [[scheme netloc]|];
    unfold or_raise in H;
    [rewrite bind_lift_ret in H
    | rewrite bind_lift_raise in H; inversion H; subst; left; auto].
  right. apply bind_inv in H.
  destruct H as [[html [w1 [ev1 [ev2 [H1 [H2 ->]]]]]] | [e [H1 ->]]].
  - exists (Ret html), w1, ev1. split; [exact H1|]. right.
    destruct html as [[|c markup]|].
    + left. exists (Some []). inversion H2; subst. repeat split.
    + right. exists (c :: markup). split; [reflexivity|].
      split; [discriminate|]. cbv zeta.
      set (soup := parse_html (c :: markup)) in *.
      unfold analyze_structure in H2. rewrite bind_assoc in H2.
      apply bind_inv in H2.
      destruct H2 as [[[] [w2 [ev3 [ev4 [H2 [H3 ->]]]]]] | [e [H2 _]]];
        [|discriminate H2].
      inversion H2; subst w2 ev3. clear H2. rewrite bind_ret in H3.
      destruct (containers_of soup) as [|ct cts] eqn:Ec.
      * left. inversion H3; subst. repeat split.
      * right. split; [discriminate|].
        apply bind_inv in H3.
        destruct H3 as [[sel [w3 [ev5 [ev6 [H3 [H4 ->]]]]]] | [e [H3 ->]]].
        -- exists (Ret sel), w3, ev5. split; [exact H3|]. right.
           destruct sel as [|i sel].
           ++ left. inversion H4; subst. repeat split.
           ++ right. apply bind_inv in H4.
              destruct H4 as [[data [w4 [ev7 [ev8 [H4 [H5 ->]]]]]]
                             | [e [H4 ->]]].
              ** exists (i :: sel), (Ret data), w4, ev7.
                 split; [discriminate|]. split; [reflexivity|].
                 split; [exact H4|]. right. exists data.
                 rewrite save_events in H5. inversion H5; subst.
                 rewrite save_events. repeat split.
              ** exists (i :: sel), (Raise e), w', ev6.
                 split; [discriminate|]. split; [reflexivity|].
                 split; [exact H4|]. left. exists e. repeat split.
        -- exists (Raise e), w', ev4. split; [exact H3|]. left.
           exists e. repeat split.
    + left. exists None. inversion H2; subst. repeat split.
  - exists (Raise e), w', ev. split; [exact H1|]. left. exists e.
    repeat split.
Qed.

End RunShape.

Lemma fetch_page_facts : forall url w r w' ev,
  fetch_page url 3 2 w = (r, w', ev) ->
  Forall background_event ev /\
  (List.length (requests_in ev) <= 3)%nat /\
  (forall e, r = Raise e -> e = OtherError) /\
  stdin w' = stdin w.
Proof.
  intros url w r w' ev H.
  pose proof (fetch_page_frame _ _ _ _ _ _ _ H) as [_ [Hs _]].
  pose proof (fetch_attempts_requests url 3 2 (range 3) w) as [k Hk].
  unfold fetch_page in H. rewrite H in Hk. destruct Hk as [Hreq [Hle _]].
  apply fetch_attempts_background in H; [|lia|reflexivity].
  destruct H as [Hb Hr].
  split; [exact Hb|]. split; [|split; assumption].
  rewrite Hreq, repeat_length. exact Hle.
Qed.

Lemma console_silent : forall ev,
  Forall console_event ev ->
  requests_in ev = [] /\ tables_in ev = [] /\ pages_in ev = [].
Proof.
  induction 1 as [|e ev He _ [IH1 [IH2 IH3]]]; [repeat split|].
  unfold requests_in, tables_in, pages_in in *. simpl.
  rewrite IH1, IH2, IH3. destruct He as [->|[m ->]]; repeat split.
Qed.

Lemma tables_in_background : forall ev,
  Forall background_event ev -> tables_in ev = [].
Proof. intros ev H. apply background_silent in H. tauto. Qed.

(** X17.  The two ways a URL ends a run with [ValueError].  A URL that
    [urlparse] refuses ends the run before its first request.  On a
    fetched page, a next-page link whose target [urljoin] refuses makes
    the loop raise after the page was scraped: the records gathered are
    not returned, and no line reports the end of the loop. *)
Theorem refused_url_raises :
  forall (B : Builtins) url max_pages w,
    (urlparse (with_scheme url) = None ->
     main url max_pages w = (Raise ValueError, w, [])) /\
    (forall base containers tag_info sel tags p rest acc body,
        www w (clock w) url = HttpOk body ->
        body <> [] ->
        selected_tags_of tag_info sel = Ret tags ->
        get_next_page (parse_html body) base = Raise ValueError ->
        let rows := map (row_of tags)
                        (find_all [container_tag_of containers]
                                  (parse_html body)) in
        page_loop base containers tag_info sel (p :: rest) url acc w
        = (Raise ValueError, tick 1 w,
           [ELog INFO (LScrapingPage (p + 1) url); EGet url;
            ELog INFO (LFetched url);
            ELog INFO (LScraped (List.length rows))])).
Proof.
  intros B url max_pages w. split.
  - intro Hnone. unfold main. rewrite Hnone. reflexivity.
  - intros base containers tag_info sel tags p rest acc body
           Hget Hbody Hsel Hnext rows.
    simpl page_loop. unfold bind at 1. unfold log at 1, emit at 1.
    unfold bind at 1. rewrite (fetch_page_ok url body w Hget).
    destruct body as [|c body]; [congruence|].
    unfold bind at 1. rewrite scrape_page_extract, extract_run, Hsel.
    cbv zeta. fold rows. rewrite Hnext, bind_lift_raise. reflexivity.
Qed.

Lemma refused_url_witness :
  @main B5 (str "http://[x") 3 paged_world
  = (Raise ValueError, paged_world, []) /\
  @page_loop B5 (str "https://x.org") (containers_of refused_listing)
             (tag_info_of refused_listing) [1] [0; 1] (str "https://x.org")
             [] paged_world
  = (Raise ValueError, tick 1 paged_world,
     [ELog INFO (LScrapingPage (0 + 1) (str "https://x.org"));
      EGet (str "https://x.org");
      ELog INFO (LFetched (str "https://x.org"));
      ELog INFO (LScraped 1)]).
Proof.
  split.
  - apply (proj1 (refused_url_raises B5 (str "http://[x") 3 paged_world)).
    reflexivity.
  - apply (proj2 (refused_url_raises B5 (str "https://x.org") 3 paged_world)
             (str "https://x.org") (containers_of refused_listing)
             (tag_info_of refused_listing) [1] [(str "h2", str "H2")]
             0 [1] [] (str "<html>"));
      [reflexivity | discriminate | reflexivity | reflexivity].
Defined.

(** X18.  A run with a budget of [max_pages] makes at most
    [3 * (1 + max_pages)] requests: three at most for the analysis of
    page 1 and three at most for each page of the loop. *)
Theorem main_request_bound : forall (B : Builtins) url max_pages w,
  (List.length (requests_in (snd (main url max_pages w)))
   <= 3 * (1 + Z.to_nat max_pages))%nat.
Proof.
  intros B url max_pages w.
  destruct (main url max_pages w) as [[r w'] ev] eqn:H. simpl.
  apply main_run in H.
  destruct H as [[_ [_ [_ ->]]] | [r1 [w1 [ev1 [Hf H]]]]]; [simpl; lia|].
  apply fetch_page_facts in Hf. destruct Hf as [_ [Hn1 _]].
  destruct H as [[e1 [_ [_ [_ ->]]]]
                | [[html [_ [_ [_ [_ ->]]]]]
                  | [body [-> [Hbody H]]]]].
  - lia.
  - rewrite requests_in_app, length_app. simpl. lia.
  - cbv zeta in H.
    destruct H as [[_ [_ [_ ->]]] | [Hc [r2 [w2 [ev2 [Hp H]]]]]].
    + rewrite requests_in_app, length_app. simpl. lia.
    + apply present_options_outcome in Hp.
      destruct Hp as [_ [_ [Ho Hcons]]].
      assert (Hti : tag_info_of (parse_html body) <> [])
        by exact (containers_need_content_types _ Hc).
      specialize (Hcons Hti). apply console_silent in Hcons.
      destruct Hcons as [Hq2 _].
      assert (Hd : forall l,
                 requests_in (ev1 ++ detected (parse_html body) :: ev2 ++ l)
                 = requests_in ev1 ++ requests_in l).
      { intro l.
        change (detected (parse_html body) :: ev2 ++ l)
          with ([detected (parse_html body)] ++ ev2 ++ l).
        rewrite !requests_in_app, Hq2. reflexivity. }
      destruct H as [[e2 [_ [_ [_ ->]]]]
                    | [[_ [_ [_ ->]]]
                      | [sel [r3 [w3 [ev3 [Hne [-> [Hl H]]]]]]]]].
      * rewrite <- (app_nil_r ev2), Hd, length_app. simpl. lia.
      * rewrite Hd, length_app. simpl. lia.
      * pose proof (page_loop_background _ _ _ _ _ _ _ _ _ _ _ Ho Hl)
          as [_ [_ [_ Hn3]]].
        rewrite range_length in Hn3.
        destruct H as [[e3 [_ [_ [_ ->]]]] | [data [_ [_ [_ ->]]]]].
        -- rewrite Hd, length_app. lia.
        -- rewrite Hd, requests_in_app, !length_app.
           destruct (save_run (netloc_of url) data w3) as [evs [Es [_ Rs]]].
           rewrite Es. simpl. rewrite Rs. simpl. lia.
Qed.

Section Console.

Context {B : Builtins}.

Lemma prompt_loop_prints : forall n lines,
  Forall complaint (prints_in (snd (prompt_loop n lines))).
Proof.
  intros n lines. induction lines as [|line rest IH]; simpl.
  - constructor.
  - destruct (Str.eqb _ _); [constructor|].
    destruct (parse_selection line) as [sel|].
    + destruct (forallb _ sel); [constructor|].
      destruct (prompt_loop n rest) as [[r rest'] evs]. simpl in *.
      constructor; [left; reflexivity | exact IH].
    + destruct (prompt_loop n rest) as [[r rest'] evs]. simpl in *.
      constructor; [right; reflexivity | exact IH].
Qed.

Lemma present_options_prints : forall tag_info w,
  tag_info <> [] ->
  exists complaints,
    prints_in (snd (present_options tag_info w))
    = PFound :: prints_in (option_lines 1 tag_info) ++ complaints /\
    Forall complaint complaints.
Proof.
  intros tag_info w Hne. destruct tag_info as [|info infos]; [congruence|].
  pose proof (prompt_loop_prints (List.length (info :: infos)) (stdin w)) as P.
  destruct (prompt_loop (List.length (info :: infos)) (stdin w))
    as [[r rest] ev] eqn:E.
  simpl snd in P.
  assert (Ev : snd (present_options (info :: infos) w)
               = [EPrint PFound] ++ option_lines 1 (info :: infos) ++ ev)
    by (rewrite present_options_prompt, E; reflexivity).
  rewrite Ev. exists (prints_in ev). split; [|exact P].
  rewrite !prints_in_app. reflexivity.
Qed.

End Console.

(** X19.  What a run prints follows one of four courses: nothing (the
    first fetch raised); the line of the failed fetch alone; the line of
    the missing containers alone; or the heading of the content types, one
    line per content type of page 1, the complaints of the prompt, and
    then at most one closing line (no data selected, no data scraped, or
    the rows saved).  The line "no content types detected" is never
    printed. *)
Theorem main_console_lines : forall (B : Builtins) url max_pages w,
  let out := prints_in (snd (main url max_pages w)) in
  out = [] \/ out = [PFetchFailed] \/ out = [PNoContainers] \/
  exists soup complaints closing,
    tag_info_of soup <> [] /\
    out = PFound :: prints_in (option_lines 1 (tag_info_of soup))
          ++ complaints ++ closing /\
    Forall complaint complaints /\ closing_line closing.
Proof.
  intros B url max_pages w out. subst out.
  destruct (main url max_pages w) as [[r w'] ev] eqn:H. simpl.
  apply main_run in H.
  destruct H as [[_ [_ [_ ->]]] | [r1 [w1 [ev1 [Hf H]]]]];
    [left; reflexivity|].
  apply fetch_page_facts in Hf. destruct Hf as [Hb1 _].
  apply background_silent in Hb1. destruct Hb1 as [Hp1 _].
  destruct H as [[e1 [_ [_ [_ ->]]]]
                | [[html [_ [_ [_ [_ ->]]]]]
                  | [body [-> [Hbody H]]]]].
  - left. exact Hp1.
  - right. left. rewrite prints_in_app, Hp1. reflexivity.
  - cbv zeta in H.
    destruct H as [[_ [_ [_ ->]]] | [Hc [r2 [w2 [ev2 [Hp H]]]]]].
    + right. right. left. rewrite prints_in_app, Hp1. reflexivity.
    + right. right. right.
      assert (Hti : tag_info_of (parse_html body) <> [])
        by exact (containers_need_content_types _ Hc).
      destruct (present_options_prints (tag_info_of (parse_html body)) w1 Hti)
        as [complaints [Hpr Hcomp]].
      rewrite Hp in Hpr. simpl in Hpr.
      exists (parse_html body), complaints.
      assert (Hd : forall l,
                 prints_in (ev1 ++ detected (parse_html body) :: ev2 ++ l)
                 = (PFound
                    :: prints_in (option_lines 1
                                    (tag_info_of (parse_html body)))
                    ++ complaints) ++ prints_in l).
      { intro l.
        change (detected (parse_html body) :: ev2 ++ l)
          with ([detected (parse_html body)] ++ ev2 ++ l).
        rewrite !prints_in_app, Hp1, Hpr. reflexivity. }
      destruct H as [[e2 [_ [_ [_ ->]]]]
                    | [[_ [_ [_ ->]]]
                      | [sel [r3 [w3 [ev3 [Hne [-> [Hl H]]]]]]]]].
      * exists []. split; [exact Hti|]. split; [|split; [exact Hcomp|]].
        -- rewrite <- (app_nil_r ev2), Hd. simpl.
           rewrite !app_nil_r. reflexivity.
        -- left. reflexivity.
      * exists [PNoDataSelected]. split; [exact Hti|].
        split; [|split; [exact Hcomp|]].
        -- rewrite Hd. simpl. rewrite <- app_assoc. reflexivity.
        -- right. left. reflexivity.
      * apply present_options_outcome in Hp. destruct Hp as [_ [_ [Ho _]]].
        pose proof (page_loop_background _ _ _ _ _ _ _ _ _ _ _ Ho Hl)
          as [Hb3 _].
        apply background_silent in Hb3. destruct Hb3 as [Hp3 _].
        destruct H as [[e3 [_ [_ [_ ->]]]] | [data [_ [_ [_ ->]]]]].
        -- exists []. split; [exact Hti|]. split; [|split; [exact Hcomp|]].
           ++ rewrite Hd, Hp3. simpl. rewrite !app_nil_r. reflexivity.
           ++ left. reflexivity.
        -- rewrite Hd, prints_in_app, Hp3, save_events. simpl.
           destruct data as [|row rows].
           ++ exists [PNoData]. split; [exact Hti|].
              split; [|split; [exact Hcomp|]].
              ** simpl. rewrite <- app_assoc. reflexivity.
              ** right. right. left. reflexivity.
           ++ eexists. split; [exact Hti|]. split; [|split; [exact Hcomp|]].
              ** simpl. rewrite <- app_assoc. reflexivity.
              ** right. right. right. eexists _, _. reflexivity.
Qed.

(** X20.  A run writes at most one table, as its last act: the table goes
    to the file named after the host of the URL, dots turned into
    underscores, it has at least one row, and the two lines that follow
    it, in the log and on the console, report its number of rows and its
    file. *)
Theorem main_writes_one_table : forall (B : Builtins) url max_pages w,
  let ev := snd (main url max_pages w) in
  tables_in ev = [] \/
  exists before df,
    let file := written_file (netloc_of url) in
    let n := List.length (cells df) in
    ev = before ++ [ECsv file df; ELog INFO (LSaved n file);
                    EPrint (PSaved n file)] /\
    tables_in before = [] /\ (1 <= n)%nat /\
    fst (fst (main url max_pages w)) = Ret tt.
Proof.
  intros B url max_pages w ev. subst ev.
  destruct (main url max_pages w) as [[r w'] ev] eqn:H. simpl.
  apply main_run in H.
  destruct H as [[_ [_ [_ ->]]] | [r1 [w1 [ev1 [Hf H]]]]];
    [left; reflexivity|].
  apply fetch_page_facts in Hf. destruct Hf as [Hb1 _].
  apply tables_in_background in Hb1.
  destruct H as [[e1 [_ [_ [_ ->]]]]
                | [[html [_ [_ [_ [_ ->]]]]]
                  | [body [-> [Hbody H]]]]].
  - left. exact Hb1.
  - left. rewrite tables_in_app, Hb1. reflexivity.
  - cbv zeta in H.
    destruct H as [[_ [_ [_ ->]]] | [Hc [r2 [w2 [ev2 [Hp H]]]]]].
    + left. rewrite tables_in_app, Hb1. reflexivity.
    + assert (Hti : tag_info_of (parse_html body) <> [])
        by exact (containers_need_content_types _ Hc).
      apply present_options_outcome in Hp. destruct Hp as [_ [_ [Ho Hcons]]].
      specialize (Hcons Hti). apply console_silent in Hcons.
      destruct Hcons as [_ [Ht2 _]].
      assert (Hd : forall l,
                 tables_in (ev1 ++ detected (parse_html body) :: ev2 ++ l)
                 = tables_in l).
      { intro l.
        change (detected (parse_html body) :: ev2 ++ l)
          with ([detected (parse_html body)] ++ ev2 ++ l).
        rewrite !tables_in_app, Hb1, Ht2. reflexivity. }
      destruct H as [[e2 [_ [_ [_ ->]]]]
                    | [[_ [_ [_ ->]]]
                      | [sel [r3 [w3 [ev3 [Hne [-> [Hl H]]]]]]]]].
      * left. rewrite <- (app_nil_r ev2), Hd. reflexivity.
      * left. rewrite Hd. reflexivity.
      * pose proof (page_loop_background _ _ _ _ _ _ _ _ _ _ _ Ho Hl)
          as [Hb3 _].
        apply tables_in_background in Hb3.
        destruct H as [[e3 [_ [_ [_ ->]]]] | [data [_ [-> [_ ->]]]]].
        -- left. rewrite Hd. exact Hb3.
        -- rewrite save_events. cbn [snd]. destruct data as [|row rows].
           ++ left. rewrite Hd, tables_in_app, Hb3. reflexivity.
           ++ right.
              exists (ev1 ++ detected (parse_html body) :: ev2 ++ ev3).
              exists (Pandas.fillna NA
                        (Pandas.replace [] NA
                           (Pandas.drop_duplicates
                              (Pandas.DataFrame (row :: rows))))).
              cbv zeta. split; [|split; [|split]].
              ** rewrite <- app_assoc, <- app_comm_cons, <- app_assoc.
                 reflexivity.
              ** rewrite Hd. exact Hb3.
              ** unfold Pandas.fillna, Pandas.replace, Pandas.map_cells,
                   Pandas.drop_duplicates, Pandas.DataFrame.
                 cbn [cells map Pandas.keep_first existsb List.length]. lia.
              ** reflexivity.
Qed.

(** X21.  For a URL that [urlparse] accepts: when every request for it
    raises [RequestException], the run makes three requests, prints that
    the fetch failed and ends; it reads no input and writes no table. *)
Theorem main_gives_up_on_unreachable_url :
  forall (B : Builtins) url max_pages w parsed,
    urlparse (with_scheme url) = Some parsed ->
    (forall k, www w k (with_scheme url) = HttpRequestException) ->
    exists ev,
      main url max_pages w = (Ret tt, tick 3 w, ev) /\
      requests_in ev = repeat (with_scheme url) 3 /\
      prints_in ev = [PFetchFailed] /\
      inputs_in ev = 0%nat /\ tables_in ev = [].
Proof.
  intros B url max_pages w [scheme netloc] Hparse Hfail. unfold main.
  rewrite Hparse. unfold or_raise. rewrite bind_lift_ret.
  destruct (fetch_attempts_all_fail (with_scheme url) 3 2 3 0 w
              ltac:(lia) eq_refl eq_refl Hfail) as [ev [E R]].
  unfold bind at 1, fetch_page.
  change (range 3) with (map Z.of_nat (seq 0 3)). rewrite E.
  pose proof (fetch_attempts_background (with_scheme url) 3 2 _ _ _ _ _
                ltac:(lia) eq_refl E) as [Hb _].
  apply background_silent in Hb. destruct Hb as [Hp [Hi Ht]].
  eexists. split; [reflexivity|].
  rewrite requests_in_app, prints_in_app, inputs_in_app, tables_in_app,
    R, Hp, Hi, Ht.
  repeat split.
Qed.

Lemma main_unreachable_witness :
  exists ev,
    @main B1 (str "down.example") 3 demo_world
    = (Ret tt, tick 3 demo_world, ev) /\
    requests_in ev = repeat (with_scheme (str "down.example")) 3 /\
    prints_in ev = [PFetchFailed] /\
    inputs_in ev = 0%nat /\ tables_in ev = [].
Proof.
  apply (main_gives_up_on_unreachable_url B1 (str "down.example") 3
           demo_world (str "https", str "down.example"));
    reflexivity.
Defined.

(** X22.  A page answered with an empty body counts as a failed fetch,
    without another request: the run logs the fetch as successful, prints
    that the fetch failed and ends; inside the loop, such a page ends the
    loop with the records gathered so far.  (A run whose URL [urlparse]
    refuses raises [ValueError] before its first request.) *)
Theorem empty_body_is_a_failed_fetch :
  forall (B : Builtins) url max_pages w,
    www w (clock w) (with_scheme url) = HttpOk [] ->
    match urlparse (with_scheme url) with
    | Some _ =>
        main url max_pages w
        = (Ret tt, tick 1 w,
           [EGet (with_scheme url); ELog INFO (LFetched (with_scheme url));
            EPrint PFetchFailed])
    | None => main url max_pages w = (Raise ValueError, w, [])
    end /\
    (forall base containers tag_info sel p rest acc,
        page_loop base containers tag_info sel (p :: rest)
                  (with_scheme url) acc w
        = (Ret acc, tick 1 w,
           [ELog INFO (LScrapingPage (p + 1) (with_scheme url));
            EGet (with_scheme url);
            ELog INFO (LFetched (with_scheme url))])).
Proof.
  intros B url max_pages w Hget. split.
  - unfold main.
    destruct (urlparse (with_scheme url)) as [[scheme netloc]|];
      [|reflexivity].
    unfold or_raise. rewrite bind_lift_ret.
    unfold bind at 1. rewrite (fetch_page_ok _ _ w Hget). reflexivity.
  - intros base containers tag_info sel p rest acc. simpl page_loop.
    unfold bind at 1, log at 1, emit at 1. unfold bind at 1.
    rewrite (fetch_page_ok _ _ w Hget). reflexivity.
Qed.

Lemma empty_body_witness :
  @main B1 (str "x.org") 3 empty_world
  = (Ret tt, tick 1 empty_world,
     [EGet (with_scheme (str "x.org"));
      ELog INFO (LFetched (with_scheme (str "x.org")));
      EPrint PFetchFailed]).
Proof.
  apply (proj1 (empty_body_is_a_failed_fetch B1 (str "x.org") 3 empty_world
                  eq_refl)).
Defined.

(** X23.  When page 1 holds no qualifying container, the run reports it
    on the console and in the log and ends after its one request, without
    asking for a selection.  (A run whose URL [urlparse] refuses raises
    [ValueError] before its first request.) *)
Theorem main_stops_without_containers :
  forall (B : Builtins) url max_pages w body,
    www w (clock w) (with_scheme url) = HttpOk body ->
    body <> [] ->
    containers_of (parse_html body) = [] ->
    match urlparse (with_scheme url) with
    | Some _ =>
        main url max_pages w
        = (Ret tt, tick 1 w,
           [EGet (with_scheme url); ELog INFO (LFetched (with_scheme url));
            detected (parse_html body);
            EPrint PNoContainers; ELog ERROR LNoContainers])
    | None => main url max_pages w = (Raise ValueError, w, [])
    end.
Proof.
  intros B url max_pages w body Hget Hbody Hc. unfold main.
  destruct (urlparse (with_scheme url)) as [[scheme netloc]|];
    [|reflexivity].
  unfold or_raise. rewrite bind_lift_ret.
  unfold bind at 1. rewrite (fetch_page_ok _ _ w Hget).
  destruct body as [|c body]; [congruence|].
  unfold analyze_structure. rewrite Hc. reflexivity.
Qed.

Lemma main_without_containers_witness :
  @main B4 (str "x.org") 3 blank_world
  = (Ret tt, tick 1 blank_world,
     [EGet (with_scheme (str "x.org"));
      ELog INFO (LFetched (with_scheme (str "x.org")));
      detected (@parse_html B4 (str "<html>"));
      EPrint PNoContainers; ELog ERROR LNoContainers]).
Proof.
  apply (main_stops_without_containers B4 (str "x.org") 3 blank_world
           (str "<html>")); [reflexivity | discriminate | reflexivity].
Defined.

(** ** The URL given *)

(** X24.  The URL a run fetches carries a scheme: one that starts with
    "http://" or "https://" is kept as it is, any other gets "https://"
    before it; doing it twice changes nothing more. *)
Theorem with_scheme_has_scheme : forall url,
  (startswith (str "http://") (with_scheme url)
   || startswith (str "https://") (with_scheme url) = true) /\
  with_scheme (with_scheme url) = with_scheme url /\
  (startswith (str "http://") url || startswith (str "https://") url = true
   -> with_scheme url = url) /\
  (startswith (str "http://") url || startswith (str "https://") url = false
   -> with_scheme url = str "https://" ++ url).
Proof.
  intro url.
  assert (H : startswith (str "http://") (with_scheme url)
              || startswith (str "https://") (with_scheme url) = true).
  { unfold with_scheme.
    destruct (startswith (str "http://") url
              || startswith (str "https://") url) eqn:E; [exact E|].
    apply orb_true_iff. right. reflexivity. }
  split; [exact H|]. split; [|split].
  - unfold with_scheme at 1. rewrite H. reflexivity.
  - intro E. unfold with_scheme. rewrite E. reflexivity.
  - intro E. unfold with_scheme. rewrite E. reflexivity.
Qed.

(** ** The pattern of the next-page link *)

Lemma matches_eps_inv : forall s, matches Re.Eps s -> s = [].
Proof. intros s H. inversion H. reflexivity. Qed.

Lemma matches_empty_inv : forall s, ~ matches Re.Empty s.
Proof. intros s H. inversion H. Qed.

Lemma matches_chr_inv : forall p s,
  matches (Re.Chr p) s -> exists c, s = [c] /\ p c = true.
Proof. intros p s H. inversion H; subst. eauto. Qed.

Lemma matches_cat_inv : forall r1 r2 s,
  matches (Re.Cat r1 r2) s ->
  exists s1 s2, s = s1 ++ s2 /\ matches r1 s1 /\ matches r2 s2.
Proof. intros r1 r2 s H. inversion H; subst. eauto. Qed.

Lemma matches_alt_inv : forall r1 r2 s,
  matches (Re.Alt r1 r2) s -> matches r1 s \/ matches r2 s.
Proof. intros r1 r2 s H. inversion H; subst; auto. Qed.

Lemma nullable_matches : forall r,
  Re.nullable r = true <-> matches r [].
Proof.
  induction r as [| |p|r1 IH1 r2 IH2|r1 IH1 r2 IH2|r IH]; simpl.
  - split; [discriminate | intro H; destruct (matches_empty_inv _ H)].
  - split; [constructor | reflexivity].
  - split; [discriminate|]. intro H. apply matches_chr_inv in H.
    destruct H as [c [E _]]. discriminate.
  - rewrite andb_true_iff, IH1, IH2. split.
    + intros [H1 H2]. exact (MCat _ _ [] [] H1 H2).
    + intro H. apply matches_cat_inv in H.
      destruct H as [s1 [s2 [E [H1 H2]]]].
      destruct s1; [|discriminate]. destruct s2; [|discriminate]. auto.
  - rewrite orb_true_iff, IH1, IH2. split.
    + intros [H|H]; [apply MAltL | apply MAltR]; exact H.
    + apply matches_alt_inv.
  - split; [constructor | reflexivity].
Qed.

(** A match of a starred expression that starts with [c] starts with a
    match of the expression that starts with [c]. *)
Lemma star_cons : forall r c s,
  matches (Re.Star r) (c :: s) ->
  exists s1 s2, s = s1 ++ s2 /\ matches r (c :: s1) /\ matches (Re.Star r) s2.
Proof.
  intros r c s H. remember (Re.Star r) as sr eqn:Er.
  remember (c :: s) as cs eqn:Ecs. revert c s Ecs.
  induction H as [| | | | | |r0 s1 s2 H1 _ H2 IH2]; intros x t Ecs;
    try discriminate.
  inversion Er; subst r0. destruct s1 as [|d s1].
  - simpl in Ecs. exact (IH2 Er x t Ecs).
  - simpl in Ecs. inversion Ecs; subst. exists s1, s2. auto.
Qed.

Lemma deriv_matches : forall r c s,
  matches (Re.deriv c r) s <-> matches r (c :: s).
Proof.
  induction r as [| |p|r1 IH1 r2 IH2|r1 IH1 r2 IH2|r IH]; intros c s; simpl.
  - split; intro H; destruct (matches_empty_inv _ H).
  - split; intro H; [destruct (matches_empty_inv _ H)|].
    apply matches_eps_inv in H. discriminate.
  - destruct (p c) eqn:Ep; split; intro H.
    + apply matches_eps_inv in H. subst. constructor. exact Ep.
    + apply matches_chr_inv in H. destruct H as [d [E _]].
      inversion E; subst. constructor.
    + destruct (matches_empty_inv _ H).
    + apply matches_chr_inv in H. destruct H as [d [E Hd]].
      inversion E; subst. congruence.
  - assert (Hcat : matches (Re.Cat (Re.deriv c r1) r2) s <->
                   exists s1 s2, s = s1 ++ s2 /\ matches r1 (c :: s1)
                                 /\ matches r2 s2).
    { split.
      - intro H. apply matches_cat_inv in H.
        destruct H as [s1 [s2 [-> [H1 H2]]]].
        exists s1, s2. split; [reflexivity|]. split; [apply IH1|]; assumption.
      - intros [s1 [s2 [-> [H1 H2]]]]. constructor; [apply IH1|]; assumption. }
    assert (Hgoal : matches (Re.Cat r1 r2) (c :: s) <->
                    (exists s1 s2, s = s1 ++ s2 /\ matches r1 (c :: s1)
                                   /\ matches r2 s2)
                    \/ (matches r1 [] /\ matches r2 (c :: s))).
    { split.
      - intro H. apply matches_cat_inv in H.
        destruct H as [s1 [s2 [E [H1 H2]]]].
        destruct s1 as [|d s1].
        + simpl in E. subst s2. right. auto.
        + simpl in E. inversion E; subst. left. exists s1, s2. auto.
      - intros [[s1 [s2 [-> [H1 H2]]]] | [H1 H2]].
        + exact (MCat _ _ (c :: s1) s2 H1 H2).
        + exact (MCat _ _ [] (c :: s) H1 H2). }
    rewrite Hgoal. destruct (Re.nullable r1) eqn:En.
    + split.
      * intro H. apply matches_alt_inv in H. destruct H as [H|H].
        -- left. apply Hcat. assumption.
        -- right. split; [apply nullable_matches; exact En | apply IH2].
           assumption.
      * intros [H|[_ H]].
        -- apply MAltL. apply Hcat. exact H.
        -- apply MAltR. apply IH2. exact H.
    + rewrite Hcat. split; [auto|]. intros [H|[H _]]; [exact H|].
      apply nullable_matches in H. congruence.
  - split; intro H.
    + apply matches_alt_inv in H.
      destruct H as [H|H]; [apply MAltL; apply IH1 | apply MAltR; apply IH2];
        assumption.
    + apply matches_alt_inv in H.
      destruct H as [H|H]; [apply MAltL; apply IH1 | apply MAltR; apply IH2];
        assumption.
  - split; intro H.
    + apply matches_cat_inv in H. destruct H as [s1 [s2 [-> [H1 H2]]]].
      apply IH in H1. exact (MStarApp r (c :: s1) s2 H1 H2).
    + apply star_cons in H. destruct H as [s1 [s2 [-> [H1 H2]]]].
      constructor; [apply IH|]; assumption.
Qed.

Lemma match_prefix_spec : forall s r,
  Re.match_prefix r s = true <->
  exists p q, s = p ++ q /\ matches r p.
Proof.
  induction s as [|c s IH]; intro r; simpl.
  - rewrite orb_false_r, nullable_matches. split.
    + intro H. exists [], []. auto.
    + intros [p [q [E H]]]. destruct p; [exact H | discriminate].
  - rewrite orb_true_iff, nullable_matches, IH. split.
    + intros [H|[p [q [-> H]]]].
      * exists [], (c :: s). auto.
      * exists (c :: p), q. split; [reflexivity|]. apply deriv_matches.
        exact H.
    + intros [p [q [E H]]]. destruct p as [|d p].
      * left. exact H.
      * simpl in E. inversion E; subst. right. exists p, q.
        split; [reflexivity|]. apply deriv_matches. exact H.
Qed.

(** [search] finds a match wherever one lies in the string. *)
Lemma search_spec : forall s r,
  Re.search r s = true <->
  exists a p q, s = a ++ p ++ q /\ matches r p.
Proof.
  induction s as [|c s IH]; intro r.
  - simpl. rewrite !orb_false_r, nullable_matches. split.
    + intro H. exists [], [], []. auto.
    + intros [a [p [q [E H]]]]. destruct a; [|discriminate].
      destruct p; [exact H | discriminate].
  - change (Re.search r (c :: s))
      with (Re.match_prefix r (c :: s) || Re.search r s).
    rewrite orb_true_iff, IH, match_prefix_spec. split.
    + intros [[p [q [E H]]] | [a [p [q [-> H]]]]].
      * exists [], p, q. auto.
      * exists (c :: a), p, q. auto.
    + intros [a [p [q [E H]]]]. destruct a as [|d a].
      * left. exists p, q. auto.
      * simpl in E. inversion E; subst. right. exists a, p, q. auto.
Qed.

Lemma literal_i_matches : forall lower p s,
  matches (Re.literal_i lower p) s <-> map lower s = map lower p.
Proof.
  intros lower p. induction p as [|c p IH]; intro s; simpl.
  - split.
    + intro H. apply matches_eps_inv in H. subst. reflexivity.
    + intro H. destruct s; [constructor | discriminate].
  - split.
    + intro H. apply matches_cat_inv in H.
      destruct H as [s1 [s2 [-> [H1 H2]]]].
      apply matches_chr_inv in H1. destruct H1 as [d [-> Hd]].
      apply N.eqb_eq in Hd. simpl. rewrite Hd. f_equal. apply IH. exact H2.
    + intro H. destruct s as [|d s]; [discriminate|].
      simpl in H. inversion H as [[Hd Hs]].
      apply (MCat _ _ [d] s).
      * constructor. apply N.eqb_refl.
      * apply IH. exact Hs.
Qed.

Lemma plus_class_matches : forall f s,
  matches (Re.Plus (Re.Chr f)) s <-> s <> [] /\ forallb f s = true.
Proof.
  intros f s.
  assert (Hstar : forall t, matches (Re.Star (Re.Chr f)) t <->
                            forallb f t = true).
  { intro t. split.
    - intro H. remember (Re.Star (Re.Chr f)) as sr eqn:Er.
      induction H as [| | | | | |r0 s1 s2 H1 _ H2 IH2]; try discriminate.
      + reflexivity.
      + inversion Er; subst r0. apply matches_chr_inv in H1.
        destruct H1 as [d [-> Hd]]. simpl.
        rewrite IH2 by reflexivity. rewrite andb_true_r. assumption.
    - induction t as [|c t IH]; intro H; [constructor|].
      simpl in H. apply andb_true_iff in H. destruct H as [Hc Ht].
      apply (MStarApp _ [c] t); [constructor; exact Hc | exact (IH Ht)]. }
  unfold Re.Plus. split.
  - intro H. apply matches_cat_inv in H.
    destruct H as [s1 [s2 [-> [H1 H2]]]].
    apply matches_chr_inv in H1. destruct H1 as [d [-> Hd]].
    apply Hstar in H2. simpl. split; [discriminate|].
    rewrite H2, andb_true_r. assumption.
  - intros [Hne H]. destruct s as [|c s]; [congruence|].
    simpl in H. apply andb_true_iff in H. destruct H as [Hc Hs].
    apply (MCat _ _ [c] s); [constructor; exact Hc | apply Hstar; exact Hs].
Qed.

(** X25.  The pattern of the next-page link is found in a string exactly
    when the string holds, somewhere, "next" in any letter case or
    "page ", in any letter case, followed by at least one decimal digit. *)
Theorem next_pattern_wording : forall (B : Builtins) s,
  Re.search next_re s = true <->
  exists before m after, s = before ++ m ++ after /\ next_wording m.
Proof.
  intros B s. rewrite search_spec. unfold next_re, next_wording.
  split.
  - intros [a [p [q [-> H]]]]. exists a, p, q. split; [reflexivity|].
    apply matches_alt_inv in H. destruct H as [H1|H2].
    + left. apply literal_i_matches. exact H1.
    + right. apply matches_cat_inv in H2.
      destruct H2 as [s1 [s2 [-> [Hw Hd]]]].
      exists s1, s2. split; [reflexivity|].
      split; [apply literal_i_matches; exact Hw|].
      apply plus_class_matches. exact Hd.
  - intros [a [m [q [-> [H|[word [digits [-> [Hw [Hne Hd]]]]]]]]]].
    + exists a, m, q. split; [reflexivity|].
      apply MAltL. apply literal_i_matches. exact H.
    + exists a, (word ++ digits), q. split; [reflexivity|].
      apply MAltR. constructor.
      * apply literal_i_matches. exact Hw.
      * apply plus_class_matches. auto.
Qed.

(** ** Selections outside the prompt's range *)

Lemma py_index_out_of_range : forall A (l : list A) i,
  i < - Z.of_nat (List.length l) \/ Z.of_nat (List.length l) <= i ->
  py_index l i = Raise IndexError.
Proof.
  intros A l i H. unfold py_index.
  destruct (i <? 0) eqn:E.
  - apply Z.ltb_lt in E.
    destruct ((0 <=? i + Z.of_nat (List.length l))
              && (i + Z.of_nat (List.length l) <? Z.of_nat (List.length l)))
      eqn:E2; [|reflexivity].
    apply andb_true_iff in E2. destruct E2 as [E2 _].
    apply Z.leb_le in E2. lia.
  - apply Z.ltb_ge in E.
    destruct ((0 <=? i) && (i <? Z.of_nat (List.length l))) eqn:E2;
      [|reflexivity].
    apply andb_true_iff in E2. destruct E2 as [_ E2].
    apply Z.ltb_lt in E2. lia.
Qed.

Lemma py_index_within : forall A (l : list A) i,
  - Z.of_nat (List.length l) <= i < Z.of_nat (List.length l) ->
  exists a,
    py_index l i = Ret a /\
    nth_error l (Z.to_nat (i mod Z.of_nat (List.length l))) = Some a.
Proof.
  intros A l i H.
  assert (Hlen : 0 < Z.of_nat (List.length l)) by lia.
  destruct (Z_lt_le_dec i 0) as [Hneg|Hpos].
  - unfold py_index.
    replace (i <? 0) with true by (symmetry; apply Z.ltb_lt; lia).
    replace ((0 <=? i + Z.of_nat (List.length l))
             && (i + Z.of_nat (List.length l) <? Z.of_nat (List.length l)))
      with true
      by (symmetry; apply andb_true_iff; split;
          [apply Z.leb_le | apply Z.ltb_lt]; lia).
    replace (i mod Z.of_nat (List.length l))
      with (i + Z.of_nat (List.length l)).
    + destruct (nth_error l (Z.to_nat (i + Z.of_nat (List.length l))))
        as [a|] eqn:En; [eauto|].
      apply nth_error_None in En. lia.
    + apply Z.mod_unique with (q := -1); lia.
  - destruct (py_index_in_range _ l i) as [a [Ea Na]]; [lia|].
    exists a. split; [exact Ea|]. rewrite Z.mod_small by lia. exact Na.
Qed.

(** X26.  [scrape_page] itself takes more selections than the prompt
    lets through: an index from [1 - n] to [n], for [n] content types,
    resolves, indices below 1 counting from the end of the list (0 is the
    last content type); any other index raises [IndexError] before a row
    is built or a line is logged. *)
Theorem scrape_page_index_range :
  forall soup containers tag_info sel w,
    let n := Z.of_nat (List.length tag_info) in
    (Forall (fun i => 1 - n <= i <= n) sel ->
     exists data,
       fst (fst (scrape_page soup containers tag_info sel w)) = Ret data /\
       selected_tags_of tag_info sel
       = Ret (map (fun i =>
                     match nth_error tag_info (Z.to_nat ((i - 1) mod n)) with
                     | Some info => (ti_tag info, ti_type info)
                     | None => ([], [])
                     end) sel)) /\
    (Exists (fun i => i < 1 - n \/ n < i) sel ->
     scrape_page soup containers tag_info sel w = (Raise IndexError, w, [])).
Proof.
  intros soup containers tag_info sel w n. split.
  - intro H.
    assert (Hsel : selected_tags_of tag_info sel
                   = Ret (map (fun i =>
                            match nth_error tag_info
                                    (Z.to_nat ((i - 1) mod n)) with
                            | Some info => (ti_tag info, ti_type info)
                            | None => ([], [])
                            end) sel)).
    { unfold selected_tags_of. induction H as [|i sel Hi _ IH]; [reflexivity|].
      destruct (py_index_within _ tag_info (i - 1)) as [a [Ea Na]];
        [unfold n in Hi; lia|].
      cbn [rmap map]. rewrite Ea. cbn [rbind]. rewrite IH. cbn [rbind].
      fold n in Na. rewrite Na. reflexivity. }
    rewrite scrape_page_extract, extract_run, Hsel. eexists.
    split; reflexivity.
  - intro H.
    assert (Hsel : selected_tags_of tag_info sel = Raise IndexError).
    { unfold selected_tags_of. induction H as [i sel Hi|i sel _ IH].
      - cbn [rmap]. rewrite py_index_out_of_range by (unfold n in Hi; lia).
        reflexivity.
      - cbn [rmap]. destruct (py_index tag_info (i - 1)) as [a|e] eqn:Ea.
        + cbn [rbind]. rewrite IH. reflexivity.
        + apply py_index_raises in Ea. subst e. reflexivity. }
    rewrite scrape_page_extract, extract_run, Hsel. reflexivity.
Qed.

Lemma scrape_page_index_witness :
  (exists data,
      fst (fst (scrape_page demo_listing (containers_of demo_listing)
                            (tag_info_of demo_listing) [0; -1] demo_world))
      = Ret data /\
      selected_tags_of (tag_info_of demo_listing) [0; -1]
      = Ret (map (fun i =>
                    match nth_error (tag_info_of demo_listing)
                            (Z.to_nat ((i - 1)
                               mod Z.of_nat
                                     (List.length (tag_info_of demo_listing))))
                    with
                    | Some info => (ti_tag info, ti_type info)
                    | None => ([], [])
                    end) [0; -1])) /\
  scrape_page demo_listing (containers_of demo_listing)
              (tag_info_of demo_listing) [1; 3] demo_world
  = (Raise IndexError, demo_world, []).
Proof.
  destruct (scrape_page_index_range demo_listing (containers_of demo_listing)
              (tag_info_of demo_listing) [0; -1] demo_world) as [H1 _].
  destruct (scrape_page_index_range demo_listing (containers_of demo_listing)
              (tag_info_of demo_listing) [1; 3] demo_world) as [_ H2].
  split.
  - apply H1. repeat constructor; vm_compute; discriminate.
  - apply H2. right. left. right. reflexivity.
Defined.

(** ** The columns of the table *)

Lemma fold_set_keys : forall article tags row,
  map fst
    (fold_left (fun r tc => dict_set (snd tc) (field_of article (fst tc)) r)
               tags row)
  = fold_left add_label (map snd tags) (map fst row).
Proof.
  intros article tags. induction tags as [|tc tags IH]; intro row.
  - reflexivity.
  - simpl. rewrite IH, dict_set_keys. reflexivity.
Qed.

Lemma row_of_labels : forall tags article,
  map fst (row_of tags article) = labels_of tags.
Proof. intros. unfold row_of, labels_of. apply fold_set_keys. Qed.

Lemma add_keys_known : forall r cols,
  (forall k, In k (map fst r) -> In k cols) -> Pandas.add_keys cols r = cols.
Proof.
  unfold Pandas.add_keys. induction r as [|[k v] r IH]; intros cols H.
  - reflexivity.
  - simpl. rewrite (proj2 (existsb_str_In k cols)).
    + apply IH. intros x Hx. apply H. right. exact Hx.
    + apply H. left. reflexivity.
Qed.

Lemma add_keys_fresh : forall r cols,
  NoDup (map fst r) ->
  (forall k, In k (map fst r) -> ~ In k cols) ->
  Pandas.add_keys cols r = cols ++ map fst r.
Proof.
  unfold Pandas.add_keys. induction r as [|[k v] r IH]; intros cols Hnd H.
  - simpl. rewrite app_nil_r. reflexivity.
  - simpl. inversion Hnd as [|? ? Hk Hnd']; subst.
    destruct (existsb (Str.eqb k) cols) eqn:E.
    + apply existsb_str_In in E. exfalso. apply (H k); [left; reflexivity|].
      exact E.
    + rewrite IH; [rewrite <- app_assoc; reflexivity | exact Hnd' |].
      intros x Hx Hin. apply in_app_or in Hin. destruct Hin as [Hin|[<-|[]]].
      * apply (H x); [right; exact Hx | exact Hin].
      * exact (Hk Hx).
Qed.

(** X27.  The table of the records of a page has the selected labels for
    columns, each once, in the order of their first selection, and every
    row has one cell per column, the value the record holds under that
    label. *)
Theorem table_columns_are_selected_labels : forall tags articles,
  articles <> [] ->
  let df := Pandas.DataFrame (map (row_of tags) articles) in
  columns df = labels_of tags /\
  NoDup (columns df) /\
  (forall k, In k (columns df) <-> In k (map snd tags)) /\
  cells df
  = map (fun article =>
           map (fun label => dict_get label (row_of tags article))
               (labels_of tags))
        articles.
Proof.
  intros tags articles Hne df.
  assert (Hnd : NoDup (labels_of tags)).
  { rewrite <- (row_of_labels tags (Text [])). unfold row_of.
    apply fold_set_NoDup. constructor. }
  assert (Hcols : columns df = labels_of tags).
  { unfold df, Pandas.DataFrame. cbn [columns].
    destruct articles as [|a articles]; [congruence|].
    cbn [map fold_left].
    rewrite (add_keys_fresh (row_of tags a) []);
      [| rewrite row_of_labels; exact Hnd | intros k _ []].
    cbn [app]. rewrite row_of_labels.
    induction articles as [|b articles IH]; [reflexivity|].
    cbn [map fold_left]. rewrite add_keys_known; [apply IH; discriminate|].
    intros k Hk. rewrite row_of_labels in Hk. exact Hk. }
  split; [exact Hcols|]. split; [rewrite Hcols; exact Hnd|]. split.
  - intro k. rewrite Hcols, <- (row_of_labels tags (Text [])). split.
    + apply row_of_keys.
    + intro Hk.
      destruct (fold_set_written (Text []) tags [] k Hk) as [v [Hv _]].
      unfold row_of. unfold dict_get in Hv. revert Hv.
      generalize (fold_left
                    (fun r tc =>
                       dict_set (snd tc) (field_of (Text []) (fst tc)) r)
                    tags []).
      intro d. induction d as [|[k' v'] d IH]; simpl; [discriminate|].
      destruct (Str.eqb k' k) eqn:E.
      * apply str_eqb_eq in E. auto.
      * intro H. right. exact (IH H).
  - unfold df, Pandas.DataFrame in *. cbn [columns cells] in *.
    rewrite Hcols, map_map. reflexivity.
Qed.

Lemma table_columns_witness :
  let tags := [(str "p", str "P"); (str "h2", str "H2"); (str "p", str "P")] in
  let articles := find_all [str "article"] demo_listing in
  let df := Pandas.DataFrame (map (row_of tags) articles) in
  columns df = labels_of tags /\
  NoDup (columns df) /\
  (forall k, In k (columns df) <-> In k (map snd tags)) /\
  cells df
  = map (fun article =>
           map (fun label => dict_get label (row_of tags article))
               (labels_of tags))
        articles.
Proof.
  apply table_columns_are_selected_labels. vm_compute. discriminate.
Defined.

Example table_columns_order :
  labels_of [(str "p", str "P"); (str "h2", str "H2"); (str "p", str "P")]
  = [str "P"; str "H2"].
Proof. reflexivity. Qed.
